(** * CrowdStrike Falcon MCP server: the OAuth2 API client

    A shallow embedding of [CrowdStrikeClientImpl] (client.ts) and of the
    vulnerability tool (tools/vulnerabilities.ts), with the JavaScript
    built-ins they call, and the properties of the design document checked
    against it.

    Conventions of the embedding.
    - A JavaScript string is a Rocq [string]: the sequence of its UTF-8
      bytes.  Lengths of strings are only ever compared with zero.
    - A number decoded from JSON is an exact decimal [m * 10^e]; binary
      rounding and overflow are not modelled.  Clock readings, HTTP statuses
      and counts are integers ([Z], [nat]).
    - An [async] method is a function from the world (the clock and the
      vendor's replies) and the machine state (the client object, the number
      of clock readings and the requests sent so far) to an outcome and a new
      machine state. *)

From Stdlib Require Import String Ascii List ZArith Lia Bool Arith.
From Stdlib Require Import DecimalString DecimalPos.
Import ListNotations.

Set Warnings "-register-all".

Open Scope string_scope.
Open Scope Z_scope.

(* ===================================================================== *)
(** ** JavaScript values and built-ins *)
(* ===================================================================== *)

Module Js.

(** [String(n)] for an integer. *)
Definition string_of_Z (z : Z) : string :=
  NilZero.string_of_int (Z.to_int z).

Definition string_of_nat (n : nat) : string := string_of_Z (Z.of_nat n).

(** [Array.prototype.join] on strings. *)
Fixpoint join (sep : string) (l : list string) : string :=
  match l with
  | [] => ""
  | [x] => x
  | x :: r => x ++ sep ++ join sep r
  end.

Definition code (c : ascii) : Z := Z.of_nat (nat_of_ascii c).

Definition chr (z : Z) : ascii := ascii_of_nat (Z.to_nat z).

Definition hex_upper (d : Z) : ascii :=
  if d <? 10 then chr (48 + d) else chr (55 + d).

Definition hex_lower (d : Z) : ascii :=
  if d <? 10 then chr (48 + d) else chr (87 + d).

Definition is_digit (c : ascii) : bool := (48 <=? code c) && (code c <=? 57).

Definition is_alpha (c : ascii) : bool :=
  ((65 <=? code c) && (code c <=? 90)) || ((97 <=? code c) && (code c <=? 122)).

Definition digit_value (c : ascii) : Z := code c - 48.

(** A value as JavaScript sees it after [JSON.parse], plus [undefined].
    [JNum m e] is the number [m * 10^e].  The fields of an object are kept in
    insertion order, each key once. *)
Inductive JsValue : Type :=
| JUndefined
| JNull
| JBool (b : bool)
| JNum (m e : Z)
| JStr (s : string)
| JArr (items : list JsValue)
| JObj (fields : list (string * JsValue)).

Definition JsObject : Type := list (string * JsValue).

(** The result of an operation that may throw a [TypeError]. *)
Inductive Completion (A : Type) : Type :=
| Normal (a : A)
| ThrowTypeError.
Arguments Normal {A} a.
Arguments ThrowTypeError {A}.

Fixpoint own (fields : JsObject) (key : string) : option JsValue :=
  match fields with
  | [] => None
  | (k, v) :: r => if String.eqb k key then Some v else own r key
  end.

(** [obj[key] = v]: an existing key keeps its place. *)
Fixpoint obj_set (fields : JsObject) (key : string) (v : JsValue) : JsObject :=
  match fields with
  | [] => [(key, v)]
  | (k, x) :: r =>
      if String.eqb k key then (k, v) :: r else (k, x) :: obj_set r key v
  end.

(** [{...a, ...b}] *)
Definition spread (a b : JsObject) : JsObject :=
  fold_left (fun acc kv => obj_set acc (fst kv) (snd kv)) b a.

(** Truthiness ([ToBoolean]). *)
Definition truthy (v : JsValue) : bool :=
  match v with
  | JUndefined | JNull => false
  | JBool b => b
  | JNum m _ => negb (m =? 0)
  | JStr s => negb (String.eqb s "")
  | JArr _ | JObj _ => true
  end.

Definition truthy_string (s : string) : bool := negb (String.eqb s "").

(** [v.key] for the property names the client reads ("resources", "errors",
    "message", "length", "0"): none of them is found on a prototype, except
    [length] of arrays and strings.  Reading a property of [null] or
    [undefined] throws. *)
Definition get (v : JsValue) (key : string) : Completion JsValue :=
  match v with
  | JUndefined | JNull => ThrowTypeError
  | JObj fields =>
      match own fields key with
      | Some x => Normal x
      | None => Normal JUndefined
      end
  | JArr items =>
      if String.eqb key "length" then Normal (JNum (Z.of_nat (length items)) 0)
      else if String.eqb key "0" then
        match items with
        | x :: _ => Normal x
        | [] => Normal JUndefined
        end
      else Normal JUndefined
  | JStr s =>
      if String.eqb key "length" then Normal (JNum (Z.of_nat (String.length s)) 0)
      else if String.eqb key "0" then
        match s with
        | String c _ => Normal (JStr (String c EmptyString))
        | EmptyString => Normal JUndefined
        end
      else Normal JUndefined
  | JBool _ | JNum _ _ => Normal JUndefined
  end.

(** [v?.key] *)
Definition get_optional (v : JsValue) (key : string) : Completion JsValue :=
  match v with
  | JUndefined | JNull => Normal JUndefined
  | _ => get v key
  end.

(** [a || b] *)
Definition or_else (a b : JsValue) : JsValue := if truthy a then a else b.

(* --------------------------------------------------------------------- *)
(** *** Number to string *)

Fixpoint strip_zeros_fuel (fuel : nat) (m e : Z) : Z * Z :=
  match fuel with
  | O => (m, e)
  | S fuel' =>
      if (m mod 10 =? 0) && negb (m =? 0)
      then strip_zeros_fuel fuel' (m / 10) (e + 1)
      else (m, e)
  end.

Definition digits_of (m : Z) : string := string_of_Z (Z.abs m).

Fixpoint zeros (n : nat) : string :=
  match n with
  | O => ""
  | S n' => String "0" (zeros n')
  end.

Fixpoint take (n : nat) (s : string) : string :=
  match n, s with
  | S n', String c r => String c (take n' r)
  | _, _ => ""
  end.

Fixpoint drop (n : nat) (s : string) : string :=
  match n, s with
  | S n', String _ r => drop n' r
  | _, _ => s
  end.

(** [Number.prototype.toString] on the decimal [m * 10^e], following the
    case analysis of the language definition on the digits [d], their count
    [k] and the position [n] of the decimal point. *)
Definition number_toString (m e : Z) : string :=
  if m =? 0 then "0" else
  let '(m1, e1) := strip_zeros_fuel (String.length (digits_of m)) m e in
  let d := digits_of m1 in
  let k := Z.of_nat (String.length d) in
  let n := k + e1 in
  let sign := if m <? 0 then "-" else "" in
  let body :=
    if (k <=? n) && (n <=? 21) then d ++ zeros (Z.to_nat (n - k))
    else if (0 <? n) && (n <=? 21) then
      take (Z.to_nat n) d ++ "." ++ drop (Z.to_nat n) d
    else if (-6 <? n) && (n <=? 0) then "0." ++ zeros (Z.to_nat (- n)) ++ d
    else
      let ex := (if n - 1 <? 0 then "-" else "+") ++ string_of_Z (Z.abs (n - 1)) in
      if k =? 1 then d ++ "e" ++ ex
      else take 1 d ++ "." ++ drop 1 d ++ "e" ++ ex in
  sign ++ body.

(* --------------------------------------------------------------------- *)
(** *** ToString and join on values *)

Definition has_own (fields : JsObject) (key : string) : bool :=
  match own fields key with
  | Some _ => true
  | None => false
  end.

(** [items.join(sep)] given the conversion of one element: [undefined] and
    [null] elements give the empty string. *)
Definition join_values (toString : JsValue -> Completion string) (sep : string) :=
  fix go (items : list JsValue) : Completion string :=
    let elem x :=
      match x with
      | JUndefined | JNull => Normal ""
      | _ => toString x
      end in
    match items with
    | [] => Normal ""
    | [x] => elem x
    | x :: r =>
        match elem x, go r with
        | Normal a, Normal b => Normal (a ++ sep ++ b)
        | _, _ => ThrowTypeError
        end
    end.

(** [ToString(v)].  An object decoded from JSON converts through
    [Object.prototype.toString], unless it has a field of its own called
    [toString], which is not callable: the conversion then throws. *)
Fixpoint toString (v : JsValue) : Completion string :=
  match v with
  | JUndefined => Normal "undefined"
  | JNull => Normal "null"
  | JBool true => Normal "true"
  | JBool false => Normal "false"
  | JNum m e => Normal (number_toString m e)
  | JStr s => Normal s
  | JArr items => join_values toString "," items
  | JObj fields =>
      if has_own fields "toString" then ThrowTypeError
      else Normal "[object Object]"
  end.

Definition array_join (items : list JsValue) (sep : string) : Completion string :=
  join_values toString sep items.

(* --------------------------------------------------------------------- *)
(** *** JSON.stringify *)

Definition quote_char (c : ascii) : string :=
  let n := code c in
  if n =? 34 then String "\" (String "034" "")
  else if n =? 92 then "\\"
  else if n =? 8 then "\b"
  else if n =? 12 then "\f"
  else if n =? 10 then "\n"
  else if n =? 13 then "\r"
  else if n =? 9 then "\t"
  else if n <? 32 then
    "\u00" ++ String (hex_lower (n / 16)) (String (hex_lower (n mod 16)) "")
  else String c "".

Fixpoint quote_body (s : string) : string :=
  match s with
  | EmptyString => ""
  | String c r => quote_char c ++ quote_body r
  end.

Definition quote (s : string) : string :=
  String "034" (quote_body s) ++ String "034" "".

(** [JSON.stringify(v)]; [None] stands for [undefined] (a field holding it
    is left out, an array element holding it is written [null]). *)
Fixpoint stringify (v : JsValue) : option string :=
  match v with
  | JUndefined => None
  | JNull => Some "null"
  | JBool true => Some "true"
  | JBool false => Some "false"
  | JNum m e => Some (number_toString m e)
  | JStr s => Some (quote s)
  | JArr items =>
      Some ("[" ++ join "," (map (fun x =>
               match stringify x with
               | Some s => s
               | None => "null"
               end) items) ++ "]")
  | JObj fields =>
      Some ("{" ++ join ","
              ((fix members (fs : list (string * JsValue)) : list string :=
                  match fs with
                  | [] => []
                  | (k, x) :: r =>
                      match stringify x with
                      | Some s => (quote k ++ ":" ++ s) :: members r
                      | None => members r
                      end
                  end) fields) ++ "}")
  end.

(** [JSON.stringify] of an object literal (never [undefined]). *)
Definition JSON_stringify (fields : JsObject) : string :=
  match stringify (JObj fields) with
  | Some s => s
  | None => ""
  end.

Definition strings (l : list string) : JsValue := JArr (map JStr l).

(* --------------------------------------------------------------------- *)
(** *** Percent-encoding *)

Definition percent (c : ascii) : string :=
  String "%" (String (hex_upper (code c / 16)) (String (hex_upper (code c mod 16)) "")).

Definition in_chars (c : ascii) (set : string) : bool :=
  existsb (Ascii.eqb c) (list_ascii_of_string set).

(** [encodeURIComponent]: letters, digits and [-_.!~*'()] stay. *)
Fixpoint encodeURIComponent (s : string) : string :=
  match s with
  | EmptyString => ""
  | String c r =>
      (if is_alpha c || is_digit c || in_chars c "-_.!~*'()"
       then String c "" else percent c) ++ encodeURIComponent r
  end.

(** The serializer of [URLSearchParams]: letters, digits and [*-._] stay, a
    space becomes [+]. *)
Fixpoint form_encode (s : string) : string :=
  match s with
  | EmptyString => ""
  | String c r =>
      (if is_alpha c || is_digit c || in_chars c "*-._" then String c ""
       else if Ascii.eqb c " " then "+" else percent c) ++ form_encode r
  end.

(** A [URLSearchParams] object: its list of name-value pairs. *)
Definition URLSearchParams : Type := list (string * string).

(** [params.set(name, value)]: the first pair of that name takes the value
    and the others go; without one the pair is appended. *)
Definition params_set (p : URLSearchParams) (name value : string) : URLSearchParams :=
  if existsb (fun kv => String.eqb (fst kv) name) p then
    (fix go (l : URLSearchParams) (seen : bool) : URLSearchParams :=
       match l with
       | [] => []
       | (k, v) :: r =>
           if String.eqb k name
           then (if seen then go r true else (k, value) :: go r true)
           else (k, v) :: go r seen
       end) p false
  else (p ++ [(name, value)])%list.

Definition params_append (p : URLSearchParams) (name value : string) : URLSearchParams :=
  (p ++ [(name, value)])%list.

(** [String(params)] *)
Definition params_toString (p : URLSearchParams) : string :=
  join "&" (map (fun kv => form_encode (fst kv) ++ "=" ++ form_encode (snd kv)) p).

(* --------------------------------------------------------------------- *)
(** *** parseInt *)

(** A number that may be [NaN]. *)
Inductive number : Type :=
| NaN
| Num (z : Z).

(** White space of one byte: TAB, LF, VT, FF, CR and the space. *)
Definition is_space (c : ascii) : bool :=
  let n := code c in
  (n =? 32) || ((9 <=? n) && (n <=? 13)).

(** The other white space and line terminators of the language, by their
    UTF-8 bytes: U+00A0, U+1680, U+2000 to U+200A, U+2028, U+2029, U+202F,
    U+205F, U+3000 and U+FEFF. *)
Definition wide_space (s : string) : option string :=
  match s with
  | String a (String b r) =>
      if (code a =? 194) && (code b =? 160) then Some r
      else
        match r with
        | String c r' =>
            let x := code a in
            let y := code b in
            let z := code c in
            if ((x =? 225) && (y =? 154) && (z =? 128))
               || ((x =? 226) && (y =? 128)
                   && (((128 <=? z) && (z <=? 138)) || (z =? 168) || (z =? 169)
                       || (z =? 175)))
               || ((x =? 226) && (y =? 129) && (z =? 159))
               || ((x =? 227) && (y =? 128) && (z =? 128))
               || ((x =? 239) && (y =? 187) && (z =? 191))
            then Some r' else None
        | EmptyString => None
        end
  | _ => None
  end.

Fixpoint skip_space_fuel (fuel : nat) (s : string) : string :=
  match fuel with
  | O => s
  | S fuel' =>
      match s with
      | String c r =>
          if is_space c then skip_space_fuel fuel' r
          else
            match wide_space s with
            | Some r' => skip_space_fuel fuel' r'
            | None => s
            end
      | EmptyString => s
      end
  end.

Definition skip_space (s : string) : string := skip_space_fuel (String.length s) s.

Fixpoint leading_digits (s : string) (acc : option Z) : option Z :=
  match s with
  | String c r =>
      if is_digit c
      then leading_digits r (Some (10 * match acc with Some a => a | None => 0 end
                                   + digit_value c))
      else acc
  | EmptyString => acc
  end.

(** [parseInt(s, 10)]: leading white space, an optional sign, then the
    longest run of decimal digits; [NaN] when there is no digit. *)
Definition parseInt10 (s : string) : number :=
  let s1 := skip_space s in
  let '(neg, s2) :=
    match s1 with
    | String "-" r => (true, r)
    | String "+" r => (false, r)
    | _ => (false, s1)
    end in
  match leading_digits s2 None with
  | Some n => Num (if neg then - n else n)
  | None => NaN
  end.

(* --------------------------------------------------------------------- *)
(** *** JSON.parse *)

Definition is_json_ws (c : ascii) : bool :=
  let n := code c in
  (n =? 32) || (n =? 9) || (n =? 10) || (n =? 13).

Fixpoint skip_ws (l : list ascii) : list ascii :=
  match l with
  | c :: r => if is_json_ws c then skip_ws r else l
  | [] => []
  end.

Definition hex_value (c : ascii) : option Z :=
  let n := code c in
  if is_digit c then Some (n - 48)
  else if (65 <=? n) && (n <=? 70) then Some (n - 55)
  else if (97 <=? n) && (n <=? 102) then Some (n - 87)
  else None.

Definition hex4 (a b c d : ascii) : option Z :=
  match hex_value a, hex_value b, hex_value c, hex_value d with
  | Some x, Some y, Some z, Some w => Some (((x * 16 + y) * 16 + z) * 16 + w)
  | _, _, _, _ => None
  end.

(** The UTF-8 bytes of a code point. *)
Definition utf8 (n : Z) : list ascii :=
  if n <? 128 then [chr n]
  else if n <? 2048 then [chr (192 + n / 64); chr (128 + n mod 64)]
  else if n <? 65536 then
    [chr (224 + n / 4096); chr (128 + (n / 64) mod 64); chr (128 + n mod 64)]
  else
    [chr (240 + n / 262144); chr (128 + (n / 4096) mod 64);
     chr (128 + (n / 64) mod 64); chr (128 + n mod 64)].

Definition simple_escape (c : ascii) : option ascii :=
  let n := code c in
  if (n =? 34) || (n =? 92) || (n =? 47) then Some c
  else if n =? 98 then Some (chr 8)
  else if n =? 102 then Some (chr 12)
  else if n =? 110 then Some (chr 10)
  else if n =? 114 then Some (chr 13)
  else if n =? 116 then Some (chr 9)
  else None.

Definition low_surrogate (l : list ascii) : option (Z * list ascii) :=
  match l with
  | bs :: u :: a :: b :: c :: d :: r =>
      if (code bs =? 92) && (code u =? 117) then
        match hex4 a b c d with
        | Some n => if (56320 <=? n) && (n <=? 57343) then Some (n, r) else None
        | None => None
        end
      else None
  | _ => None
  end.

(** The characters of a string literal after its opening quote, up to the
    closing one. *)
Fixpoint parse_chars (fuel : nat) (l : list ascii) : option (list ascii * list ascii) :=
  match fuel with
  | O => None
  | S fuel' =>
      let continue (bytes : list ascii) (rest : list ascii) :=
        match parse_chars fuel' rest with
        | Some (s, r) => Some ((bytes ++ s)%list, r)
        | None => None
        end in
      match l with
      | [] => None
      | c :: r =>
          if code c =? 34 then Some ([], r)
          else if code c <? 32 then None
          else if code c =? 92 then
            match r with
            | [] => None
            | e :: r1 =>
                if code e =? 117 then
                  match r1 with
                  | a :: b :: x :: d :: r2 =>
                      match hex4 a b x d with
                      | None => None
                      | Some hi =>
                          if (55296 <=? hi) && (hi <=? 56319) then
                            match low_surrogate r2 with
                            | Some (lo, r3) =>
                                continue (utf8 (65536 + (hi - 55296) * 1024 + (lo - 56320))) r3
                            | None => continue (utf8 hi) r2
                            end
                          else continue (utf8 hi) r2
                      end
                  | _ => None
                  end
                else
                  match simple_escape e with
                  | Some x => continue [x] r1
                  | None => None
                  end
            end
          else continue [c] r
      end
  end.

Fixpoint take_digits (l : list ascii) (acc count : Z) : Z * Z * list ascii :=
  match l with
  | c :: r =>
      if is_digit c then take_digits r (10 * acc + digit_value c) (count + 1)
      else (acc, count, l)
  | [] => (acc, count, [])
  end.

Definition parse_exponent (l : list ascii) : option (Z * list ascii) :=
  match l with
  | c :: r =>
      if (code c =? 101) || (code c =? 69) then
        let '(neg, r1) :=
          match r with
          | s :: r' =>
              if code s =? 45 then (true, r')
              else if code s =? 43 then (false, r')
              else (false, r)
          | [] => (false, r)
          end in
        let '(v, n, rest) := take_digits r1 0 0 in
        if n =? 0 then None else Some (if neg then - v else v, rest)
      else Some (0, l)
  | [] => Some (0, l)
  end.

Definition parse_number (l : list ascii) : option (JsValue * list ascii) :=
  let '(neg, l1) :=
    match l with
    | c :: r => if code c =? 45 then (true, r) else (false, l)
    | [] => (false, l)
    end in
  match l1 with
  | c :: r =>
      if is_digit c then
        let '(ip, l2) :=
          if code c =? 48 then (0, r)
          else let '(v, _, rest) := take_digits l1 0 0 in (v, rest) in
        let frac :=
          match l2 with
          | dot :: r2 =>
              if code dot =? 46 then
                let '(v, n, rest) := take_digits r2 ip 0 in
                if n =? 0 then None else Some (v, n, rest)
              else Some (ip, 0, l2)
          | [] => Some (ip, 0, l2)
          end in
        match frac with
        | None => None
        | Some (m, fd, l3) =>
            match parse_exponent l3 with
            | Some (ex, rest) => Some (JNum (if neg then - m else m) (ex - fd), rest)
            | None => None
            end
        end
      else None
  | [] => None
  end.

Fixpoint starts_with (prefix l : list ascii) : option (list ascii) :=
  match prefix, l with
  | [], _ => Some l
  | p :: ps, c :: r => if Ascii.eqb p c then starts_with ps r else None
  | _ :: _, [] => None
  end.

Fixpoint parse_value (fuel : nat) (l : list ascii) : option (JsValue * list ascii) :=
  match fuel with
  | O => None
  | S fuel' =>
      match skip_ws l with
      | [] => None
      | c :: r =>
          if code c =? 123 then
            match skip_ws r with
            | c' :: r' =>
                if code c' =? 125 then Some (JObj [], r')
                else parse_members fuel' [] r
            | [] => None
            end
          else if code c =? 91 then
            match skip_ws r with
            | c' :: r' =>
                if code c' =? 93 then Some (JArr [], r')
                else parse_elements fuel' [] r
            | [] => None
            end
          else if code c =? 34 then
            match parse_chars (length r) r with
            | Some (s, rest) => Some (JStr (string_of_list_ascii s), rest)
            | None => None
            end
          else
            match starts_with (list_ascii_of_string "true") (c :: r),
                  starts_with (list_ascii_of_string "false") (c :: r),
                  starts_with (list_ascii_of_string "null") (c :: r) with
            | Some rest, _, _ => Some (JBool true, rest)
            | _, Some rest, _ => Some (JBool false, rest)
            | _, _, Some rest => Some (JNull, rest)
            | None, None, None => parse_number (c :: r)
            end
      end
  end
with parse_members (fuel : nat) (acc : JsObject) (l : list ascii)
  : option (JsValue * list ascii) :=
  match fuel with
  | O => None
  | S fuel' =>
      match skip_ws l with
      | q :: r =>
          if code q =? 34 then
            match parse_chars (length r) r with
            | Some (k, r1) =>
                match skip_ws r1 with
                | colon :: r2 =>
                    if code colon =? 58 then
                      match parse_value fuel' r2 with
                      | Some (v, r3) =>
                          let acc' := obj_set acc (string_of_list_ascii k) v in
                          match skip_ws r3 with
                          | sep :: r4 =>
                              if code sep =? 44 then parse_members fuel' acc' r4
                              else if code sep =? 125 then Some (JObj acc', r4)
                              else None
                          | [] => None
                          end
                      | None => None
                      end
                    else None
                | [] => None
                end
            | None => None
            end
          else None
      | [] => None
      end
  end
with parse_elements (fuel : nat) (acc : list JsValue) (l : list ascii)
  : option (JsValue * list ascii) :=
  match fuel with
  | O => None
  | S fuel' =>
      match parse_value fuel' l with
      | Some (v, r) =>
          match skip_ws r with
          | sep :: r' =>
              if code sep =? 44 then parse_elements fuel' (acc ++ [v])%list r'
              else if code sep =? 93 then Some (JArr (acc ++ [v])%list, r')
              else None
          | [] => None
          end
      | None => None
      end
  end.

(** [JSON.parse(text)]; [None] when it throws a [SyntaxError].  The fuel
    is enough for any text: see [JsonFuel.JSON_parse_fuel]. *)
Definition JSON_parse (text : string) : option JsValue :=
  let l := list_ascii_of_string text in
  match parse_value (2 * length l + 2) l with
  | Some (v, rest) =>
      match skip_ws rest with
      | [] => Some v
      | _ :: _ => None
      end
  | None => None
  end.

End Js.

(** JSON texts are written with ['] where JSON has the double quote. *)
Fixpoint dq (s : string) : string :=
  match s with
  | EmptyString => EmptyString
  | String c r => String (if Ascii.eqb c "'" then "034"%char else c) (dq r)
  end.

(* ===================================================================== *)
(** ** HTTP, errors and the asynchronous machine *)
(* ===================================================================== *)

(** A header list, as a plain object of strings. *)
Definition HeaderList : Type := list (string * string).

Fixpoint header_set (h : HeaderList) (name value : string) : HeaderList :=
  match h with
  | [] => [(name, value)]
  | (k, v) :: r =>
      if String.eqb k name then (k, value) :: r else (k, v) :: header_set r name value
  end.

Fixpoint own_header (h : HeaderList) (name : string) : option string :=
  match h with
  | [] => None
  | (k, v) :: r => if String.eqb k name then Some v else own_header r name
  end.

(** [{...a, ...b}] on header objects. *)
Definition header_spread (a b : HeaderList) : HeaderList :=
  fold_left (fun acc kv => header_set acc (fst kv) (snd kv)) b a.

(** The second argument of [fetch].  Its [headers] are a plain object of
    strings, which is what the spread of [request] copies key by key; a
    [Headers] instance or a list of pairs, which that spread does not copy,
    is not represented (no caller in the sources passes headers). *)
Record RequestInit : Type := {
  method : option string;
  body : option string;
  headers : option HeaderList
}.

(** [options: RequestInit = {}] *)
Definition no_options : RequestInit :=
  {| method := None; body := None; headers := None |}.

(** A call of [fetch], as recorded. *)
Record Request : Type := {
  req_url : string;
  req_method : option string;
  req_headers : HeaderList;
  req_body : option string
}.

Record Response : Type := {
  status : Z;
  statusText : string;
  resp_headers : HeaderList;
  resp_body : string
}.

(** [response.ok] *)
Definition ok (status : Z) : bool := (200 <=? status) && (status <=? 299).

Definition lower_char (c : ascii) : ascii :=
  if (65 <=? Js.code c) && (Js.code c <=? 90) then Js.chr (Js.code c + 32) else c.

Fixpoint lower (s : string) : string :=
  match s with
  | EmptyString => EmptyString
  | String c r => String (lower_char c) (lower r)
  end.

(** [response.headers.get(name)]: names compare without case, several
    values of one name are joined, [None] is [null]. *)
Definition headers_get (h : HeaderList) (name : string) : option string :=
  match filter (fun kv => String.eqb (lower (fst kv)) (lower name)) h with
  | [] => None
  | l => Some (Js.join ", " (map snd l))
  end.

(** types/crowdstrike.ts *)
Record OAuth2TokenResponse : Type := {
  access_token : string;
  token_type : string;
  expires_in : Z
}.

(** The reply of the token endpoint.  [token_json] is what
    [(await response.json()) as OAuth2TokenResponse] gives: the reply is
    taken at its declared type, [None] when the body is not JSON. *)
Record TokenReply : Type := {
  token_status : Z;
  token_statusText : string;
  token_json : option OAuth2TokenResponse
}.

(** Thrown values.  The three classes of utils/errors.ts are constructed as
    client.ts constructs them; [TypeError] and [SyntaxError] are the
    engine's (a property read on [undefined], a failed [fetch], a body that
    is not JSON). *)
Inductive Error : Type :=
| AuthenticationError (message : string)
| RateLimitError (message : string) (retryAfter : Js.number)
| CrowdStrikeApiError (message : Js.JsValue) (status : Z)
| TypeError
| SyntaxError.

(** Modelled from the spec: utils/errors.ts is not among the sources.  The
    design document says of RateLimitError that "this error is marked
    retryable" and says of no other error that it is. *)
Definition retryable (e : Error) : bool :=
  match e with
  | RateLimitError _ _ => true
  | _ => false
  end.

(** types/env.ts *)
Record TenantCredentials : Type := {
  clientId : string;
  clientSecret : string;
  cred_baseUrl : option string
}.

(** The fields of [CrowdStrikeClientImpl]. *)
Record Client : Type := {
  credentials : TenantCredentials;
  baseUrl : string;
  accessToken : option string;
  tokenExpiry : Z
}.

Definition DEFAULT_BASE_URL : string := "https://api.crowdstrike.com".

(** [new CrowdStrikeClientImpl(credentials)] *)
Definition createCrowdStrikeClient (creds : TenantCredentials) : Client :=
  {| credentials := creds;
     baseUrl := match cred_baseUrl creds with
                | Some u => if Js.truthy_string u then u else DEFAULT_BASE_URL
                | None => DEFAULT_BASE_URL
                end;
     accessToken := None;
     tokenExpiry := 0 |}.

(** What the client runs against: the successive readings of the clock and
    the reply to the [n]-th call of [fetch] ([None]: the call fails). *)
Record World : Type := {
  clock : nat -> Z;
  tokenEndpoint : nat -> Request -> option TokenReply;
  api : nat -> Request -> option Response
}.

Record Machine : Type := {
  client : Client;
  clockReads : nat;
  sent : list Request
}.

Inductive Outcome (A : Type) : Type :=
| Resolved (a : A)
| Rejected (e : Error).
Arguments Resolved {A} a.
Arguments Rejected {A} e.

(** An [async] computation ([Promise<A>]). *)
Definition Async (A : Type) : Type := World -> Machine -> Outcome A * Machine.

Definition ret {A : Type} (a : A) : Async A := fun _ st => (Resolved a, st).

Definition throw {A : Type} (e : Error) : Async A := fun _ st => (Rejected e, st).

Definition bind {A B : Type} (m : Async A) (k : A -> Async B) : Async B :=
  fun w st =>
    match m w st with
    | (Resolved a, st') => k a w st'
    | (Rejected e, st') => (Rejected e, st')
    end.

(** [try { m } catch (error) { handler }] *)
Definition try_catch {A : Type} (m : Async A) (handler : Error -> Async A) : Async A :=
  fun w st =>
    match m w st with
    | (Resolved a, st') => (Resolved a, st')
    | (Rejected e, st') => handler e w st'
    end.

Declare Scope async_scope.
Delimit Scope async_scope with async.
Notation "x <- m ;; k" := (bind m (fun x => k))
  (at level 100, m at next level, right associativity) : async_scope.
Notation "m ;;; k" := (bind m (fun _ => k))
  (at level 100, right associativity) : async_scope.
Open Scope async_scope.

(** [this] *)
Definition this : Async Client := fun _ st => (Resolved (client st), st).

Definition set_client (c : Client) : Async unit :=
  fun _ st =>
    (Resolved tt, {| client := c; clockReads := clockReads st; sent := sent st |}).

(** [this.accessToken = v] *)
Definition set_accessToken (v : option string) : Async unit :=
  c <- this ;;
  set_client {| credentials := credentials c; baseUrl := baseUrl c;
                accessToken := v; tokenExpiry := tokenExpiry c |}.

(** [this.tokenExpiry = v] *)
Definition set_tokenExpiry (v : Z) : Async unit :=
  c <- this ;;
  set_client {| credentials := credentials c; baseUrl := baseUrl c;
                accessToken := accessToken c; tokenExpiry := v |}.

(** [Date.now()] *)
Definition Date_now : Async Z :=
  fun w st =>
    (Resolved (clock w (clockReads st)),
     {| client := client st; clockReads := S (clockReads st); sent := sent st |}).

Definition record_call (st : Machine) (r : Request) : Machine :=
  {| client := client st; clockReads := clockReads st; sent := (sent st ++ [r])%list |}.

Definition mkRequest (url : string) (init : RequestInit) : Request :=
  {| req_url := url;
     req_method := method init;
     req_headers := match headers init with Some h => h | None => [] end;
     req_body := body init |}.

(** [await fetch(url, init)] against the API. *)
Definition fetch (url : string) (init : RequestInit) : Async Response :=
  fun w st =>
    let r := mkRequest url init in
    match api w (length (sent st)) r with
    | Some response => (Resolved response, record_call st r)
    | None => (Rejected TypeError, record_call st r)
    end.

(** [await fetch(url, init)] against the token endpoint. *)
Definition fetch_token (url : string) (init : RequestInit) : Async TokenReply :=
  fun w st =>
    let r := mkRequest url init in
    match tokenEndpoint w (length (sent st)) r with
    | Some response => (Resolved response, record_call st r)
    | None => (Rejected TypeError, record_call st r)
    end.

Definition lift {A : Type} (c : Js.Completion A) : Async A :=
  match c with
  | Js.Normal a => ret a
  | Js.ThrowTypeError => throw TypeError
  end.

(* ===================================================================== *)
(** ** client.ts: [CrowdStrikeClientImpl] *)
(* ===================================================================== *)

Record QueryParams : Type := {
  filter : option string;
  limit : option Z;
  offset : option Z;
  sort : option string;
  after : option string
}.

(** The acknowledgement of a mutation. *)
Record Ack : Type := {
  success : bool;
  ack_message : string
}.

Record Connection : Type := {
  connected : bool;
  conn_message : string
}.

(* --------------------------------------------------------------------- *)
(** *** OAuth2 authentication *)

Definition token_request_init (c : Client) : RequestInit :=
  {| method := Some "POST";
     headers := Some [("Content-Type", "application/x-www-form-urlencoded")];
     body := Some ("client_id=" ++ Js.encodeURIComponent (clientId (credentials c))
                   ++ "&client_secret="
                   ++ Js.encodeURIComponent (clientSecret (credentials c))) |}.

(** The body of [getAccessToken] after the cache test: the exchange. *)
Definition exchange : Async string :=
  c <- this ;;
  response <- fetch_token (baseUrl c ++ "/oauth2/token") (token_request_init c) ;;
  if negb (ok (token_status response)) then
    throw (AuthenticationError
             ("OAuth2 authentication failed: "
              ++ Js.string_of_Z (token_status response) ++ " "
              ++ token_statusText response))
  else
    match token_json response with
    | None => throw SyntaxError
    | Some data =>
        set_accessToken (Some (access_token data)) ;;;
        now <- Date_now ;;
        set_tokenExpiry (now + expires_in data * 1000) ;;;
        ret (access_token data)
    end.

(** [if (this.accessToken && Date.now() < this.tokenExpiry - 60000)]: the
    clock is read only when the token is truthy. *)
Definition getAccessToken : Async string :=
  c <- this ;;
  match accessToken c with
  | Some token =>
      if Js.truthy_string token then
        now <- Date_now ;;
        if now <? tokenExpiry c - 60000 then ret token else exchange
      else exchange
  | None => exchange
  end.

Definition auth_headers (token : string) : HeaderList :=
  [("Authorization", "Bearer " ++ token);
   ("Content-Type", "application/json")].

Definition getAuthHeaders : Async HeaderList :=
  token <- getAccessToken ;;
  ret (auth_headers token).

(* --------------------------------------------------------------------- *)
(** *** HTTP request helper *)

(** [(e) => e.message] over the items of an array. *)
Fixpoint messages_of (items : list Js.JsValue) : Js.Completion (list Js.JsValue) :=
  match items with
  | [] => Js.Normal []
  | e :: r =>
      match Js.get e "message", messages_of r with
      | Js.Normal m, Js.Normal ms => Js.Normal (m :: ms)
      | _, _ => Js.ThrowTypeError
      end
  end.

(** [errorJson.errors.map((e) => e.message)]: only an array has [map]. *)
Definition map_message (errors : Js.JsValue) : Js.Completion (list Js.JsValue) :=
  match errors with
  | Js.JArr items => messages_of items
  | _ => Js.ThrowTypeError
  end.

(** The body of the [try] block that computes the message of an error
    response. *)
Definition parsed_message (errorJson : Js.JsValue) (message : Js.JsValue)
  : Js.Completion Js.JsValue :=
  match Js.get errorJson "errors" with
  | Js.ThrowTypeError => Js.ThrowTypeError
  | Js.Normal errors =>
      match Js.get_optional errors "length" with
      | Js.ThrowTypeError => Js.ThrowTypeError
      | Js.Normal len =>
          if Js.truthy len then
            match map_message errors with
            | Js.ThrowTypeError => Js.ThrowTypeError
            | Js.Normal messages =>
                match Js.array_join messages "; " with
                | Js.ThrowTypeError => Js.ThrowTypeError
                | Js.Normal s => Js.Normal (Js.JStr s)
                end
            end
          else
            match Js.get errorJson "message" with
            | Js.ThrowTypeError => Js.ThrowTypeError
            | Js.Normal m => if Js.truthy m then Js.Normal m else Js.Normal message
            end
      end
  end.

(** The message of [CrowdStrikeApiError]: the default, replaced inside
    [try { ... } catch { }]. *)
Definition error_message (status : Z) (errorBody : string) : Js.JsValue :=
  let message := Js.JStr ("API error: " ++ Js.string_of_Z status) in
  match Js.JSON_parse errorBody with
  | None => message
  | Some errorJson =>
      match parsed_message errorJson message with
      | Js.Normal m => m
      | Js.ThrowTypeError => message
      end
  end.

(** [retryAfter ? parseInt(retryAfter, 10) : 60] *)
Definition retry_after (retryAfter : option string) : Js.number :=
  match retryAfter with
  | Some s => if Js.truthy_string s then Js.parseInt10 s else Js.Num 60
  | None => Js.Num 60
  end.

(** The part of [request] after [fetch] has answered. *)
Definition handle_response (response : Response) : Async Js.JsValue :=
  if status response =? 429 then
    throw (RateLimitError "Rate limit exceeded"
             (retry_after (headers_get (resp_headers response) "X-RateLimit-RetryAfter")))
  else if (status response =? 401) || (status response =? 403) then
    set_accessToken None ;;;
    throw (AuthenticationError "Authentication failed. Check your API credentials.")
  else if negb (ok (status response)) then
    throw (CrowdStrikeApiError (error_message (status response) (resp_body response))
             (status response))
  else if status response =? 204 then ret Js.JUndefined
  else
    match Js.JSON_parse (resp_body response) with
    | Some v => ret v
    | None => throw SyntaxError
    end.

Definition request_init (auth : HeaderList) (options : RequestInit) : RequestInit :=
  {| method := method options;
     body := body options;
     headers := Some (header_spread auth
                        match headers options with
                        | Some h => h
                        | None => []
                        end) |}.

Definition request (endpoint : string) (options : RequestInit) : Async Js.JsValue :=
  c <- this ;;
  let url := baseUrl c ++ endpoint in
  auth <- getAuthHeaders ;;
  response <- fetch url (request_init auth options) ;;
  handle_response response.

(** [response.resources || []] *)
Definition resources_or_empty (response : Js.JsValue) : Async Js.JsValue :=
  r <- lift (Js.get response "resources") ;;
  ret (Js.or_else r (Js.JArr [])).

(** [response.resources[0]] *)
Definition first_resource (response : Js.JsValue) : Async Js.JsValue :=
  r <- lift (Js.get response "resources") ;;
  lift (Js.get r "0").

Definition post (fields : Js.JsObject) : RequestInit :=
  {| method := Some "POST"; body := Some (Js.JSON_stringify fields); headers := None |}.

Definition patch (fields : Js.JsObject) : RequestInit :=
  {| method := Some "PATCH"; body := Some (Js.JSON_stringify fields); headers := None |}.

Definition delete : RequestInit :=
  {| method := Some "DELETE"; body := None; headers := None |}.

(** [if (params?.name) queryParams.set(name, params.name)] for a string. *)
Definition set_string (p : Js.URLSearchParams) (name : string) (v : option string)
  : Js.URLSearchParams :=
  match v with
  | Some s => if Js.truthy_string s then Js.params_set p name s else p
  | None => p
  end.

(** [if (params?.name) queryParams.set(name, String(params.name))] *)
Definition set_number (p : Js.URLSearchParams) (name : string) (v : option Z)
  : Js.URLSearchParams :=
  match v with
  | Some n => if n =? 0 then p else Js.params_set p name (Js.string_of_Z n)
  | None => p
  end.

Definition field {A : Type} (params : option QueryParams)
  (f : QueryParams -> option A) : option A :=
  match params with
  | Some q => f q
  | None => None
  end.

(** The query string of the offset-paged queries. *)
Definition offset_query (params : option QueryParams) : Js.URLSearchParams :=
  let q := set_string [] "filter" (field params filter) in
  let q := set_number q "limit" (field params limit) in
  let q := set_number q "offset" (field params offset) in
  set_string q "sort" (field params sort).

(** [ids.forEach((id) => queryParams.append('ids', id))] *)
Definition ids_query (ids : list string) : Js.URLSearchParams :=
  fold_left (fun q id => Js.params_append q "ids" id) ids [].

Definition query (path : string) (q : Js.URLSearchParams) : Async Js.JsValue :=
  response <- request (path ++ "?" ++ Js.params_toString q) no_options ;;
  resources_or_empty response.

(* --------------------------------------------------------------------- *)
(** *** Connection *)

(** [error instanceof Error ? error.message : 'Connection failed']: every
    thrown value here is an [Error].  The text of an engine error is the
    engine's own; the model writes the name of its class. *)
Definition message_of (e : Error) : string :=
  match e with
  | AuthenticationError m => m
  | RateLimitError m _ => m
  | CrowdStrikeApiError m _ =>
      match Js.toString m with
      | Js.Normal s => s
      | Js.ThrowTypeError => "TypeError"
      end
  | TypeError => "TypeError"
  | SyntaxError => "SyntaxError"
  end.

Definition testConnection : Async Connection :=
  try_catch
    (getAccessToken ;;;
     request "/devices/queries/devices/v1?limit=1" no_options ;;;
     ret {| connected := true;
            conn_message := "Successfully connected to CrowdStrike Falcon API" |})
    (fun error => ret {| connected := false; conn_message := message_of error |}).

(* --------------------------------------------------------------------- *)
(** *** Hosts *)

Definition ids_body (ids : list string) : Js.JsObject := [("ids", Js.strings ids)].

Definition count (ids : list string) : string := Js.string_of_nat (length ids).

Definition queryHosts (params : option QueryParams) : Async Js.JsValue :=
  query "/devices/queries/devices/v1" (offset_query params).

Definition getHosts (ids : list string) : Async Js.JsValue :=
  if (length ids =? 0)%nat then ret (Js.JArr []) else
  response <- request "/devices/entities/devices/v2" (post (ids_body ids)) ;;
  resources_or_empty response.

Definition containHost (ids : list string) : Async Ack :=
  request "/devices/entities/devices-actions/v2?action_name=contain"
          (post (ids_body ids)) ;;;
  ret {| success := true;
         ack_message := "Containment initiated for " ++ count ids ++ " host(s)" |}.

Definition liftContainment (ids : list string) : Async Ack :=
  request "/devices/entities/devices-actions/v2?action_name=lift_containment"
          (post (ids_body ids)) ;;;
  ret {| success := true;
         ack_message := "Containment lifted for " ++ count ids ++ " host(s)" |}.

Definition hideHost (ids : list string) : Async Ack :=
  request "/devices/entities/devices-actions/v2?action_name=hide_host"
          (post (ids_body ids)) ;;;
  ret {| success := true; ack_message := "Hidden " ++ count ids ++ " host(s)" |}.

Definition unhideHost (ids : list string) : Async Ack :=
  request "/devices/entities/devices-actions/v2?action_name=unhide_host"
          (post (ids_body ids)) ;;;
  ret {| success := true; ack_message := "Unhidden " ++ count ids ++ " host(s)" |}.

(* --------------------------------------------------------------------- *)
(** *** Detections *)

(** [if (v) body.name = v] *)
Definition set_if (fields : Js.JsObject) (name : string) (v : option string)
  : Js.JsObject :=
  match v with
  | Some s => if Js.truthy_string s then Js.obj_set fields name (Js.JStr s) else fields
  | None => fields
  end.

Definition queryDetections (params : option QueryParams) : Async Js.JsValue :=
  query "/detects/queries/detects/v1" (offset_query params).

Definition getDetections (ids : list string) : Async Js.JsValue :=
  if (length ids =? 0)%nat then ret (Js.JArr []) else
  response <- request "/detects/entities/summaries/GET/v1" (post (ids_body ids)) ;;
  resources_or_empty response.

Definition updateDetectionStatus (ids : list string) (status : string)
  (assignedToUuid comment : option string) : Async Ack :=
  let body := [("ids", Js.strings ids); ("status", Js.JStr status)] in
  let body := set_if body "assigned_to_uuid" assignedToUuid in
  let body := set_if body "comment" comment in
  request "/detects/entities/detects/v2" (patch body) ;;;
  ret {| success := true;
         ack_message := "Updated status to '" ++ status ++ "' for "
                        ++ count ids ++ " detection(s)" |}.

(* --------------------------------------------------------------------- *)
(** *** Incidents *)

Definition queryIncidents (params : option QueryParams) : Async Js.JsValue :=
  query "/incidents/queries/incidents/v1" (offset_query params).

Definition getIncidents (ids : list string) : Async Js.JsValue :=
  if (length ids =? 0)%nat then ret (Js.JArr []) else
  response <- request "/incidents/entities/incidents/GET/v1" (post (ids_body ids)) ;;
  resources_or_empty response.

(** [value || ''] *)
Definition or_empty (v : option string) : string :=
  match v with
  | Some s => s
  | None => ""
  end.

Definition updateIncident (ids : list string) (action : string)
  (value : option string) : Async Ack :=
  request "/incidents/entities/incident-actions/v1"
    (post [("ids", Js.strings ids);
           ("action_parameters",
            Js.JArr [Js.JObj [("name", Js.JStr action);
                              ("value", Js.JStr (or_empty value))]])]) ;;;
  ret {| success := true;
         ack_message := "Action '" ++ action ++ "' applied to "
                        ++ count ids ++ " incident(s)" |}.

Definition getBehaviors (ids : list string) : Async Js.JsValue :=
  if (length ids =? 0)%nat then ret (Js.JArr []) else
  response <- request "/incidents/entities/behaviors/GET/v1" (post (ids_body ids)) ;;
  resources_or_empty response.

(* --------------------------------------------------------------------- *)
(** *** Alerts *)

Definition queryAlerts (params : option QueryParams) : Async Js.JsValue :=
  query "/alerts/queries/alerts/v1" (offset_query params).

Definition getAlerts (ids : list string) : Async Js.JsValue :=
  if (length ids =? 0)%nat then ret (Js.JArr []) else
  response <- request "/alerts/entities/alerts/v1" (post (ids_body ids)) ;;
  resources_or_empty response.

Definition updateAlerts (ids : list string)
  (status assignedTo comment : option string) : Async Ack :=
  let body := [("ids", Js.strings ids)] in
  let body := set_if body "update_status" status in
  let body := set_if body "assign_to" assignedTo in
  let body := set_if body "add_comment" comment in
  request "/alerts/entities/alerts/v2" (patch body) ;;;
  ret {| success := true; ack_message := "Updated " ++ count ids ++ " alert(s)" |}.

(* --------------------------------------------------------------------- *)
(** *** IOCs *)

Definition queryIOCs (params : option QueryParams) : Async Js.JsValue :=
  query "/iocs/queries/indicators/v1"
        (set_string (offset_query params) "after" (field params after)).

Definition getIOCs (ids : list string) : Async Js.JsValue :=
  if (length ids =? 0)%nat then ret (Js.JArr []) else
  query "/iocs/entities/indicators/v1" (ids_query ids).

Definition createIOC (input : Js.JsObject) : Async Js.JsValue :=
  response <- request "/iocs/entities/indicators/v1"
                (post [("indicators", Js.JArr [Js.JObj input])]) ;;
  first_resource response.

Definition updateIOC (id : string) (input : Js.JsObject) : Async Js.JsValue :=
  response <- request "/iocs/entities/indicators/v1"
                (patch [("indicators",
                         Js.JArr [Js.JObj (Js.spread [("id", Js.JStr id)] input)])]) ;;
  first_resource response.

Definition deleteIOCs (ids : list string) : Async Ack :=
  request ("/iocs/entities/indicators/v1?" ++ Js.params_toString (ids_query ids))
          delete ;;;
  ret {| success := true; ack_message := "Deleted " ++ count ids ++ " IOC(s)" |}.

(* --------------------------------------------------------------------- *)
(** *** Spotlight vulnerabilities *)

Definition vulnerability_query (filter : string) (params : option QueryParams)
  : Js.URLSearchParams :=
  let q := Js.params_set [] "filter" filter in
  let q := set_number q "limit" (field params limit) in
  let q := set_string q "after" (field params after) in
  set_string q "sort" (field params sort).

Definition queryVulnerabilities (filter : string) (params : option QueryParams)
  : Async Js.JsValue :=
  query "/spotlight/queries/vulnerabilities/v1" (vulnerability_query filter params).

Definition getVulnerabilities (ids : list string) : Async Js.JsValue :=
  if (length ids =? 0)%nat then ret (Js.JArr []) else
  query "/spotlight/entities/vulnerabilities/v2" (ids_query ids).

(* --------------------------------------------------------------------- *)
(** *** Host groups *)

Definition queryHostGroups (params : option QueryParams) : Async Js.JsValue :=
  query "/devices/queries/host-groups/v1" (offset_query params).

Definition getHostGroups (ids : list string) : Async Js.JsValue :=
  if (length ids =? 0)%nat then ret (Js.JArr []) else
  query "/devices/entities/host-groups/v1" (ids_query ids).

Definition createHostGroup (input : Js.JsObject) : Async Js.JsValue :=
  response <- request "/devices/entities/host-groups/v1"
                (post [("resources", Js.JArr [Js.JObj input])]) ;;
  first_resource response.

Definition updateHostGroup (id : string) (input : Js.JsObject) : Async Js.JsValue :=
  response <- request "/devices/entities/host-groups/v1"
                (patch [("resources",
                         Js.JArr [Js.JObj (Js.spread [("id", Js.JStr id)] input)])]) ;;
  first_resource response.

Definition deleteHostGroups (ids : list string) : Async Ack :=
  request ("/devices/entities/host-groups/v1?" ++ Js.params_toString (ids_query ids))
          delete ;;;
  ret {| success := true; ack_message := "Deleted " ++ count ids ++ " host group(s)" |}.

(** [hostIds.map((id) => `device_id:'${id}'`).join(',')] *)
Definition device_filter (hostIds : list string) : string :=
  Js.join "," (map (fun id => "device_id:'" ++ id ++ "'") hostIds).

Definition group_action (groupId : string) (hostIds : list string) : RequestInit :=
  post [("ids", Js.strings [groupId]);
        ("action_parameters",
         Js.JArr [Js.JObj [("name", Js.JStr "filter");
                           ("value", Js.JStr (device_filter hostIds))]])].

Definition addHostsToGroup (groupId : string) (hostIds : list string) : Async Ack :=
  request "/devices/entities/host-group-actions/v1?action_name=add-hosts"
          (group_action groupId hostIds) ;;;
  ret {| success := true;
         ack_message := "Added " ++ count hostIds ++ " host(s) to group" |}.

Definition removeHostsFromGroup (groupId : string) (hostIds : list string)
  : Async Ack :=
  request "/devices/entities/host-group-actions/v1?action_name=remove-hosts"
          (group_action groupId hostIds) ;;;
  ret {| success := true;
         ack_message := "Removed " ++ count hostIds ++ " host(s) from group" |}.

(* --------------------------------------------------------------------- *)
(** *** Policies *)

Definition queryPreventionPolicies (params : option QueryParams) : Async Js.JsValue :=
  query "/policy/queries/prevention/v1" (offset_query params).

Definition getPreventionPolicies (ids : list string) : Async Js.JsValue :=
  if (length ids =? 0)%nat then ret (Js.JArr []) else
  query "/policy/entities/prevention/v1" (ids_query ids).

Definition queryDeviceControlPolicies (params : option QueryParams)
  : Async Js.JsValue :=
  query "/policy/queries/device-control/v1" (offset_query params).

Definition getDeviceControlPolicies (ids : list string) : Async Js.JsValue :=
  if (length ids =? 0)%nat then ret (Js.JArr []) else
  query "/policy/entities/device-control/v1" (ids_query ids).

Definition querySensorUpdatePolicies (params : option QueryParams)
  : Async Js.JsValue :=
  query "/policy/queries/sensor-update/v1" (offset_query params).

Definition getSensorUpdatePolicies (ids : list string) : Async Js.JsValue :=
  if (length ids =? 0)%nat then ret (Js.JArr []) else
  query "/policy/entities/sensor-update/v2" (ids_query ids).

(* --------------------------------------------------------------------- *)
(** *** Real-Time Response *)

Definition initRTRSession (deviceId : string) (queueOffline : bool)
  : Async Js.JsValue :=
  response <- request "/real-time-response/entities/sessions/v1"
                (post [("device_id", Js.JStr deviceId);
                       ("queue_offline", Js.JBool queueOffline)]) ;;
  first_resource response.

Definition command_body (sessionId baseCommand commandString : string) : Js.JsObject :=
  [("session_id", Js.JStr sessionId);
   ("base_command", Js.JStr baseCommand);
   ("command_string", Js.JStr commandString)].

Definition executeRTRCommand (sessionId baseCommand commandString : string)
  : Async Js.JsValue :=
  response <- request "/real-time-response/entities/command/v1"
                (post (command_body sessionId baseCommand commandString)) ;;
  first_resource response.

Definition executeRTRActiveResponderCommand
  (sessionId baseCommand commandString : string) : Async Js.JsValue :=
  response <- request "/real-time-response/entities/active-responder-command/v1"
                (post (command_body sessionId baseCommand commandString)) ;;
  first_resource response.

Definition deleteRTRSession (sessionId : string) : Async Ack :=
  request ("/real-time-response/entities/sessions/v1?session_id="
           ++ Js.encodeURIComponent sessionId) delete ;;;
  ret {| success := true; ack_message := "Session deleted" |}.

(* --------------------------------------------------------------------- *)
(** *** The interface [CrowdStrikeClient], operation by operation *)

(** The get-by-ids operation of each entity family. *)
Inductive Getter : Type :=
| Hosts | Detections | Incidents | Behaviors | Alerts | IOCs | Vulnerabilities
| HostGroups | PreventionPolicies | DeviceControlPolicies | SensorUpdatePolicies.

Definition get_by_ids (g : Getter) : list string -> Async Js.JsValue :=
  match g with
  | Hosts => getHosts
  | Detections => getDetections
  | Incidents => getIncidents
  | Behaviors => getBehaviors
  | Alerts => getAlerts
  | IOCs => getIOCs
  | Vulnerabilities => getVulnerabilities
  | HostGroups => getHostGroups
  | PreventionPolicies => getPreventionPolicies
  | DeviceControlPolicies => getDeviceControlPolicies
  | SensorUpdatePolicies => getSensorUpdatePolicies
  end.

(** The query operations whose filter is optional. *)
Inductive Family : Type :=
| FHosts | FDetections | FIncidents | FAlerts | FIOCs | FHostGroups
| FPreventionPolicies | FDeviceControlPolicies | FSensorUpdatePolicies.

Definition query_family (f : Family) : option QueryParams -> Async Js.JsValue :=
  match f with
  | FHosts => queryHosts
  | FDetections => queryDetections
  | FIncidents => queryIncidents
  | FAlerts => queryAlerts
  | FIOCs => queryIOCs
  | FHostGroups => queryHostGroups
  | FPreventionPolicies => queryPreventionPolicies
  | FDeviceControlPolicies => queryDeviceControlPolicies
  | FSensorUpdatePolicies => querySensorUpdatePolicies
  end.

(** The operations that answer with an acknowledgement. *)
Inductive Mutation : Type :=
| ContainHost (ids : list string)
| LiftContainment (ids : list string)
| HideHost (ids : list string)
| UnhideHost (ids : list string)
| UpdateDetectionStatus (ids : list string) (status : string)
    (assignedToUuid comment : option string)
| UpdateIncident (ids : list string) (action : string) (value : option string)
| UpdateAlerts (ids : list string) (status assignedTo comment : option string)
| DeleteIOCs (ids : list string)
| DeleteHostGroups (ids : list string)
| AddHostsToGroup (groupId : string) (hostIds : list string)
| RemoveHostsFromGroup (groupId : string) (hostIds : list string)
| DeleteRTRSession (sessionId : string).

Definition mutate (m : Mutation) : Async Ack :=
  match m with
  | ContainHost ids => containHost ids
  | LiftContainment ids => liftContainment ids
  | HideHost ids => hideHost ids
  | UnhideHost ids => unhideHost ids
  | UpdateDetectionStatus ids status assignedToUuid comment =>
      updateDetectionStatus ids status assignedToUuid comment
  | UpdateIncident ids action value => updateIncident ids action value
  | UpdateAlerts ids status assignedTo comment =>
      updateAlerts ids status assignedTo comment
  | DeleteIOCs ids => deleteIOCs ids
  | DeleteHostGroups ids => deleteHostGroups ids
  | AddHostsToGroup groupId hostIds => addHostsToGroup groupId hostIds
  | RemoveHostsFromGroup groupId hostIds => removeHostsFromGroup groupId hostIds
  | DeleteRTRSession sessionId => deleteRTRSession sessionId
  end.

(** The operations that answer with the first resource of the reply. *)
Inductive Single : Type :=
| CreateIOC (input : Js.JsObject)
| UpdateIOC (id : string) (input : Js.JsObject)
| CreateHostGroup (input : Js.JsObject)
| UpdateHostGroup (id : string) (input : Js.JsObject)
| InitRTRSession (deviceId : string) (queueOffline : bool)
| ExecuteRTRCommand (sessionId baseCommand commandString : string)
| ExecuteRTRActiveResponderCommand (sessionId baseCommand commandString : string).

Definition single (s : Single) : Async Js.JsValue :=
  match s with
  | CreateIOC input => createIOC input
  | UpdateIOC id input => updateIOC id input
  | CreateHostGroup input => createHostGroup input
  | UpdateHostGroup id input => updateHostGroup id input
  | InitRTRSession deviceId queueOffline => initRTRSession deviceId queueOffline
  | ExecuteRTRCommand sessionId baseCommand commandString =>
      executeRTRCommand sessionId baseCommand commandString
  | ExecuteRTRActiveResponderCommand sessionId baseCommand commandString =>
      executeRTRActiveResponderCommand sessionId baseCommand commandString
  end.

(** Every method of the interface. *)
Inductive Operation : Type :=
| TestConnection
| Query (f : Family) (params : option QueryParams)
| QueryVulnerabilities (filter : string) (params : option QueryParams)
| Get (g : Getter) (ids : list string)
| Mutate (m : Mutation)
| One (s : Single).

Inductive Result : Type :=
| Value (v : Js.JsValue)
| Acknowledged (a : Ack)
| Connected (c : Connection).

Definition perform (op : Operation) : Async Result :=
  match op with
  | TestConnection => c <- testConnection ;; ret (Connected c)
  | Query f params => v <- query_family f params ;; ret (Value v)
  | QueryVulnerabilities filter params =>
      v <- queryVulnerabilities filter params ;; ret (Value v)
  | Get g ids => v <- get_by_ids g ids ;; ret (Value v)
  | Mutate m => a <- mutate m ;; ret (Acknowledged a)
  | One s => v <- single s ;; ret (Value v)
  end.

(* ===================================================================== *)
(** ** tools/vulnerabilities.ts: [crowdstrike_query_vulnerabilities] *)
(* ===================================================================== *)

Record VulnerabilityQuery : Type := {
  arg_filter : string;
  arg_limit : Z;
  arg_after : option string;
  arg_sort : option string
}.

(** The integer a decimal stands for, if it is one. *)
Definition as_integer (m e : Z) : option Z :=
  if 0 <=? e then Some (m * 10 ^ e)
  else if m mod 10 ^ (- e) =? 0 then Some (m / 10 ^ (- e))
  else None.

(** [z.string().optional()] *)
Definition optional_string (args : Js.JsObject) (name : string)
  : option (option string) :=
  match Js.own args name with
  | None | Some Js.JUndefined => Some None
  | Some (Js.JStr s) => Some (Some s)
  | Some _ => None
  end.

(** The input schema of the tool, applied to the arguments of a call:
    [filter: z.string()], [limit: z.number().int().min(1).max(400).default(100)],
    [after] and [sort: z.string().optional()].  [None]: the arguments are
    refused. *)
Definition parse_arguments (args : Js.JsObject) : option VulnerabilityQuery :=
  match Js.own args "filter" with
  | Some (Js.JStr f) =>
      let lim :=
        match Js.own args "limit" with
        | None | Some Js.JUndefined => Some 100
        | Some (Js.JNum m e) =>
            match as_integer m e with
            | Some n => if (1 <=? n) && (n <=? 400) then Some n else None
            | None => None
            end
        | Some _ => None
        end in
      match lim, optional_string args "after", optional_string args "sort" with
      | Some n, Some a, Some s =>
          Some {| arg_filter := f; arg_limit := n; arg_after := a; arg_sort := s |}
      | _, _, _ => None
      end
  | _ => None
  end.

(** What a call of the tool comes to: refused by the schema before the
    handler runs, or the handler's [formatResponse(data)] or
    [formatError(error)]. *)
Inductive ToolResult : Type :=
| InvalidArguments
| Response_ (data : Js.JsValue)
| Error_ (error : Error).

Definition crowdstrike_query_vulnerabilities (args : Js.JsObject) : Async ToolResult :=
  match parse_arguments args with
  | None => ret InvalidArguments
  | Some a =>
      try_catch
        (ids <- queryVulnerabilities (arg_filter a)
                  (Some {| filter := None; limit := Some (arg_limit a);
                           offset := None; sort := arg_sort a;
                           after := arg_after a |}) ;;
         n <- lift (Js.get ids "length") ;;
         ret (Response_ (Js.JObj [("ids", ids); ("count", n)])))
        (fun error => ret (Error_ error))
  end.

(* ===================================================================== *)
(** ** Concrete tenants, worlds and replies *)
(* ===================================================================== *)

Definition tenant : TenantCredentials :=
  {| clientId := "a"; clientSecret := "b"; cred_baseUrl := None |}.

(** A machine whose client has just been constructed. *)
Definition boot (creds : TenantCredentials) : Machine :=
  {| client := createCrowdStrikeClient creds; clockReads := 0; sent := [] |}.

Definition token_reply (token : string) (seconds : Z) : TokenReply :=
  {| token_status := 200;
     token_statusText := "OK";
     token_json := Some {| access_token := token; token_type := "bearer";
                           expires_in := seconds |} |}.

Definition reply (code : Z) (h : HeaderList) (text : string) : Response :=
  {| status := code; statusText := ""; resp_headers := h; resp_body := text |}.

(** The world in which the clock stands at [now], the token endpoint always
    gives [t] and the API always gives [r]. *)
Definition steady (now : Z) (t : TokenReply) (r : Response) : World :=
  {| clock := fun _ => now;
     tokenEndpoint := fun _ _ => Some t;
     api := fun _ _ => Some r |}.

(** A machine whose client holds [token] until [expiry]. *)
Definition holding (token : option string) (expiry : Z) : Machine :=
  {| client := {| credentials := tenant; baseUrl := DEFAULT_BASE_URL;
                  accessToken := token; tokenExpiry := expiry |};
     clockReads := 0;
     sent := [] |}.

(* ===================================================================== *)
(** ** Vocabulary of the statements *)
(* ===================================================================== *)

(** The machine after one reading of the clock. *)
Definition tick (st : Machine) : Machine :=
  {| client := client st; clockReads := S (clockReads st); sent := sent st |}.

(** The call of the token endpoint a client makes. *)
Definition token_request (c : Client) : Request :=
  mkRequest (baseUrl c ++ "/oauth2/token") (token_request_init c).

(** The call of the API [request(endpoint, options)] makes with [token]. *)
Definition api_request (c : Client) (token endpoint : string) (options : RequestInit)
  : Request :=
  mkRequest (baseUrl c ++ endpoint) (request_init (auth_headers token) options).

(** The client after a successful exchange read at clock time [now]. *)
Definition with_token (c : Client) (data : OAuth2TokenResponse) (now : Z) : Client :=
  {| credentials := credentials c;
     baseUrl := baseUrl c;
     accessToken := Some (access_token data);
     tokenExpiry := now + expires_in data * 1000 |}.

(** The client after its token has been invalidated. *)
Definition without_token (c : Client) : Client :=
  {| credentials := credentials c;
     baseUrl := baseUrl c;
     accessToken := None;
     tokenExpiry := tokenExpiry c |}.

(** A computation that leaves the credentials and the base URL as they are,
    whatever the world does. *)
Definition keeps_credentials {A : Type} (m : Async A) : Prop :=
  forall w st,
    credentials (client (snd (m w st))) = credentials (client st)
    /\ baseUrl (client (snd (m w st))) = baseUrl (client st).

(** The text of an entry of the vendor's [errors] array: an object whose
    [message] is a string, or is missing. *)
Definition message_text (e : Js.JsValue) : option string :=
  match e with
  | Js.JObj fields =>
      match Js.own fields "message" with
      | Some (Js.JStr s) => Some s
      | None => Some ""
      | Some _ => None
      end
  | _ => None
  end.

Definition fallback_message (status : Z) : Js.JsValue :=
  Js.JStr ("API error: " ++ Js.string_of_Z status).

(** The message of a generic API error as the design document words it, to
    be compared with [error_message]: the joined messages when the body
    holds an [errors] array, else the top-level [message] when it holds one,
    else the fallback. *)
Definition documented_message (status : Z) (errorBody : string) : Js.JsValue :=
  match Js.JSON_parse errorBody with
  | Some (Js.JObj fields) =>
      match Js.own fields "errors" with
      | Some (Js.JArr errors) =>
          Js.JStr (Js.join "; "
                     (map (fun e => match message_text e with
                                    | Some s => s
                                    | None => ""
                                    end) errors))
      | _ =>
          match Js.own fields "message" with
          | Some m => m
          | None => fallback_message status
          end
      end
  | _ => fallback_message status
  end.

(** The body has no [errors] to report: the field is missing, [null] or an
    empty array. *)
Definition no_errors (fields : Js.JsObject) : Prop :=
  Js.own fields "errors" = None
  \/ Js.own fields "errors" = Some Js.JNull
  \/ Js.own fields "errors" = Some (Js.JArr []).

(** The retry-after value as the design document words it: the header
    parsed when it is present, 60 when it is absent. *)
Definition documented_retry_after (header : option string) : Js.number :=
  match header with
  | Some s => Js.parseInt10 s
  | None => Js.Num 60
  end.

(** With fuel [n] the parser has enough for texts of half that length:
    more fuel gives the same result, and what is left after a value is
    shorter than the text. *)
Definition fuel_stable (n : nat) : Prop :=
  (forall l, (2 * length l < n)%nat ->
     (forall m, (2 * length l < m)%nat -> Js.parse_value m l = Js.parse_value n l)
     /\ (forall v r, Js.parse_value n l = Some (v, r) -> (length r < length l)%nat))
  /\ (forall acc l, (2 * length l + 1 < n)%nat ->
     (forall m, (2 * length l + 1 < m)%nat ->
        Js.parse_members m acc l = Js.parse_members n acc l)
     /\ (forall v r, Js.parse_members n acc l = Some (v, r) -> (length r < length l)%nat))
  /\ (forall acc l, (2 * length l + 1 < n)%nat ->
     (forall m, (2 * length l + 1 < m)%nat ->
        Js.parse_elements m acc l = Js.parse_elements n acc l)
     /\ (forall v r, Js.parse_elements n acc l = Some (v, r) -> (length r < length l)%nat)).

(** The reply of a successful call whose envelope has no resources. *)
Definition empty_envelope : Response :=
  reply 200 [] (dq "{'meta':{'query_time':0.01,'trace_id':'t'},'resources':[],'errors':[]}").

(** What a mutation asks [request] for: the endpoint and the options. *)
Definition mutation_call (m : Mutation) : string * RequestInit :=
  match m with
  | ContainHost ids =>
      ("/devices/entities/devices-actions/v2?action_name=contain", post (ids_body ids))
  | LiftContainment ids =>
      ("/devices/entities/devices-actions/v2?action_name=lift_containment",
       post (ids_body ids))
  | HideHost ids =>
      ("/devices/entities/devices-actions/v2?action_name=hide_host", post (ids_body ids))
  | UnhideHost ids =>
      ("/devices/entities/devices-actions/v2?action_name=unhide_host",
       post (ids_body ids))
  | UpdateDetectionStatus ids status assignedToUuid comment =>
      ("/detects/entities/detects/v2",
       patch (set_if (set_if [("ids", Js.strings ids); ("status", Js.JStr status)]
                        "assigned_to_uuid" assignedToUuid) "comment" comment))
  | UpdateIncident ids action value =>
      ("/incidents/entities/incident-actions/v1",
       post [("ids", Js.strings ids);
             ("action_parameters",
              Js.JArr [Js.JObj [("name", Js.JStr action);
                                ("value", Js.JStr (or_empty value))]])])
  | UpdateAlerts ids status assignedTo comment =>
      ("/alerts/entities/alerts/v2",
       patch (set_if (set_if (set_if [("ids", Js.strings ids)]
                                "update_status" status) "assign_to" assignedTo)
                "add_comment" comment))
  | DeleteIOCs ids =>
      ("/iocs/entities/indicators/v1?" ++ Js.params_toString (ids_query ids), delete)
  | DeleteHostGroups ids =>
      ("/devices/entities/host-groups/v1?" ++ Js.params_toString (ids_query ids), delete)
  | AddHostsToGroup groupId hostIds =>
      ("/devices/entities/host-group-actions/v1?action_name=add-hosts",
       group_action groupId hostIds)
  | RemoveHostsFromGroup groupId hostIds =>
      ("/devices/entities/host-group-actions/v1?action_name=remove-hosts",
       group_action groupId hostIds)
  | DeleteRTRSession sessionId =>
      ("/real-time-response/entities/sessions/v1?session_id="
       ++ Js.encodeURIComponent sessionId, delete)
  end.

(** A client holding the empty string as its token, far from its expiry,
    and a world to run it in. *)
Definition holding_empty_token : Machine := holding (Some "") 1000000.

Definition quiet_world : World := steady 0 (token_reply "tok2" 300) empty_envelope.

(** A world whose API is rate limiting, with a retry header of no value. *)
Definition limiting_world : World :=
  steady 0 (token_reply "tok1" 300) (reply 429 [("X-RateLimit-RetryAfter", "")] "").

(** A world whose API is rate limiting and asks for 30 seconds. *)
Definition limiting_30_world : World :=
  steady 0 (token_reply "tok1" 300) (reply 429 [("x-ratelimit-retryafter", "30")] "").

(** A world whose API refuses the token. *)
Definition refusing_world : World :=
  steady 0 (token_reply "tok1" 300) (reply 401 [] "").

(** A world whose token endpoint refuses the credentials. *)
Definition locked_world : World :=
  steady 0 {| token_status := 401; token_statusText := "Unauthorized";
              token_json := None |} empty_envelope.

(** A world whose API fails with an empty [errors] array and a top-level
    message. *)
Definition failing_world : World :=
  steady 0 (token_reply "tok1" 300)
    (reply 500 [] (dq "{'errors':[],'message':'nope'}")).

(** A world whose API rejects a filter and a sort. *)
Definition rejecting_world : World :=
  steady 0 (token_reply "tok1" 300)
    (reply 400 []
       (dq "{'errors':[{'code':1,'message':'bad filter'},{'code':2,'message':'bad sort'}]}")).

(* ===================================================================== *)
(** ** types/env.ts: credentials and environment *)
(* ===================================================================== *)

(** [parseTenantCredentials(request)], on the headers of the request. *)
Definition parseTenantCredentials (h : HeaderList) : TenantCredentials :=
  {| clientId := or_empty (headers_get h "X-CrowdStrike-Client-ID");
     clientSecret := or_empty (headers_get h "X-CrowdStrike-Client-Secret");
     cred_baseUrl :=
       match headers_get h "X-CrowdStrike-Base-URL" with
       | Some u => if Js.truthy_string u then Some u else None
       | None => None
       end |}.

Definition missing_credentials : string :=
  "Missing credentials. Provide both X-CrowdStrike-Client-ID and X-CrowdStrike-Client-Secret headers.".

(** [validateCredentials(credentials)]: [Some message] when it throws
    [new Error(message)]. *)
Definition validateCredentials (creds : TenantCredentials) : option string :=
  if negb (Js.truthy_string (clientId creds))
     || negb (Js.truthy_string (clientSecret creds))
  then Some missing_credentials
  else None.

(** The variables of [Env]; its bindings are not strings. *)
Record Env : Type := {
  CHARACTER_LIMIT : string;
  DEFAULT_PAGE_SIZE : string;
  MAX_PAGE_SIZE : string
}.

(** [keyof Env] *)
Inductive EnvKey : Type :=
| Key_CHARACTER_LIMIT
| Key_DEFAULT_PAGE_SIZE
| Key_MAX_PAGE_SIZE
| Key_OAUTH_KV
| Key_MCP_SESSIONS
| Key_AI.

(** [env[key]] when [typeof value === 'string']. *)
Definition env_string (env : Env) (key : EnvKey) : option string :=
  match key with
  | Key_CHARACTER_LIMIT => Some (CHARACTER_LIMIT env)
  | Key_DEFAULT_PAGE_SIZE => Some (DEFAULT_PAGE_SIZE env)
  | Key_MAX_PAGE_SIZE => Some (MAX_PAGE_SIZE env)
  | Key_OAUTH_KV | Key_MCP_SESSIONS | Key_AI => None
  end.

Definition getEnvNumber (env : Env) (key : EnvKey) (defaultValue : Z) : Z :=
  match env_string env key with
  | Some value =>
      match Js.parseInt10 value with
      | Js.NaN => defaultValue
      | Js.Num parsed => parsed
      end
  | None => defaultValue
  end.

Definition getCharacterLimit (env : Env) : Z :=
  getEnvNumber env Key_CHARACTER_LIMIT 50000.

Definition getDefaultPageSize (env : Env) : Z :=
  getEnvNumber env Key_DEFAULT_PAGE_SIZE 100.

Definition getMaxPageSize (env : Env) : Z :=
  getEnvNumber env Key_MAX_PAGE_SIZE 5000.

(* ===================================================================== *)
(** ** index.ts: the Worker's [fetch] handler *)
(* ===================================================================== *)

(** What the handler reads of a request: the path of its URL, its method
    and its headers. *)
Record WorkerRequest : Type := {
  pathname : string;
  http_method : string;
  request_headers : HeaderList
}.

(** The answers of the handler.  [Mcp c] hands the request to the MCP
    handler of a server whose tools run on the client [c]. *)
Inductive WorkerResponse : Type :=
| Health
| Unauthorized (message : string)
| Mcp (c : Client)
| SseUnavailable
| ServerInfo.

(** The status of the answers the handler builds itself. *)
Definition worker_status (r : WorkerResponse) : option Z :=
  match r with
  | Health | ServerInfo => Some 200
  | Unauthorized _ => Some 401
  | SseUnavailable => Some 501
  | Mcp _ => None
  end.

Definition worker_fetch (request : WorkerRequest) : WorkerResponse :=
  if String.eqb (pathname request) "/health" then Health
  else if String.eqb (pathname request) "/mcp"
          && String.eqb (http_method request) "POST" then
    let creds := parseTenantCredentials (request_headers request) in
    match validateCredentials creds with
    | Some message => Unauthorized message
    | None => Mcp (createCrowdStrikeClient creds)
    end
  else if String.eqb (pathname request) "/sse" then SseUnavailable
  else ServerInfo.

(** [JSON.stringify(result)] reads these fields of a connection report. *)
Definition connection_value (c : Connection) : Js.JsValue :=
  Js.JObj [("connected", Js.JBool (connected c)); ("message", Js.JStr (conn_message c))].

(** The tool [crowdstrike_test_connection]. *)
Definition crowdstrike_test_connection : Async ToolResult :=
  try_catch
    (result <- testConnection ;; ret (Response_ (connection_value result)))
    (fun error => ret (Error_ error)).

(* ===================================================================== *)
(** ** The tools that take a list of identifiers *)
(* ===================================================================== *)

(** [z.array(z.string())]: every item is a string. *)
Fixpoint string_items (items : list Js.JsValue) : option (list string) :=
  match items with
  | [] => Some []
  | Js.JStr s :: r =>
      match string_items r with
      | Some l => Some (s :: l)
      | None => None
      end
  | _ :: _ => None
  end.

(** [ids: z.array(z.string()).min(lo).max(hi)] *)
Definition parse_ids (lo hi : nat) (args : Js.JsObject) : option (list string) :=
  match Js.own args "ids" with
  | Some (Js.JArr items) =>
      match string_items items with
      | Some ids =>
          if ((lo <=? length ids) && (length ids <=? hi))%nat then Some ids else None
      | None => None
      end
  | _ => None
  end.

(** The fields of an acknowledgement, as [formatResponse] receives them. *)
Definition ack_value (a : Ack) : Js.JsValue :=
  Js.JObj [("success", Js.JBool (success a)); ("message", Js.JStr (ack_message a))].

(** tools/vulnerabilities.ts: [crowdstrike_get_vulnerabilities]. *)
Definition crowdstrike_get_vulnerabilities (args : Js.JsObject) : Async ToolResult :=
  match parse_ids 1 400 args with
  | None => ret InvalidArguments
  | Some ids =>
      try_catch
        (vulnerabilities <- getVulnerabilities ids ;; ret (Response_ vulnerabilities))
        (fun error => ret (Error_ error))
  end.

(** tools/hosts.ts: [crowdstrike_contain_host]. *)
Definition crowdstrike_contain_host (args : Js.JsObject) : Async ToolResult :=
  match parse_ids 1 100 args with
  | None => ret InvalidArguments
  | Some ids =>
      try_catch
        (result <- containHost ids ;; ret (Response_ (ack_value result)))
        (fun error => ret (Error_ error))
  end.

(* ===================================================================== *)
(** ** Further vocabulary *)
(* ===================================================================== *)

(** A computation that adds at most [n] calls to those already sent, and
    removes none. *)
Definition sends_at_most {A : Type} (n : nat) (m : Async A) : Prop :=
  forall w st,
    exists more,
      sent (snd (m w st)) = (sent st ++ more)%list /\ (length more <= n)%nat.

(** The calls an operation may add: a token exchange and a call to the API;
    [testConnection] asks for the token twice. *)
Definition call_budget (op : Operation) : nat :=
  match op with
  | TestConnection => 3
  | _ => 2
  end.

(** The characters [encodeURIComponent] lets out. *)
Definition uri_safe (c : ascii) : bool :=
  Js.is_alpha c || Js.is_digit c || Js.in_chars c "-_.!~*'()%".

(** The characters the serializer of [URLSearchParams] lets out. *)
Definition form_safe (c : ascii) : bool :=
  Js.is_alpha c || Js.is_digit c || Js.in_chars c "*-._+%".

(** One optional pair of a query string. *)
Definition pair_if (present : bool) (name value : string) : Js.URLSearchParams :=
  if present then [(name, value)] else [].

Definition nonzero (v : option Z) : bool :=
  match v with
  | Some n => negb (n =? 0)
  | None => false
  end.

Definition nonempty (v : option string) : bool :=
  match v with
  | Some s => Js.truthy_string s
  | None => false
  end.

Definition number_text (v : option Z) : string :=
  match v with
  | Some n => Js.string_of_Z n
  | None => ""
  end.

(** The path each query operation asks for. *)
Definition family_path (f : Family) : string :=
  match f with
  | FHosts => "/devices/queries/devices/v1"
  | FDetections => "/detects/queries/detects/v1"
  | FIncidents => "/incidents/queries/incidents/v1"
  | FAlerts => "/alerts/queries/alerts/v1"
  | FIOCs => "/iocs/queries/indicators/v1"
  | FHostGroups => "/devices/queries/host-groups/v1"
  | FPreventionPolicies => "/policy/queries/prevention/v1"
  | FDeviceControlPolicies => "/policy/queries/device-control/v1"
  | FSensorUpdatePolicies => "/policy/queries/sensor-update/v1"
  end.

(** The number a decimal numeral stands for, read from the left with [acc]
    before it. *)
Fixpoint decimal_value (d : Decimal.uint) (acc : Z) : Z :=
  match d with
  | Decimal.Nil => acc
  | Decimal.D0 r => decimal_value r (10 * acc + 0)
  | Decimal.D1 r => decimal_value r (10 * acc + 1)
  | Decimal.D2 r => decimal_value r (10 * acc + 2)
  | Decimal.D3 r => decimal_value r (10 * acc + 3)
  | Decimal.D4 r => decimal_value r (10 * acc + 4)
  | Decimal.D5 r => decimal_value r (10 * acc + 5)
  | Decimal.D6 r => decimal_value r (10 * acc + 6)
  | Decimal.D7 r => decimal_value r (10 * acc + 7)
  | Decimal.D8 r => decimal_value r (10 * acc + 8)
  | Decimal.D9 r => decimal_value r (10 * acc + 9)
  end.

(** A world whose API answers 204 to everything. *)
Definition silent_world : World :=
  steady 0 (token_reply "tok1" 300) (reply 204 [] "").

(** A world whose tokens live one second and whose clock stands still. *)
Definition hasty_world : World :=
  steady 1000 (token_reply "tok1" 1) (reply 200 [] (dq "{'resources':['d1','d2']}")).

(** A world whose envelope has no [resources]. *)
Definition bare_world : World :=
  steady 0 (token_reply "tok1" 300) (reply 200 [] (dq "{'meta':{}}")).

(* ===================================================================== *)
(** ** How the computations run *)
(* ===================================================================== *)

(** *** The fuel of the JSON parser

    A value, a member list or an element list is parsed within twice the
    length of its text: more fuel gives the same result, and what is left
    after a value is shorter than the text. *)

Module JsonFuel.
Import Js.

Lemma skip_ws_length (l : list ascii) : (length (skip_ws l) <= length l)%nat.
Proof.
  induction l as [|c r IH]; cbn; [lia|].
  destruct (is_json_ws c); cbn; lia.
Qed.

Lemma low_surrogate_shorter (l r : list ascii) (n : Z) :
  low_surrogate l = Some (n, r) -> (length r < length l)%nat.
Proof.
  unfold low_surrogate.
  destruct l as [|a [|b [|c [|d [|e [|f l]]]]]]; try discriminate.
  destruct (_ && _); [|discriminate].
  destruct (hex4 c d e f) as [x|]; [|discriminate].
  destruct (_ && _); [|discriminate].
  intros H. injection H as _ <-. cbn. lia.
Qed.

Lemma parse_chars_shorter (fuel : nat) :
  forall (l s r : list ascii),
    parse_chars fuel l = Some (s, r) -> (length r < length l)%nat.
Proof.
  induction fuel as [|fuel IH]; intros l s r; [discriminate|].
  cbn [parse_chars].
  assert (Hk : forall bytes rest,
             (length rest < length l)%nat ->
             match parse_chars fuel rest with
             | Some (s0, r0) => Some ((bytes ++ s0)%list, r0)
             | None => None
             end = Some (s, r) -> (length r < length l)%nat).
  { intros bytes rest Hrest H.
    destruct (parse_chars fuel rest) as [[s0 r0]|] eqn:E; [|discriminate].
    injection H as _ <-. apply IH in E. lia. }
  destruct l as [|c l]; [discriminate|].
  destruct (code c =? 34).
  { intros H. injection H as _ <-. cbn. lia. }
  destruct (code c <? 32); [discriminate|].
  destruct (code c =? 92).
  - destruct l as [|e l]; [discriminate|].
    destruct (code e =? 117).
    + destruct l as [|a [|b [|x [|d l]]]]; try discriminate.
      destruct (hex4 a b x d) as [hi|]; [|discriminate].
      destruct (_ && _).
      * destruct (low_surrogate l) as [[lo r3]|] eqn:E.
        -- apply low_surrogate_shorter in E. apply Hk. cbn in *. lia.
        -- apply Hk. cbn. lia.
      * apply Hk. cbn. lia.
    + destruct (simple_escape e); [|discriminate]. apply Hk. cbn. lia.
  - apply Hk. cbn. lia.
Qed.

Lemma take_digits_length (l : list ascii) :
  forall (acc count v n : Z) (rest : list ascii),
    take_digits l acc count = (v, n, rest) -> (length rest <= length l)%nat.
Proof.
  induction l as [|c r IH]; intros acc count v n rest; cbn.
  - intros H. injection H as _ _ <-. cbn. lia.
  - destruct (is_digit c).
    + intros H. apply IH in H. lia.
    + intros H. injection H as _ _ <-. cbn. lia.
Qed.

Lemma parse_exponent_length (l rest : list ascii) (ex : Z) :
  parse_exponent l = Some (ex, rest) -> (length rest <= length l)%nat.
Proof.
  unfold parse_exponent. destruct l as [|c r].
  - intros H. injection H as _ <-. cbn. lia.
  - destruct (_ || _).
    + destruct r as [|s r'].
      * cbn. discriminate.
      * destruct (code s =? 45); [|destruct (code s =? 43)];
          match goal with
          | |- context [take_digits ?x 0 0] =>
              destruct (take_digits x 0 0) as [[v n] rest'] eqn:E
          end;
          apply take_digits_length in E;
          (destruct (n =? 0); [discriminate|]);
          intros H; injection H as _ <-; cbn in *; lia.
    + intros H. injection H as _ <-. cbn. lia.
Qed.

Lemma parse_number_shorter (l rest : list ascii) (v : JsValue) :
  parse_number l = Some (v, rest) -> (length rest < length l)%nat.
Proof.
  unfold parse_number.
  set (p := match l with
            | c :: r => if code c =? 45 then (true, r) else (false, l)
            | [] => (false, l)
            end).
  assert (Hp : (length (snd p) <= length l)%nat).
  { subst p. destruct l as [|c r]; [cbn; lia|].
    destruct (code c =? 45); cbn; lia. }
  destruct p as [neg l1]. cbn [snd] in Hp.
  destruct l1 as [|c r]; [discriminate|].
  destruct (is_digit c) eqn:Hc; [|discriminate].
  set (q := if code c =? 48 then (0, r)
            else let '(v0, _, rest0) := take_digits (c :: r) 0 0 in (v0, rest0)).
  assert (Hq : (length (snd q) <= length r)%nat).
  { subst q. destruct (code c =? 48); [cbn; lia|].
    cbn [take_digits]. rewrite Hc.
    destruct (take_digits r _ _) as [[v0 n0] rest0] eqn:E.
    apply take_digits_length in E. cbn. exact E. }
  destruct q as [ip l2]. cbn [snd] in Hq.
  set (frac := match l2 with
               | dot :: r2 => _
               | [] => _
               end).
  assert (Hf : forall m fd l3, frac = Some (m, fd, l3) -> (length l3 <= length l2)%nat).
  { subst frac. intros m fd l3. destruct l2 as [|dot r2].
    - intros H. injection H as _ _ <-. lia.
    - destruct (code dot =? 46).
      + destruct (take_digits r2 ip 0) as [[v0 n0] rest0] eqn:E.
        apply take_digits_length in E.
        destruct (n0 =? 0); [discriminate|].
        intros H. injection H as _ _ <-. cbn. lia.
      + intros H. injection H as _ _ <-. lia. }
  destruct frac as [[[m fd] l3]|]; [|discriminate].
  specialize (Hf m fd l3 eq_refl).
  destruct (parse_exponent l3) as [[ex rest']|] eqn:E; [|discriminate].
  apply parse_exponent_length in E.
  intros H. injection H as _ <-. cbn in *. lia.
Qed.

Lemma starts_with_length (prefix : list ascii) :
  forall l rest, starts_with prefix l = Some rest ->
                 (length rest + length prefix = length l)%nat.
Proof.
  induction prefix as [|p ps IH]; intros l rest; cbn.
  - intros H. injection H as <-. lia.
  - destruct l as [|c r]; [discriminate|].
    destruct (Ascii.eqb p c); [|discriminate].
    intros H. apply IH in H. cbn. lia.
Qed.

Lemma parse_stable : forall n, fuel_stable n.
Proof.
  induction n as [|n [IHv [IHm IHe]]].
  { repeat split; intros; lia. }
  split; [|split].
  - intros l Hl. pose proof (skip_ws_length l) as Hws. split.
    + intros m Hm. destruct m as [|m]; [lia|]. cbn [parse_value].
      destruct (skip_ws l) as [|c r]; [reflexivity|]. cbn [length] in Hws.
      destruct (code c =? 123).
      { destruct (skip_ws r) as [|c' r']; [reflexivity|].
        destruct (code c' =? 125); [reflexivity|].
        apply (IHm [] r); lia. }
      destruct (code c =? 91).
      { destruct (skip_ws r) as [|c' r']; [reflexivity|].
        destruct (code c' =? 93); [reflexivity|].
        apply (IHe [] r); lia. }
      reflexivity.
    + intros v rest. cbn [parse_value].
      destruct (skip_ws l) as [|c r]; [discriminate|]. cbn [length] in Hws.
      pose proof (skip_ws_length r) as Hws'.
      destruct (code c =? 123).
      { destruct (skip_ws r) as [|c' r']; [discriminate|]. cbn [length] in Hws'.
        destruct (code c' =? 125).
        - intros H. injection H as _ <-. lia.
        - intros H. apply (IHm [] r) in H; lia. }
      destruct (code c =? 91).
      { destruct (skip_ws r) as [|c' r']; [discriminate|]. cbn [length] in Hws'.
        destruct (code c' =? 93).
        - intros H. injection H as _ <-. lia.
        - intros H. apply (IHe [] r) in H; lia. }
      destruct (code c =? 34).
      { destruct (parse_chars (length r) r) as [[s r1]|] eqn:E; [|discriminate].
        apply parse_chars_shorter in E.
        intros H. injection H as _ <-. lia. }
      destruct (starts_with (list_ascii_of_string "true") (c :: r)) as [r1|] eqn:E1.
      { apply starts_with_length in E1. cbn in E1.
        intros H. injection H as _ <-. lia. }
      destruct (starts_with (list_ascii_of_string "false") (c :: r)) as [r2|] eqn:E2.
      { apply starts_with_length in E2. cbn in E2.
        intros H. injection H as _ <-. lia. }
      destruct (starts_with (list_ascii_of_string "null") (c :: r)) as [r3|] eqn:E3.
      { apply starts_with_length in E3. cbn in E3.
        intros H. injection H as _ <-. lia. }
      intros H. apply parse_number_shorter in H. cbn [length] in H. lia.
  - intros acc l Hl. pose proof (skip_ws_length l) as Hws.
    assert (Hkey : forall q r key r1 colon r2,
               skip_ws l = q :: r -> parse_chars (length r) r = Some (key, r1) ->
               skip_ws r1 = colon :: r2 -> (length r2 + 3 <= length l)%nat).
    { intros q r key r1 colon r2 E E1 E2. rewrite E in Hws. cbn [length] in Hws.
      apply parse_chars_shorter in E1.
      pose proof (skip_ws_length r1) as H1. rewrite E2 in H1. cbn [length] in H1. lia. }
    split.
    + intros m Hm. destruct m as [|m]; [lia|]. cbn [parse_members].
      destruct (skip_ws l) as [|q r] eqn:E; [reflexivity|].
      destruct (code q =? 34); [|reflexivity].
      destruct (parse_chars (length r) r) as [[key r1]|] eqn:E1; [|reflexivity].
      destruct (skip_ws r1) as [|colon r2] eqn:E2; [reflexivity|].
      destruct (code colon =? 58); [|reflexivity].
      pose proof (Hkey _ _ _ _ _ _ eq_refl E1 E2) as Hr2.
      rewrite (proj1 (IHv r2 ltac:(lia)) m ltac:(lia)).
      destruct (parse_value n r2) as [[v r3]|] eqn:E3; [|reflexivity].
      apply (IHv r2 ltac:(lia)) in E3.
      pose proof (skip_ws_length r3) as H3.
      destruct (skip_ws r3) as [|sep r4]; [reflexivity|]. cbn [length] in H3.
      destruct (code sep =? 44); [|reflexivity].
      apply (IHm _ r4); lia.
    + intros v rest. cbn [parse_members].
      destruct (skip_ws l) as [|q r] eqn:E; [discriminate|].
      destruct (code q =? 34); [|discriminate].
      destruct (parse_chars (length r) r) as [[key r1]|] eqn:E1; [|discriminate].
      destruct (skip_ws r1) as [|colon r2] eqn:E2; [discriminate|].
      destruct (code colon =? 58); [|discriminate].
      pose proof (Hkey _ _ _ _ _ _ eq_refl E1 E2) as Hr2.
      destruct (parse_value n r2) as [[v' r3]|] eqn:E3; [|discriminate].
      apply (IHv r2 ltac:(lia)) in E3.
      pose proof (skip_ws_length r3) as H3.
      destruct (skip_ws r3) as [|sep r4]; [discriminate|]. cbn [length] in H3.
      destruct (code sep =? 44).
      * intros H. apply (IHm _ r4) in H; lia.
      * destruct (code sep =? 125); [|discriminate].
        intros H. injection H as _ <-. lia.
  - intros acc l Hl. split.
    + intros m Hm. destruct m as [|m]; [lia|]. cbn [parse_elements].
      rewrite (proj1 (IHv l ltac:(lia)) m ltac:(lia)).
      destruct (parse_value n l) as [[v r]|] eqn:E; [|reflexivity].
      apply (IHv l ltac:(lia)) in E.
      pose proof (skip_ws_length r) as Hws.
      destruct (skip_ws r) as [|sep r']; [reflexivity|]. cbn [length] in Hws.
      destruct (code sep =? 44); [|reflexivity].
      apply (IHe _ r'); lia.
    + intros v rest. cbn [parse_elements].
      destruct (parse_value n l) as [[v' r]|] eqn:E; [|discriminate].
      apply (IHv l ltac:(lia)) in E.
      pose proof (skip_ws_length r) as Hws.
      destruct (skip_ws r) as [|sep r']; [discriminate|]. cbn [length] in Hws.
      destruct (code sep =? 44).
      * intros H. apply (IHe _ r') in H; lia.
      * destruct (code sep =? 93); [|discriminate].
        intros H. injection H as _ <-. lia.
Qed.

(** More fuel than [JSON_parse] gives changes nothing. *)
Lemma JSON_parse_fuel (text : string) (n : nat) :
  (2 * length (list_ascii_of_string text) + 2 <= n)%nat ->
  parse_value n (list_ascii_of_string text)
  = parse_value (2 * length (list_ascii_of_string text) + 2) (list_ascii_of_string text).
Proof.
  intros Hn.
  destruct (parse_stable (2 * length (list_ascii_of_string text) + 2)) as [Hv _].
  apply Hv; lia.
Qed.
End JsonFuel.

Lemma exchange_run (w : World) (st : Machine) :
  exchange w st =
  let r := token_request (client st) in
  match tokenEndpoint w (length (sent st)) r with
  | None => (Rejected TypeError, record_call st r)
  | Some response =>
      if ok (token_status response) then
        match token_json response with
        | None => (Rejected SyntaxError, record_call st r)
        | Some data =>
            (Resolved (access_token data),
             {| client := with_token (client st) data (clock w (clockReads st));
                clockReads := S (clockReads st);
                sent := (sent st ++ [r])%list |})
        end
      else
        (Rejected (AuthenticationError
                     ("OAuth2 authentication failed: "
                      ++ Js.string_of_Z (token_status response) ++ " "
                      ++ token_statusText response)),
         record_call st r)
  end.
Proof.
  unfold exchange, bind, this, fetch_token, token_request. cbn.
  destruct (tokenEndpoint w _ _) as [response|]; [|reflexivity].
  destruct (ok (token_status response)); cbn; [|reflexivity].
  destruct (token_json response) as [data|]; reflexivity.
Qed.

Lemma getAccessToken_run (w : World) (st : Machine) :
  getAccessToken w st =
  match accessToken (client st) with
  | Some token =>
      if Js.truthy_string token then
        if clock w (clockReads st) <? tokenExpiry (client st) - 60000
        then (Resolved token, tick st)
        else exchange w (tick st)
      else exchange w st
  | None => exchange w st
  end.
Proof.
  unfold getAccessToken, bind, this. cbn.
  destruct (accessToken (client st)) as [token|]; [|reflexivity].
  destruct (Js.truthy_string token); [|reflexivity].
  unfold Date_now, tick. cbn.
  destruct (_ <? _); reflexivity.
Qed.

Lemma request_run (w : World) (st : Machine) (endpoint : string) (options : RequestInit) :
  request endpoint options w st =
  match getAccessToken w st with
  | (Rejected e, st1) => (Rejected e, st1)
  | (Resolved token, st1) =>
      let r := mkRequest (baseUrl (client st) ++ endpoint)
                 (request_init (auth_headers token) options) in
      match api w (length (sent st1)) r with
      | None => (Rejected TypeError, record_call st1 r)
      | Some response => handle_response response w (record_call st1 r)
      end
  end.
Proof.
  unfold request, getAuthHeaders, bind, this, fetch, ret. cbv beta iota.
  destruct (getAccessToken w st) as [[token|e] st1]; [|reflexivity].
  cbv beta iota zeta. destruct (api w _ _); reflexivity.
Qed.

(** [request] once the token is there and the API has answered. *)
Lemma request_answered (w : World) (st st1 : Machine) (endpoint token : string)
  (options : RequestInit) (response : Response) :
  getAccessToken w st = (Resolved token, st1) ->
  api w (length (sent st1)) (api_request (client st) token endpoint options)
    = Some response ->
  request endpoint options w st
  = handle_response response w
      (record_call st1 (api_request (client st) token endpoint options)).
Proof.
  intros Htoken Hreply. rewrite request_run, Htoken. cbn.
  unfold api_request in Hreply. rewrite Hreply. reflexivity.
Qed.

(** The end-to-end scenario of the design document: credentials a/b, a
    token "tok1", a host list d1, d2. *)
Example end_to_end :
  let run := queryHosts None
               (steady 1000 (token_reply "tok1" 1)
                  (reply 200 [] (dq "{'resources':['d1','d2']}")))
               (boot tenant) in
  fst run = Resolved (Js.strings ["d1"; "d2"])
  /\ map (fun r => (req_url r, own_header (req_headers r) "Authorization"))
         (sent (snd run))
     = [("https://api.crowdstrike.com/oauth2/token", None);
        ("https://api.crowdstrike.com/devices/queries/devices/v1?", Some "Bearer tok1")].
Proof. vm_compute. split; reflexivity. Qed.

(** A reply 204 resolves to [undefined] without its body being parsed. *)
Example no_content :
  forall (w : World) (st : Machine),
    handle_response (reply 204 [] "not json") w st = (Resolved Js.JUndefined, st).
Proof. reflexivity. Qed.

Example parseInt10_samples :
  map Js.parseInt10 ["30"; " 30"; "30.5"; "abc"; ""; "-7x"; "+"; "0012"]
  = [Js.Num 30; Js.Num 30; Js.Num 30; Js.NaN; Js.NaN; Js.Num (-7); Js.NaN; Js.Num 12].
Proof. vm_compute. reflexivity. Qed.

Example JSON_parse_samples :
  map Js.JSON_parse
      [dq "{'a':[1, 2.50, -3e2, true, null, 'x\ny'],'a':{}}"; "[1,]"; "01"; "<html>"; ""]
  = [Some (Js.JObj [("a", Js.JObj [])]); None; None; None; None]
  /\ Js.JSON_parse (dq "[1, 2.50, -3e2, 'xA']")
     = Some (Js.JArr [Js.JNum 1 0; Js.JNum 250 (-2); Js.JNum (-3) 2; Js.JStr "xA"]).
Proof. vm_compute. split; reflexivity. Qed.

Example stringify_samples :
  Js.JSON_stringify [("ids", Js.strings ["a"; "b"]); ("skip", Js.JUndefined);
                     ("n", Js.JNum 15 (-1)); ("ok", Js.JBool true)]
  = dq "{'ids':['a','b'],'n':1.5,'ok':true}".
Proof. vm_compute. reflexivity. Qed.

Lemma truthy_string_true (s : string) : s <> "" -> Js.truthy_string s = true.
Proof.
  intros H. unfold Js.truthy_string.
  destruct (String.eqb_spec s ""); [contradiction|reflexivity].
Qed.

Lemma exchange_sent (w : World) (st : Machine) :
  sent (snd (exchange w st)) = (sent st ++ [token_request (client st)])%list.
Proof.
  rewrite exchange_run. cbv zeta.
  destruct (tokenEndpoint w _ _) as [response|]; [|reflexivity].
  destruct (ok _); [|reflexivity].
  destruct (token_json response); reflexivity.
Qed.

(** [handle_response] sends nothing and touches at most the token. *)
Lemma handle_response_state (response : Response) (w : World) (st : Machine) :
  snd (handle_response response w st) = st
  \/ snd (handle_response response w st)
     = {| client := without_token (client st); clockReads := clockReads st;
          sent := sent st |}.
Proof.
  unfold handle_response.
  destruct (status response =? 429); [left; reflexivity|].
  destruct ((status response =? 401) || (status response =? 403)); [right; reflexivity|].
  destruct (negb (ok (status response))); [left; reflexivity|].
  destruct (status response =? 204); [left; reflexivity|].
  destruct (Js.JSON_parse _); left; reflexivity.
Qed.

Lemma handle_response_sent (response : Response) (w : World) (st : Machine) :
  sent (snd (handle_response response w st)) = sent st.
Proof.
  destruct (handle_response_state response w st) as [H|H]; rewrite H; reflexivity.
Qed.

(* ===================================================================== *)
(** ** The token manager *)
(* ===================================================================== *)

(** A slot that holds the empty string holds no token: [this.accessToken &&]
    is false of it as of [null], and [getAccessToken] calls the token
    endpoint however far the expiry is. *)
Lemma empty_token_is_exchanged :
  accessToken (client holding_empty_token) = Some ""
  /\ clock quiet_world (clockReads holding_empty_token)
     < tokenExpiry (client holding_empty_token) - 60000
  /\ sent (snd (getAccessToken quiet_world holding_empty_token))
     = [token_request (client holding_empty_token)]
  /\ accessToken (client (snd (getAccessToken quiet_world holding_empty_token)))
     = Some "tok2".
Proof. vm_compute. repeat split; reflexivity. Qed.

(** C1: when a cached token exists (the slot holds a token, a non-empty
    string, which is what [this.accessToken &&] tests) and the clock reads
    strictly less than the expiry minus 60000 ms, [getAccessToken] returns
    the cached token, sends nothing and leaves the client as it is (only the
    clock has been read); when the token is absent (the slot is [null] or
    empty), or the clock reads that boundary or more, it runs the token
    exchange, which always calls the token endpoint.  With a token whose
    expiry is T + 300 s, and with a token fetched at T with expires_in 300,
    a call at T + 239 s is served from the cache and a call at T + 241 s
    calls the token endpoint. *)
Theorem getAccessToken_cache :
  forall (w : World) (st : Machine),
    (forall token,
        accessToken (client st) = Some token -> token <> "" ->
        clock w (clockReads st) < tokenExpiry (client st) - 60000 ->
        getAccessToken w st = (Resolved token, tick st))
    /\ (forall token,
        accessToken (client st) = Some token -> token <> "" ->
        tokenExpiry (client st) - 60000 <= clock w (clockReads st) ->
        getAccessToken w st = exchange w (tick st))
    /\ (accessToken (client st) = None \/ accessToken (client st) = Some "" ->
        getAccessToken w st = exchange w st)
    /\ (forall st', sent (snd (exchange w st'))
                    = (sent st' ++ [token_request (client st')])%list)
    /\ (forall T token,
        accessToken (client st) = Some token -> token <> "" ->
        tokenExpiry (client st) = T + 300 * 1000 ->
        (clock w (clockReads st) = T + 239 * 1000 ->
         getAccessToken w st = (Resolved token, tick st))
        /\ (clock w (clockReads st) = T + 241 * 1000 ->
            sent (snd (getAccessToken w st))
            = (sent st ++ [token_request (client st)])%list))
    /\ (forall T response data,
        tokenEndpoint w (length (sent st)) (token_request (client st)) = Some response ->
        ok (token_status response) = true ->
        token_json response = Some data ->
        access_token data <> "" ->
        expires_in data = 300 ->
        clock w (clockReads st) = T ->
        (clock w (S (clockReads st)) = T + 239 * 1000 ->
         getAccessToken w (snd (exchange w st))
         = (Resolved (access_token data), tick (snd (exchange w st))))
        /\ (clock w (S (clockReads st)) = T + 241 * 1000 ->
            sent (snd (getAccessToken w (snd (exchange w st))))
            = (sent st ++ [token_request (client st); token_request (client st)])%list)).
Proof.
  intros w st.
  assert (Hfetched : forall T response data,
    tokenEndpoint w (length (sent st)) (token_request (client st)) = Some response ->
    ok (token_status response) = true ->
    token_json response = Some data ->
    access_token data <> "" ->
    expires_in data = 300 ->
    clock w (clockReads st) = T ->
    (clock w (S (clockReads st)) = T + 239 * 1000 ->
     getAccessToken w (snd (exchange w st))
     = (Resolved (access_token data), tick (snd (exchange w st))))
    /\ (clock w (S (clockReads st)) = T + 241 * 1000 ->
        sent (snd (getAccessToken w (snd (exchange w st))))
        = (sent st ++ [token_request (client st); token_request (client st)])%list)).
  { intros T response data Hreply Hok Hdata Hne Hlife HT.
    rewrite exchange_run. cbv zeta. rewrite Hreply, Hok, Hdata. cbn [snd].
    rewrite getAccessToken_run.
    cbn [client accessToken with_token clockReads tokenExpiry].
    rewrite (truthy_string_true _ Hne), Hlife, HT.
    split; intros Hnow; rewrite Hnow.
    - replace (T + 239 * 1000 <? T + 300 * 1000 - 60000) with true
        by (symmetry; apply Z.ltb_lt; lia).
      reflexivity.
    - replace (T + 241 * 1000 <? T + 300 * 1000 - 60000) with false
        by (symmetry; apply Z.ltb_ge; lia).
      rewrite exchange_sent. cbn [sent client tick].
      change (token_request (with_token (client st) data T))
        with (token_request (client st)).
      rewrite <- app_assoc. reflexivity. }
  rewrite getAccessToken_run.
  split; [|split; [|split; [|split; [|split; [|exact Hfetched]]]]].
  - intros token Htoken Hne Hlt. rewrite Htoken, (truthy_string_true _ Hne).
    apply Z.ltb_lt in Hlt. rewrite Hlt. reflexivity.
  - intros token Htoken Hne Hge. rewrite Htoken, (truthy_string_true _ Hne).
    apply Z.ltb_ge in Hge. rewrite Hge. reflexivity.
  - intros [H|H]; rewrite H; reflexivity.
  - intros st'. apply exchange_sent.
  - intros T token Htoken Hne Hexpiry.
    rewrite Htoken, (truthy_string_true _ Hne), Hexpiry.
    split; intros Hnow; rewrite Hnow.
    + replace (T + 239 * 1000 <? T + 300 * 1000 - 60000) with true
        by (symmetry; apply Z.ltb_lt; lia).
      reflexivity.
    + replace (T + 241 * 1000 <? T + 300 * 1000 - 60000) with false
        by (symmetry; apply Z.ltb_ge; lia).
      rewrite exchange_sent. reflexivity.
Qed.

(** The cache serves a client that holds "tok1" until 300000, read at 239000. *)
Lemma getAccessToken_cache_witness :
  getAccessToken (steady 239000 (token_reply "tok2" 300) empty_envelope)
                 (holding (Some "tok1") 300000)
  = (Resolved "tok1", tick (holding (Some "tok1") 300000)).
Proof.
  apply (proj1 (getAccessToken_cache
                  (steady 239000 (token_reply "tok2" 300) empty_envelope)
                  (holding (Some "tok1") 300000)) "tok1").
  - reflexivity.
  - discriminate.
  - vm_compute. reflexivity.
Defined.

(** C7: a token exchange whose reply has a non-success status fails with an
    AuthenticationError whose message carries the status and the status
    text, after that one call; a successful one stores the returned
    access_token in place of whatever was cached, sets the expiry to the
    clock reading plus expires_in * 1000, and returns the token.  Every call
    of the token endpoint by [getAccessToken] is such an exchange. *)
Theorem token_exchange :
  forall (w : World) (st : Machine) (response : TokenReply),
    tokenEndpoint w (length (sent st)) (token_request (client st)) = Some response ->
    (ok (token_status response) = false ->
     exchange w st
     = (Rejected (AuthenticationError
                    ("OAuth2 authentication failed: "
                     ++ Js.string_of_Z (token_status response) ++ " "
                     ++ token_statusText response)),
        record_call st (token_request (client st))))
    /\ (forall data,
        ok (token_status response) = true ->
        token_json response = Some data ->
        exchange w st
        = (Resolved (access_token data),
           {| client := {| credentials := credentials (client st);
                           baseUrl := baseUrl (client st);
                           accessToken := Some (access_token data);
                           tokenExpiry := clock w (clockReads st)
                                          + expires_in data * 1000 |};
              clockReads := S (clockReads st);
              sent := (sent st ++ [token_request (client st)])%list |}))
    /\ (getAccessToken w st = exchange w st
        \/ getAccessToken w st = exchange w (tick st)
        \/ exists token, getAccessToken w st = (Resolved token, tick st)).
Proof.
  intros w st response Hreply. repeat split.
  - intros Hok. rewrite exchange_run. cbv zeta. rewrite Hreply, Hok. reflexivity.
  - intros data Hok Hdata. rewrite exchange_run. cbv zeta.
    rewrite Hreply, Hok, Hdata. reflexivity.
  - rewrite getAccessToken_run.
    destruct (accessToken (client st)) as [token|]; [|left; reflexivity].
    destruct (Js.truthy_string token); [|left; reflexivity].
    destruct (_ <? _); [right; right; exists token; reflexivity|right; left; reflexivity].
Qed.

(** A refused exchange, on a fresh client. *)
Lemma token_exchange_witness :
  exchange locked_world (boot tenant)
  = (Rejected (AuthenticationError "OAuth2 authentication failed: 401 Unauthorized"),
     record_call (boot tenant) (token_request (client (boot tenant)))).
Proof.
  apply (proj1 (token_exchange locked_world (boot tenant)
                  {| token_status := 401; token_statusText := "Unauthorized";
                     token_json := None |} eq_refl)).
  reflexivity.
Defined.

(* ===================================================================== *)
(** ** The request executor *)
(* ===================================================================== *)

(** Once the token is there, [request] sends exactly one call to the API,
    whatever the answer. *)
Lemma request_sent (w : World) (st st1 : Machine) (endpoint token : string)
  (options : RequestInit) :
  getAccessToken w st = (Resolved token, st1) ->
  sent (snd (request endpoint options w st))
  = (sent st1 ++ [api_request (client st) token endpoint options])%list.
Proof.
  intros Htoken. rewrite request_run, Htoken. cbv zeta.
  fold (api_request (client st) token endpoint options).
  destruct (api w _ _) as [response|]; [|reflexivity].
  rewrite handle_response_sent. reflexivity.
Qed.

(** Without the token, [request] sends nothing more than [getAccessToken]. *)
Lemma request_unauthenticated (w : World) (st st1 : Machine) (endpoint : string)
  (options : RequestInit) (e : Error) :
  getAccessToken w st = (Rejected e, st1) ->
  request endpoint options w st = (Rejected e, st1).
Proof. intros Htoken. rewrite request_run, Htoken. reflexivity. Qed.

(** C2: when the API answers 401 or 403, [request] clears the cached token
    and fails with an AuthenticationError after that single call to the API
    (nothing is retried); the next request on that client, at whatever time
    and whatever the expiry of the token that was cached, begins with a call
    to the token endpoint. *)
Theorem auth_failure_invalidates_token :
  forall (w : World) (st st1 : Machine) (endpoint token : string)
         (options : RequestInit) (response : Response),
    getAccessToken w st = (Resolved token, st1) ->
    api w (length (sent st1)) (api_request (client st) token endpoint options)
      = Some response ->
    status response = 401 \/ status response = 403 ->
    exists st2,
      request endpoint options w st
      = (Rejected (AuthenticationError
                     "Authentication failed. Check your API credentials."), st2)
      /\ accessToken (client st2) = None
      /\ sent st2 = (sent st1 ++ [api_request (client st) token endpoint options])%list
      /\ forall w' endpoint' options',
           getAccessToken w' st2 = exchange w' st2
           /\ exists rest,
                sent (snd (request endpoint' options' w' st2))
                = (sent st2 ++ token_request (client st2) :: rest)%list.
Proof.
  intros w st st1 endpoint token options response Htoken Hreply Hstatus.
  exists {| client := without_token (client st1);
            clockReads := clockReads st1;
            sent := (sent st1 ++ [api_request (client st) token endpoint options])%list |}.
  split; [|split; [reflexivity|split; [reflexivity|]]].
  - rewrite (request_answered _ _ _ _ _ _ _ Htoken Hreply).
    unfold handle_response.
    destruct Hstatus as [H|H]; rewrite H; reflexivity.
  - intros w' endpoint' options'.
    set (st2 := {| client := without_token (client st1) |}).
    assert (Hmiss : getAccessToken w' st2 = exchange w' st2)
      by (rewrite getAccessToken_run; reflexivity).
    split; [exact Hmiss|].
    rewrite request_run, Hmiss.
    pose proof (exchange_sent w' st2) as Hsent.
    destruct (exchange w' st2) as [[token'|e] st3]; cbn [snd] in Hsent.
    + cbv zeta. destruct (api w' _ _) as [response'|].
      * rewrite handle_response_sent. cbn [record_call sent]. rewrite Hsent.
        rewrite <- app_assoc. eexists. reflexivity.
      * cbn [snd record_call sent]. rewrite Hsent.
        rewrite <- app_assoc. eexists. reflexivity.
    + cbn [snd]. rewrite Hsent. eexists. reflexivity.
Qed.

(** A fresh client, a granted token, and an API that answers 401. *)
Lemma auth_failure_invalidates_token_witness :
  exists st2,
    request "/devices/queries/devices/v1?limit=1" no_options refusing_world (boot tenant)
    = (Rejected (AuthenticationError
                   "Authentication failed. Check your API credentials."), st2)
    /\ accessToken (client st2) = None.
Proof.
  destruct (auth_failure_invalidates_token refusing_world (boot tenant)
              (snd (getAccessToken refusing_world (boot tenant)))
              "/devices/queries/devices/v1?limit=1" "tok1" no_options
              (reply 401 [] "") eq_refl eq_refl (or_introl eq_refl))
    as [st2 [Hrun [Hnone _]]].
  exists st2. split; [exact Hrun|exact Hnone].
Defined.

(** C4, as the design document has it, fails on a 429 reply whose
    X-RateLimit-RetryAfter header is present with an empty value: the header
    parses to NaN, and the error carries 60. *)
Lemma empty_retry_header_gives_default :
  headers_get [("X-RateLimit-RetryAfter", "")] "X-RateLimit-RetryAfter" = Some ""
  /\ fst (request "/devices/queries/devices/v1?limit=1" no_options
            limiting_world (boot tenant))
     = Rejected (RateLimitError "Rate limit exceeded" (Js.Num 60))
  /\ documented_retry_after
       (headers_get [("X-RateLimit-RetryAfter", "")] "X-RateLimit-RetryAfter")
     = Js.NaN.
Proof. vm_compute. repeat split; reflexivity. Qed.

(** C4 (amended): when the API answers 429, [request] fails, after that
    single call (no backoff, no retry), with a RateLimitError marked
    retryable whose retry-after value is the X-RateLimit-RetryAfter header
    read by [parseInt(_, 10)] when the header is present and not empty, and
    60 when it is absent or empty; a header of 30 gives exactly 30. *)
Theorem rate_limit_error :
  forall (w : World) (st st1 : Machine) (endpoint token : string)
         (options : RequestInit) (response : Response),
    getAccessToken w st = (Resolved token, st1) ->
    api w (length (sent st1)) (api_request (client st) token endpoint options)
      = Some response ->
    status response = 429 ->
    exists seconds,
      request endpoint options w st
      = (Rejected (RateLimitError "Rate limit exceeded" seconds),
         record_call st1 (api_request (client st) token endpoint options))
      /\ retryable (RateLimitError "Rate limit exceeded" seconds) = true
      /\ (forall value,
            headers_get (resp_headers response) "X-RateLimit-RetryAfter" = Some value ->
            value <> "" -> seconds = Js.parseInt10 value)
      /\ (headers_get (resp_headers response) "X-RateLimit-RetryAfter" = None
          \/ headers_get (resp_headers response) "X-RateLimit-RetryAfter" = Some "" ->
          seconds = Js.Num 60)
      /\ (headers_get (resp_headers response) "X-RateLimit-RetryAfter" = Some "30" ->
          seconds = Js.Num 30).
Proof.
  intros w st st1 endpoint token options response Htoken Hreply Hstatus.
  exists (retry_after (headers_get (resp_headers response) "X-RateLimit-RetryAfter")).
  split; [|split; [reflexivity|split; [|split]]].
  - rewrite (request_answered _ _ _ _ _ _ _ Htoken Hreply).
    unfold handle_response. rewrite Hstatus. reflexivity.
  - intros value Hheader Hne. rewrite Hheader. unfold retry_after.
    rewrite (truthy_string_true _ Hne). reflexivity.
  - intros [H|H]; rewrite H; reflexivity.
  - intros H. rewrite H. reflexivity.
Qed.

(** A fresh client, a granted token, and an API that answers 429 with a
    retry header of 30. *)
Lemma rate_limit_error_witness :
  fst (request "/devices/queries/devices/v1?limit=1" no_options
         limiting_30_world (boot tenant))
  = Rejected (RateLimitError "Rate limit exceeded" (Js.Num 30)).
Proof.
  destruct (rate_limit_error limiting_30_world (boot tenant)
              (snd (getAccessToken limiting_30_world (boot tenant)))
              "/devices/queries/devices/v1?limit=1" "tok1" no_options
              (reply 429 [("x-ratelimit-retryafter", "30")] "")
              eq_refl eq_refl eq_refl)
    as [seconds [Hrun [_ [_ [_ H30]]]]].
  rewrite Hrun. cbn [fst]. rewrite (H30 eq_refl). reflexivity.
Defined.

(** The values [map] collects from well-formed entries, and their join. *)
Lemma messages_of_texts (errors : list Js.JsValue) (texts : list string) :
  Forall2 (fun e t => message_text e = Some t) errors texts ->
  exists values,
    messages_of errors = Js.Normal values
    /\ Forall2 (fun v t => v = Js.JStr t \/ (v = Js.JUndefined /\ t = "")) values texts.
Proof.
  induction 1 as [|e t errors texts He _ [values [Hvalues Hall]]].
  - exists []. split; [reflexivity|constructor].
  - destruct e as [| | | | |items|fields]; try discriminate He.
    cbn in He. cbn [messages_of Js.get]. rewrite Hvalues.
    destruct (Js.own fields "message") as [[| | | |text| |]|]; try discriminate He.
    + injection He as <-. eexists. split; [reflexivity|].
      constructor; [left; reflexivity|exact Hall].
    + injection He as <-. eexists. split; [reflexivity|].
      constructor; [right; split; reflexivity|exact Hall].
Qed.

Lemma array_join_texts (sep : string) (values : list Js.JsValue) (texts : list string) :
  Forall2 (fun v t => v = Js.JStr t \/ (v = Js.JUndefined /\ t = "")) values texts ->
  Js.array_join values sep = Js.Normal (Js.join sep texts).
Proof.
  unfold Js.array_join.
  induction 1 as [|v t values texts Hv Hall IH]; [reflexivity|].
  assert (Helem : match v with
                  | Js.JUndefined | Js.JNull => Js.Normal ""
                  | _ => Js.toString v
                  end = Js.Normal t)
    by (destruct Hv as [->|[-> ->]]; reflexivity).
  destruct Hall as [|v' t' values texts Hv' Hall].
  - cbn. exact Helem.
  - cbn [Js.join_values Js.join] in *. rewrite Helem, IH. reflexivity.
Qed.

Lemma error_message_joined (status : Z) (text : string) (fields : Js.JsObject)
  (errors : list Js.JsValue) (texts : list string) :
  Js.JSON_parse text = Some (Js.JObj fields) ->
  Js.own fields "errors" = Some (Js.JArr errors) ->
  errors <> [] ->
  Forall2 (fun e t => message_text e = Some t) errors texts ->
  error_message status text = Js.JStr (Js.join "; " texts).
Proof.
  intros Hparse Herrors Hne Htexts.
  destruct (messages_of_texts _ _ Htexts) as [values [Hvalues Hall]].
  unfold error_message, parsed_message. rewrite Hparse.
  cbn [Js.get]. rewrite Herrors. cbn [Js.get_optional Js.get String.eqb Ascii.eqb Bool.eqb].
  destruct errors as [|e errors]; [contradiction|].
  cbn [Js.truthy length]. rewrite Nat2Z.inj_succ.
  replace (Z.succ (Z.of_nat (length errors)) =? 0) with false
    by (symmetry; apply Z.eqb_neq; lia).
  cbn [negb map_message]. rewrite Hvalues, (array_join_texts _ _ _ Hall).
  reflexivity.
Qed.

Lemma error_message_without_errors (status : Z) (text : string) (fields : Js.JsObject) :
  Js.JSON_parse text = Some (Js.JObj fields) ->
  no_errors fields ->
  error_message status text
  = match Js.own fields "message" with
    | Some m => if Js.truthy m then m else fallback_message status
    | None => fallback_message status
    end.
Proof.
  intros Hparse Hnone. unfold error_message, parsed_message. rewrite Hparse.
  cbn [Js.get].
  destruct Hnone as [H|[H|H]]; rewrite H; cbn;
    destruct (Js.own fields "message") as [m|]; try reflexivity;
    destruct (Js.truthy m); reflexivity.
Qed.

(** C5, as the design document has it, fails on a body whose [errors] array
    is empty: the document takes the join of its messages, the empty string,
    and the client takes the top-level message.  It fails as well on an empty
    top-level message (the client falls back), on an [errors] array holding
    [null] and on an [errors] that is not an array (the client falls back
    where the document joins, or takes the top-level message). *)
Lemma empty_errors_array_falls_through :
  (fst (request "/devices/queries/devices/v1?limit=1" no_options
          failing_world (boot tenant))
   = Rejected (CrowdStrikeApiError (Js.JStr "nope") 500)
   /\ documented_message 500 (dq "{'errors':[],'message':'nope'}") = Js.JStr "")
  /\ (error_message 500 (dq "{'message':''}") = Js.JStr "API error: 500"
      /\ documented_message 500 (dq "{'message':''}") = Js.JStr "")
  /\ (error_message 500 (dq "{'errors':[null]}") = Js.JStr "API error: 500"
      /\ documented_message 500 (dq "{'errors':[null]}") = Js.JStr "")
  /\ (error_message 500 (dq "{'errors':'oops','message':'nope'}")
      = Js.JStr "API error: 500"
      /\ documented_message 500 (dq "{'errors':'oops','message':'nope'}")
         = Js.JStr "nope").
Proof. vm_compute. repeat split; reflexivity. Qed.

(** C5 (amended): when the API answers a status outside 200..299 other than
    401, 403 and 429, [request] fails with a CrowdStrikeApiError carrying
    that status and a message that is: the messages of the entries joined
    with "; " when the body is a JSON object whose [errors] is a non-empty
    array of objects with string (or no) messages; the top-level [message]
    when [errors] is missing, null or empty and [message] is a non-empty
    string; "API error: <status>" when the body is not JSON, or has neither.
    The three bodies of the design document give "bad filter; bad sort",
    "nope" and the fallback. *)
Theorem api_error_message :
  forall (w : World) (st st1 : Machine) (endpoint token : string)
         (options : RequestInit) (response : Response),
    getAccessToken w st = (Resolved token, st1) ->
    api w (length (sent st1)) (api_request (client st) token endpoint options)
      = Some response ->
    ok (status response) = false ->
    status response <> 429 -> status response <> 401 -> status response <> 403 ->
    request endpoint options w st
    = (Rejected (CrowdStrikeApiError
                   (error_message (status response) (resp_body response))
                   (status response)),
       record_call st1 (api_request (client st) token endpoint options))
    /\ (forall fields errors texts,
          Js.JSON_parse (resp_body response) = Some (Js.JObj fields) ->
          Js.own fields "errors" = Some (Js.JArr errors) ->
          errors <> [] ->
          Forall2 (fun e t => message_text e = Some t) errors texts ->
          error_message (status response) (resp_body response)
          = Js.JStr (Js.join "; " texts))
    /\ (forall fields text,
          Js.JSON_parse (resp_body response) = Some (Js.JObj fields) ->
          no_errors fields ->
          Js.own fields "message" = Some (Js.JStr text) ->
          text <> "" ->
          error_message (status response) (resp_body response) = Js.JStr text)
    /\ (forall fields,
          Js.JSON_parse (resp_body response) = Some (Js.JObj fields) ->
          no_errors fields ->
          Js.own fields "message" = None \/ Js.own fields "message" = Some (Js.JStr "") ->
          error_message (status response) (resp_body response)
          = fallback_message (status response))
    /\ (Js.JSON_parse (resp_body response) = None ->
        error_message (status response) (resp_body response)
        = fallback_message (status response))
    /\ (forall code,
          error_message code
            (dq "{'errors':[{'code':1,'message':'bad filter'},{'code':2,'message':'bad sort'}]}")
          = Js.JStr "bad filter; bad sort"
          /\ error_message code (dq "{'message':'nope'}") = Js.JStr "nope"
          /\ error_message code "<html>Bad Gateway</html>" = fallback_message code).
Proof.
  intros w st st1 endpoint token options response Htoken Hreply Hok H429 H401 H403.
  split; [|split; [|split; [|split; [|split]]]].
  - rewrite (request_answered _ _ _ _ _ _ _ Htoken Hreply).
    unfold handle_response.
    apply Z.eqb_neq in H429, H401, H403. rewrite H429, H401, H403, Hok.
    reflexivity.
  - intros fields errors texts. apply error_message_joined.
  - intros fields text Hparse Hnone Hmessage Hne.
    rewrite (error_message_without_errors _ _ _ Hparse Hnone), Hmessage.
    cbn [Js.truthy]. fold (Js.truthy_string text).
    rewrite (truthy_string_true _ Hne). reflexivity.
  - intros fields Hparse Hnone Hmessage.
    rewrite (error_message_without_errors _ _ _ Hparse Hnone).
    destruct Hmessage as [H|H]; rewrite H; reflexivity.
  - intros Hparse. unfold error_message. rewrite Hparse. reflexivity.
  - intros code. unfold error_message, fallback_message.
    repeat split; vm_compute; reflexivity.
Qed.

(** A fresh client, a granted token, and an API that answers 400 with two
    errors. *)
Lemma api_error_message_witness :
  fst (request "/devices/queries/devices/v1?limit=1" no_options
         rejecting_world (boot tenant))
  = Rejected (CrowdStrikeApiError (Js.JStr "bad filter; bad sort") 400).
Proof.
  destruct (api_error_message rejecting_world (boot tenant)
              (snd (getAccessToken rejecting_world (boot tenant)))
              "/devices/queries/devices/v1?limit=1" "tok1" no_options
              (reply 400 []
                 (dq "{'errors':[{'code':1,'message':'bad filter'},{'code':2,'message':'bad sort'}]}"))
              eq_refl eq_refl eq_refl)
    as [Hrun [_ [_ [_ [_ Hbodies]]]]]; try discriminate.
  rewrite Hrun. cbn [fst reply status resp_body].
  rewrite (proj1 (Hbodies 400)). reflexivity.
Defined.

(* ===================================================================== *)
(** ** The typed operations *)
(* ===================================================================== *)

Lemma handle_response_ok (response : Response) (v : Js.JsValue) (w : World) (st : Machine) :
  ok (status response) = true ->
  status response <> 204 ->
  Js.JSON_parse (resp_body response) = Some v ->
  handle_response response w st = (Resolved v, st).
Proof.
  intros Hok H204 Hparse. unfold handle_response.
  unfold ok in Hok. apply andb_prop in Hok as [Hlo Hhi].
  apply Z.leb_le in Hlo, Hhi.
  replace (status response =? 429) with false by (symmetry; apply Z.eqb_neq; lia).
  replace (status response =? 401) with false by (symmetry; apply Z.eqb_neq; lia).
  replace (status response =? 403) with false by (symmetry; apply Z.eqb_neq; lia).
  replace (status response =? 204) with false by (symmetry; apply Z.eqb_neq; lia).
  unfold ok.
  replace (200 <=? status response) with true by (symmetry; apply Z.leb_le; lia).
  replace (status response <=? 299) with true by (symmetry; apply Z.leb_le; lia).
  cbn. rewrite Hparse. reflexivity.
Qed.

(** [request] in a world whose API gives one successful reply to every
    call. *)
Lemma request_ok (w : World) (st st1 : Machine) (endpoint token : string)
  (options : RequestInit) (response : Response) (v : Js.JsValue) :
  getAccessToken w st = (Resolved token, st1) ->
  (forall n r, api w n r = Some response) ->
  ok (status response) = true ->
  status response <> 204 ->
  Js.JSON_parse (resp_body response) = Some v ->
  request endpoint options w st
  = (Resolved v, record_call st1 (api_request (client st) token endpoint options)).
Proof.
  intros Htoken Hreply Hok H204 Hparse.
  rewrite (request_answered _ _ _ _ _ _ response Htoken (Hreply _ _)).
  apply handle_response_ok; assumption.
Qed.

(** A continuation that only computes leaves the machine where the first
    step left it. *)
Lemma bind_state {A B : Type} (m : Async A) (k : A -> Async B) (w : World) (st : Machine) :
  (forall a st', snd (k a w st') = st') ->
  snd (bind m k w st) = snd (m w st).
Proof.
  intros Hk. unfold bind. destruct (m w st) as [[a|e] st']; [apply Hk|reflexivity].
Qed.

Lemma resources_or_empty_state (v : Js.JsValue) (w : World) (st : Machine) :
  snd (resources_or_empty v w st) = st.
Proof.
  unfold resources_or_empty, bind, lift.
  destruct (Js.get v "resources"); reflexivity.
Qed.

Lemma query_sent (w : World) (st st1 : Machine) (path token : string)
  (q : Js.URLSearchParams) :
  getAccessToken w st = (Resolved token, st1) ->
  sent (snd (query path q w st))
  = (sent st1 ++ [api_request (client st) token
                    (path ++ "?" ++ Js.params_toString q) no_options])%list.
Proof.
  intros Htoken. unfold query.
  rewrite bind_state by (intros; apply resources_or_empty_state).
  apply request_sent. exact Htoken.
Qed.

Lemma query_ok (w : World) (st st1 : Machine) (path token : string)
  (q : Js.URLSearchParams) (response : Response) (fields : Js.JsObject) :
  getAccessToken w st = (Resolved token, st1) ->
  (forall n r, api w n r = Some response) ->
  ok (status response) = true ->
  status response <> 204 ->
  Js.JSON_parse (resp_body response) = Some (Js.JObj fields) ->
  exists resources st2, query path q w st = (Resolved resources, st2).
Proof.
  intros Htoken Hreply Hok H204 Hparse. unfold query, bind.
  rewrite (request_ok _ _ _ _ _ _ _ _ Htoken Hreply Hok H204 Hparse).
  unfold resources_or_empty, bind, lift. cbn [Js.get].
  destruct (Js.own fields "resources"); unfold ret; eauto.
Qed.

Lemma then_ret_state {A B : Type} (m : Async A) (b : B) (w : World) (st : Machine) :
  snd ((m ;;; ret b) w st) = snd (m w st).
Proof. apply bind_state. reflexivity. Qed.

Lemma then_ret_value {A B : Type} (m : Async A) (b out : B) (w : World)
  (st st' : Machine) :
  (m ;;; ret b) w st = (Resolved out, st') -> out = b.
Proof.
  unfold bind, ret. destruct (m w st) as [[a|e] st1]; intros H.
  - injection H as <- _. reflexivity.
  - discriminate H.
Qed.

(** Every mutation is one [request] followed by a local acknowledgement. *)
Lemma mutate_call (m : Mutation) :
  exists ack,
    success ack = true
    /\ mutate m = (request (fst (mutation_call m)) (snd (mutation_call m)) ;;; ret ack).
Proof. destruct m; eexists; (split; [|reflexivity]); reflexivity. Qed.

(** C3, as the design document has it, fails on [containHost], which is
    neither a delete nor an update: with an empty list it still calls the
    API, with the body {"ids":[]}, and answers with an acknowledgement. *)
Lemma contain_host_without_ids_is_sent :
  fst (containHost [] quiet_world (boot tenant))
  = Resolved {| success := true;
                ack_message := "Containment initiated for 0 host(s)" |}
  /\ sent (snd (containHost [] quiet_world (boot tenant)))
     = [token_request (client (boot tenant));
        api_request (client (boot tenant)) "tok2"
          "/devices/entities/devices-actions/v2?action_name=contain"
          (post (ids_body []))]
  /\ body (post (ids_body [])) = Some (dq "{'ids':[]}").
Proof. vm_compute. repeat split; reflexivity. Qed.

(** C3 (amended): every get-by-ids operation, of every entity family, given
    an empty list returns the empty array, sends nothing and changes
    nothing; no mutation short-circuits: whatever list it is given, each of
    them (the host actions and the group-membership operations as well as
    the updates and the deletes) sends its call to the API once the token is
    there, with that list in it. *)
Theorem empty_id_list :
  (forall (g : Getter) (w : World) (st : Machine),
      get_by_ids g [] w st = (Resolved (Js.JArr []), st))
  /\ (forall (m : Mutation) (w : World) (st st1 : Machine) (token : string),
      getAccessToken w st = (Resolved token, st1) ->
      sent (snd (mutate m w st))
      = (sent st1 ++ [api_request (client st) token
                        (fst (mutation_call m)) (snd (mutation_call m))])%list)
  /\ body (snd (mutation_call (ContainHost []))) = Some (dq "{'ids':[]}")
  /\ fst (mutation_call (DeleteIOCs [])) = "/iocs/entities/indicators/v1?".
Proof.
  split; [|split; [|split]].
  - intros g w st. destruct g; reflexivity.
  - intros m w st st1 token Htoken.
    destruct (mutate_call m) as [ack [_ ->]].
    rewrite then_ret_state. apply request_sent. exact Htoken.
  - vm_compute. reflexivity.
  - vm_compute. reflexivity.
Qed.

(** [hideHost] with no identifier, on a fresh client. *)
Lemma empty_id_list_witness :
  sent (snd (mutate (HideHost []) quiet_world (boot tenant)))
  = [token_request (client (boot tenant));
     api_request (client (boot tenant)) "tok2"
       "/devices/entities/devices-actions/v2?action_name=hide_host"
       (post (ids_body []))].
Proof.
  apply (proj1 (proj2 empty_id_list) (HideHost []) quiet_world (boot tenant)
           (snd (getAccessToken quiet_world (boot tenant))) "tok2").
  reflexivity.
Defined.

(** C9: a mutation that resolves acknowledges with [success = true]; a
    failure is a rejection, never an acknowledgement with [success = false]. *)
Theorem mutation_ack_success :
  forall (m : Mutation) (w : World) (st st' : Machine) (ack : Ack),
    mutate m w st = (Resolved ack, st') -> success ack = true.
Proof.
  intros m w st st' ack Hrun.
  destruct (mutate_call m) as [ack' [Hsuccess Hcall]].
  rewrite Hcall in Hrun. apply then_ret_value in Hrun. subst ack. exact Hsuccess.
Qed.

(** [containHost] of one host, resolved. *)
Lemma mutation_ack_success_witness :
  exists ack,
    fst (mutate (ContainHost ["h1"]) quiet_world (boot tenant)) = Resolved ack
    /\ success ack = true.
Proof.
  exists {| success := true; ack_message := "Containment initiated for 1 host(s)" |}.
  split; [vm_compute; reflexivity|].
  apply (mutation_ack_success (ContainHost ["h1"]) quiet_world (boot tenant)
           (snd (mutate (ContainHost ["h1"]) quiet_world (boot tenant)))).
  vm_compute. reflexivity.
Defined.

Lemma first_resource_empty (envelope : Js.JsValue) (w : World) (st : Machine) :
  Js.get envelope "resources" = Js.Normal (Js.JArr []) ->
  first_resource envelope w st = (Resolved Js.JUndefined, st).
Proof. intros H. unfold first_resource, bind, lift. rewrite H. reflexivity. Qed.

Lemma single_call (s : Single) :
  exists endpoint options,
    single s = (response <- request endpoint options ;; first_resource response).
Proof. destruct s; do 2 eexists; reflexivity. Qed.

Lemma single_on_empty_resources (s : Single) (w : World) (st st1 : Machine)
  (token : string) (response : Response) (envelope : Js.JsValue) :
  getAccessToken w st = (Resolved token, st1) ->
  (forall n r, api w n r = Some response) ->
  ok (status response) = true ->
  status response <> 204 ->
  Js.JSON_parse (resp_body response) = Some envelope ->
  Js.get envelope "resources" = Js.Normal (Js.JArr []) ->
  exists st2, single s w st = (Resolved Js.JUndefined, st2).
Proof.
  intros Htoken Hreply Hok H204 Hparse Hempty.
  destruct (single_call s) as [endpoint [options ->]]. unfold bind.
  rewrite (request_ok _ _ _ _ _ _ _ _ Htoken Hreply Hok H204 Hparse).
  rewrite (first_resource_empty _ _ _ Hempty). eexists. reflexivity.
Qed.

(** C10: there is a 2xx reply whose envelope has an empty [resources] array
    ([empty_envelope]); answered with such a reply, each of createIOC,
    updateIOC, createHostGroup, updateHostGroup, initRTRSession,
    executeRTRCommand and executeRTRActiveResponderCommand resolves with
    [undefined], the first element of the empty array, and does not fail. *)
Theorem first_resource_of_empty_envelope :
  (ok (status empty_envelope) = true
   /\ exists envelope,
        Js.JSON_parse (resp_body empty_envelope) = Some envelope
        /\ Js.get envelope "resources" = Js.Normal (Js.JArr []))
  /\ (forall (s : Single) (w : World) (st st1 : Machine) (token : string)
             (response : Response) (envelope : Js.JsValue),
        getAccessToken w st = (Resolved token, st1) ->
        (forall n r, api w n r = Some response) ->
        ok (status response) = true ->
        status response <> 204 ->
        Js.JSON_parse (resp_body response) = Some envelope ->
        Js.get envelope "resources" = Js.Normal (Js.JArr []) ->
        exists st2, single s w st = (Resolved Js.JUndefined, st2))
  /\ (forall s : Single,
        exists st2, single s quiet_world (boot tenant) = (Resolved Js.JUndefined, st2)).
Proof.
  split; [|split].
  - split; [reflexivity|]. eexists. split; vm_compute; reflexivity.
  - exact single_on_empty_resources.
  - intros s.
    eapply (single_on_empty_resources s quiet_world (boot tenant) _ _ empty_envelope).
    + reflexivity.
    + reflexivity.
    + reflexivity.
    + discriminate.
    + vm_compute. reflexivity.
    + vm_compute. reflexivity.
Qed.

(** [createIOC] against the empty envelope, on a fresh client. *)
Lemma first_resource_of_empty_envelope_witness :
  exists st2,
    single (CreateIOC [("type", Js.JStr "domain"); ("value", Js.JStr "example.org")])
           quiet_world (boot tenant)
    = (Resolved Js.JUndefined, st2).
Proof.
  eapply (proj1 (proj2 first_resource_of_empty_envelope) _ quiet_world (boot tenant)
            _ _ empty_envelope).
  - reflexivity.
  - reflexivity.
  - reflexivity.
  - discriminate.
  - vm_compute. reflexivity.
  - vm_compute. reflexivity.
Defined.

Lemma vulnerability_query_filter (flt : string) (params : option QueryParams) :
  exists rest, vulnerability_query flt params = ("filter", flt) :: rest.
Proof.
  unfold vulnerability_query, set_number, set_string, field.
  destruct params as [[f l o s a]|]; cbn.
  - destruct l as [n|]; [destruct (n =? 0)|];
      destruct a as [x|]; try destruct (Js.truthy_string x);
      destruct s as [y|]; try destruct (Js.truthy_string y);
      cbn; eexists; reflexivity.
  - eexists. reflexivity.
Qed.

Lemma query_family_call (f : Family) (params : option QueryParams) :
  exists path q, query_family f params = query path q.
Proof. destruct f; do 2 eexists; reflexivity. Qed.

(** C6, as the design document has it, fails on the empty filter: the
    filter is there but empty, and the query is neither refused by the tool's
    schema nor by the client, which calls the API with [filter=]. *)
Lemma empty_vulnerability_filter_is_sent :
  fst (queryVulnerabilities "" None quiet_world (boot tenant)) = Resolved (Js.JArr [])
  /\ sent (snd (queryVulnerabilities "" None quiet_world (boot tenant)))
     = [token_request (client (boot tenant));
        api_request (client (boot tenant)) "tok2"
          "/spotlight/queries/vulnerabilities/v1?filter=" no_options]
  /\ fst (crowdstrike_query_vulnerabilities [("filter", Js.JStr "")]
            quiet_world (boot tenant))
     = Resolved (Response_ (Js.JObj [("ids", Js.JArr []); ("count", Js.JNum 0 0)])).
Proof. vm_compute. repeat split; reflexivity. Qed.

(** C6 (amended): a call of the vulnerability query tool without a filter
    is refused by the tool's input schema before the handler runs, so before
    any call to the network.  The client method itself validates nothing:
    its filter is a string by type, and it always sends it, first in the
    query string, even when it is empty.  The query operation of every other
    entity family resolves without a filter whenever the token is there and
    the API answers with a JSON envelope. *)
Theorem vulnerability_filter_required :
  (forall (args : Js.JsObject) (w : World) (st : Machine),
      Js.own args "filter" = None ->
      crowdstrike_query_vulnerabilities args w st = (Resolved InvalidArguments, st))
  /\ (forall (flt : string) (params : option QueryParams) (w : World)
             (st st1 : Machine) (token : string),
        getAccessToken w st = (Resolved token, st1) ->
        sent (snd (queryVulnerabilities flt params w st))
        = (sent st1 ++ [api_request (client st) token
                          ("/spotlight/queries/vulnerabilities/v1?"
                           ++ Js.params_toString (vulnerability_query flt params))
                          no_options])%list
        /\ exists rest, vulnerability_query flt params = ("filter", flt) :: rest)
  /\ Js.params_toString (vulnerability_query "" None) = "filter="
  /\ (forall (f : Family) (params : option QueryParams) (w : World)
             (st st1 : Machine) (token : string) (response : Response)
             (fields : Js.JsObject),
        field params filter = None ->
        getAccessToken w st = (Resolved token, st1) ->
        (forall n r, api w n r = Some response) ->
        ok (status response) = true ->
        status response <> 204 ->
        Js.JSON_parse (resp_body response) = Some (Js.JObj fields) ->
        exists resources st2, query_family f params w st = (Resolved resources, st2)).
Proof.
  split; [|split; [|split]].
  - intros args w st Hnone. unfold crowdstrike_query_vulnerabilities, parse_arguments.
    rewrite Hnone. reflexivity.
  - intros flt params w st st1 token Htoken. split.
    + unfold queryVulnerabilities. apply query_sent. exact Htoken.
    + apply vulnerability_query_filter.
  - reflexivity.
  - intros f params w st st1 token response fields _ Htoken Hreply Hok H204 Hparse.
    destruct (query_family_call f params) as [path [q ->]].
    exact (query_ok _ _ _ _ _ _ _ _ Htoken Hreply Hok H204 Hparse).
Qed.

(** The tool called with a limit and no filter, on a fresh client. *)
Lemma vulnerability_filter_required_witness :
  crowdstrike_query_vulnerabilities [("limit", Js.JNum 5 0)] quiet_world (boot tenant)
  = (Resolved InvalidArguments, boot tenant).
Proof.
  apply (proj1 vulnerability_filter_required [("limit", Js.JNum 5 0)]
           quiet_world (boot tenant)).
  reflexivity.
Defined.

(* ===================================================================== *)
(** ** The credentials are never written *)
(* ===================================================================== *)

Create HintDb frame.

Lemma keeps_ret {A : Type} (a : A) : keeps_credentials (ret a).
Proof. intros w st. split; reflexivity. Qed.

Lemma keeps_throw {A : Type} (e : Error) : keeps_credentials (@throw A e).
Proof. intros w st. split; reflexivity. Qed.

Lemma keeps_this : keeps_credentials this.
Proof. intros w st. split; reflexivity. Qed.

Lemma keeps_set_accessToken (v : option string) : keeps_credentials (set_accessToken v).
Proof. intros w st. split; reflexivity. Qed.

Lemma keeps_set_tokenExpiry (v : Z) : keeps_credentials (set_tokenExpiry v).
Proof. intros w st. split; reflexivity. Qed.

Lemma keeps_Date_now : keeps_credentials Date_now.
Proof. intros w st. split; reflexivity. Qed.

Lemma keeps_fetch (url : string) (init : RequestInit) : keeps_credentials (fetch url init).
Proof. intros w st. unfold fetch. destruct (api w _ _); split; reflexivity. Qed.

Lemma keeps_fetch_token (url : string) (init : RequestInit) :
  keeps_credentials (fetch_token url init).
Proof.
  intros w st. unfold fetch_token. destruct (tokenEndpoint w _ _); split; reflexivity.
Qed.

Lemma keeps_lift {A : Type} (c : Js.Completion A) : keeps_credentials (lift c).
Proof. destruct c; [apply keeps_ret|apply keeps_throw]. Qed.

Lemma keeps_bind {A B : Type} (m : Async A) (k : A -> Async B) :
  keeps_credentials m -> (forall a, keeps_credentials (k a)) ->
  keeps_credentials (bind m k).
Proof.
  intros Hm Hk w st. unfold bind. specialize (Hm w st).
  destruct (m w st) as [[a|e] st1]; cbn [snd] in *; [|exact Hm].
  destruct (Hk a w st1) as [Hc Hb]. destruct Hm as [Hc1 Hb1].
  split; [rewrite Hc; exact Hc1|rewrite Hb; exact Hb1].
Qed.

Lemma keeps_try_catch {A : Type} (m : Async A) (handler : Error -> Async A) :
  keeps_credentials m -> (forall e, keeps_credentials (handler e)) ->
  keeps_credentials (try_catch m handler).
Proof.
  intros Hm Hh w st. unfold try_catch. specialize (Hm w st).
  destruct (m w st) as [[a|e] st1]; cbn [snd] in *; [exact Hm|].
  destruct (Hh e w st1) as [Hc Hb]. destruct Hm as [Hc1 Hb1].
  split; [rewrite Hc; exact Hc1|rewrite Hb; exact Hb1].
Qed.

#[local] Hint Resolve keeps_ret keeps_throw keeps_this keeps_set_accessToken
  keeps_set_tokenExpiry keeps_Date_now keeps_fetch keeps_fetch_token keeps_lift : frame.

(** Walks through a computation: binds, handlers and branches. *)
Ltac keeps :=
  repeat first
    [ solve [auto with frame]
    | apply keeps_bind; [|intro]
    | apply keeps_try_catch; [|intro]
    | match goal with
      | |- keeps_credentials (if ?b then _ else _) => destruct b
      | |- keeps_credentials (match ?x with _ => _ end) => destruct x
      end ].

Lemma keeps_exchange : keeps_credentials exchange.
Proof. unfold exchange. keeps. Qed.

#[local] Hint Resolve keeps_exchange : frame.

Lemma keeps_getAccessToken : keeps_credentials getAccessToken.
Proof. unfold getAccessToken. keeps. Qed.

#[local] Hint Resolve keeps_getAccessToken : frame.

Lemma keeps_handle_response (response : Response) :
  keeps_credentials (handle_response response).
Proof. unfold handle_response. keeps. Qed.

#[local] Hint Resolve keeps_handle_response : frame.

Lemma keeps_request (endpoint : string) (options : RequestInit) :
  keeps_credentials (request endpoint options).
Proof. unfold request, getAuthHeaders. keeps. Qed.

#[local] Hint Resolve keeps_request : frame.

Lemma keeps_query (path : string) (q : Js.URLSearchParams) :
  keeps_credentials (query path q).
Proof. unfold query, resources_or_empty. keeps. Qed.

#[local] Hint Resolve keeps_query : frame.

Lemma keeps_get_by_ids (g : Getter) (ids : list string) :
  keeps_credentials (get_by_ids g ids).
Proof.
  destruct g; cbn [get_by_ids];
    unfold getHosts, getDetections, getIncidents, getBehaviors, getAlerts, getIOCs,
      getVulnerabilities, getHostGroups, getPreventionPolicies,
      getDeviceControlPolicies, getSensorUpdatePolicies, resources_or_empty;
    keeps.
Qed.

Lemma keeps_mutate (m : Mutation) : keeps_credentials (mutate m).
Proof. destruct (mutate_call m) as [ack [_ ->]]. keeps. Qed.

Lemma keeps_single (s : Single) : keeps_credentials (single s).
Proof. destruct (single_call s) as [endpoint [options ->]]. unfold first_resource. keeps. Qed.

Lemma keeps_query_family (f : Family) (params : option QueryParams) :
  keeps_credentials (query_family f params).
Proof. destruct (query_family_call f params) as [path [q ->]]. keeps. Qed.

Lemma keeps_testConnection : keeps_credentials testConnection.
Proof. unfold testConnection. keeps. Qed.

#[local] Hint Resolve keeps_get_by_ids keeps_mutate keeps_single keeps_query_family
  keeps_testConnection : frame.

(** C8: every operation of the client, in every world and whether it
    resolves or fails, leaves the credentials (client id and secret) and the
    base URL as they were bound at construction; of the client's four
    fields only the token and its expiry can differ afterwards. *)
Theorem credentials_immutable :
  (forall (op : Operation) (w : World) (st : Machine),
      credentials (client (snd (perform op w st))) = credentials (client st)
      /\ baseUrl (client (snd (perform op w st))) = baseUrl (client st))
  /\ (forall (endpoint : string) (options : RequestInit) (w : World) (st : Machine),
        credentials (client (snd (request endpoint options w st)))
        = credentials (client st)
        /\ baseUrl (client (snd (request endpoint options w st))) = baseUrl (client st))
  /\ (forall (w : World) (st : Machine),
        credentials (client (snd (getAccessToken w st))) = credentials (client st)
        /\ baseUrl (client (snd (getAccessToken w st))) = baseUrl (client st)).
Proof.
  split; [|split].
  - intros op. change (keeps_credentials (perform op)).
    destruct op; cbn [perform]; unfold queryVulnerabilities; keeps.
  - intros endpoint options. exact (keeps_request endpoint options).
  - exact keeps_getAccessToken.
Qed.


(* ===================================================================== *)
(** ** More about the request executor *)
(* ===================================================================== *)

(** What a resolved [request] went through. *)
Lemma request_resolved :
  forall (w : World) (st st' : Machine) (endpoint : string) (options : RequestInit)
         (v : Js.JsValue),
    request endpoint options w st = (Resolved v, st') ->
    exists token st1 response,
      getAccessToken w st = (Resolved token, st1)
      /\ api w (length (sent st1)) (api_request (client st) token endpoint options)
         = Some response
      /\ ok (status response) = true
      /\ st' = record_call st1 (api_request (client st) token endpoint options)
      /\ (if status response =? 204 then v = Js.JUndefined
          else Js.JSON_parse (resp_body response) = Some v).
Proof.
  intros w st st' endpoint options v Hrun. rewrite request_run in Hrun.
  destruct (getAccessToken w st) as [[token|e] st1]; [|discriminate].
  exists token, st1. cbv zeta in Hrun.
  fold (api_request (client st) token endpoint options) in Hrun.
  destruct (api w _ _) as [response|]; [|discriminate].
  exists response. split; [reflexivity|split; [reflexivity|]].
  unfold handle_response in Hrun.
  destruct (status response =? 429); [discriminate|].
  destruct ((status response =? 401) || (status response =? 403)); [discriminate|].
  destruct (ok (status response)); [|discriminate]. cbn [negb] in Hrun.
  split; [reflexivity|].
  destruct (status response =? 204).
  - injection Hrun as <- <-. split; reflexivity.
  - destruct (Js.JSON_parse (resp_body response)) as [v'|]; [|discriminate].
    injection Hrun as <- <-. split; reflexivity.
Qed.


(** X1: [request] resolves only after the token was obtained and the API
    answered with a status in 200..299: the value is [undefined] on 204 and
    the parsed body otherwise, and the machine has recorded that one call. *)
Theorem request_resolves_only_on_success :
  forall (w : World) (st st' : Machine) (endpoint : string) (options : RequestInit)
         (v : Js.JsValue),
    request endpoint options w st = (Resolved v, st') ->
    exists token st1 response,
      getAccessToken w st = (Resolved token, st1)
      /\ api w (length (sent st1)) (api_request (client st) token endpoint options)
         = Some response
      /\ ok (status response) = true
      /\ st' = record_call st1 (api_request (client st) token endpoint options)
      /\ (if status response =? 204 then v = Js.JUndefined
          else Js.JSON_parse (resp_body response) = Some v).
Proof. exact request_resolved. Qed.

(** A host query that resolved, on a fresh client. *)
Lemma request_resolves_only_on_success_witness :
  exists token st1 response,
    getAccessToken hasty_world (boot tenant) = (Resolved token, st1)
    /\ api hasty_world (length (sent st1))
         (api_request (client (boot tenant)) token "/devices/queries/devices/v1?"
            no_options) = Some response
    /\ ok (status response) = true.
Proof.
  destruct (request_resolves_only_on_success hasty_world (boot tenant)
              (snd (request "/devices/queries/devices/v1?" no_options
                      hasty_world (boot tenant)))
              "/devices/queries/devices/v1?" no_options
              (Js.JObj [("resources", Js.strings ["d1"; "d2"])]))
    as [token [st1 [response [H1 [H2 [H3 _]]]]]].
  - vm_compute. reflexivity.
  - exists token, st1, response. repeat split; assumption.
Defined.

(** X2: when the API answers with a status in 200..299, [request] resolves
    to [undefined] on 204 without reading the body, resolves to the parsed
    body otherwise, and rejects with a SyntaxError when that body is not
    JSON; the cached token is kept in each case. *)
Theorem request_success_body :
  forall (w : World) (st st1 : Machine) (endpoint token : string)
         (options : RequestInit) (response : Response),
    getAccessToken w st = (Resolved token, st1) ->
    api w (length (sent st1)) (api_request (client st) token endpoint options)
      = Some response ->
    ok (status response) = true ->
    request endpoint options w st
    = (if status response =? 204 then Resolved Js.JUndefined
       else match Js.JSON_parse (resp_body response) with
            | Some v => Resolved v
            | None => Rejected SyntaxError
            end,
       record_call st1 (api_request (client st) token endpoint options)).
Proof.
  intros w st st1 endpoint token options response Htoken Hreply Hok.
  rewrite (request_answered _ _ _ _ _ _ _ Htoken Hreply).
  unfold handle_response. rewrite Hok.
  unfold ok in Hok. apply andb_prop in Hok as [Hlo Hhi].
  apply Z.leb_le in Hlo, Hhi.
  replace (status response =? 429) with false by (symmetry; apply Z.eqb_neq; lia).
  replace (status response =? 401) with false by (symmetry; apply Z.eqb_neq; lia).
  replace (status response =? 403) with false by (symmetry; apply Z.eqb_neq; lia).
  cbn [orb negb].
  destruct (status response =? 204); [reflexivity|].
  destruct (Js.JSON_parse (resp_body response)); reflexivity.
Qed.

(** A reply 204, on a fresh client. *)
Lemma request_success_body_witness :
  fst (request "/devices/entities/devices-actions/v2?action_name=contain"
         (post (ids_body ["h1"])) silent_world (boot tenant))
  = Resolved Js.JUndefined.
Proof.
  rewrite (request_success_body silent_world (boot tenant)
             (snd (getAccessToken silent_world (boot tenant)))
             "/devices/entities/devices-actions/v2?action_name=contain" "tok1"
             (post (ids_body ["h1"])) (reply 204 [] "") eq_refl eq_refl eq_refl).
  reflexivity.
Defined.

(** X3: [request] changes the client only through the token manager, unless
    the API answers 401 or 403: on every other answer, and when [fetch]
    itself fails, the client is as [getAccessToken] left it. *)
Theorem request_keeps_token_unless_unauthorized :
  forall (w : World) (st st1 : Machine) (endpoint token : string)
         (options : RequestInit),
    getAccessToken w st = (Resolved token, st1) ->
    (forall response,
        api w (length (sent st1)) (api_request (client st) token endpoint options)
          = Some response ->
        status response <> 401 /\ status response <> 403) ->
    client (snd (request endpoint options w st)) = client st1.
Proof.
  intros w st st1 endpoint token options Htoken Hstatus.
  rewrite request_run, Htoken. cbv zeta.
  fold (api_request (client st) token endpoint options).
  destruct (api w _ _) as [response|]; [|reflexivity].
  destruct (Hstatus response eq_refl) as [H401 H403].
  apply Z.eqb_neq in H401, H403.
  unfold handle_response. rewrite H401, H403. cbn [orb].
  destruct (status response =? 429); [reflexivity|].
  destruct (negb (ok (status response))); [reflexivity|].
  destruct (status response =? 204); [reflexivity|].
  destruct (Js.JSON_parse _); reflexivity.
Qed.

(** A rate-limited request keeps the token just obtained. *)
Lemma request_keeps_token_unless_unauthorized_witness :
  accessToken (client (snd (request "/devices/queries/devices/v1?" no_options
                              limiting_30_world (boot tenant))))
  = Some "tok1".
Proof.
  rewrite (request_keeps_token_unless_unauthorized limiting_30_world (boot tenant)
             (snd (getAccessToken limiting_30_world (boot tenant)))
             "/devices/queries/devices/v1?" "tok1" no_options eq_refl).
  - reflexivity.
  - intros response H. injection H as <-. split; discriminate.
Defined.

Lemma own_header_set (h : HeaderList) (k v name : string) :
  own_header (header_set h k v) name
  = if String.eqb k name then Some v else own_header h name.
Proof.
  induction h as [|[k' v'] h IH]; cbn.
  - reflexivity.
  - destruct (String.eqb_spec k' k) as [->|Hk]; cbn.
    + destruct (String.eqb k name); reflexivity.
    + rewrite IH. destruct (String.eqb_spec k' name) as [->|Hn]; [|reflexivity].
      destruct (String.eqb_spec k name) as [->|]; [contradiction|reflexivity].
Qed.

Lemma own_header_spread (b : HeaderList) :
  forall (a : HeaderList) (name : string),
    own_header b name = None ->
    own_header (header_spread a b) name = own_header a name.
Proof.
  unfold header_spread.
  induction b as [|[k v] b IH]; intros a name Hnone; cbn in *; [reflexivity|].
  destruct (String.eqb k name) eqn:E; [discriminate|].
  rewrite (IH _ _ Hnone), own_header_set, E. reflexivity.
Qed.

Lemma own_header_spread_own (b : HeaderList) :
  forall (a : HeaderList) (name v : string),
    NoDup (map fst b) ->
    own_header b name = Some v ->
    own_header (header_spread a b) name = Some v.
Proof.
  unfold header_spread.
  induction b as [|[k x] b IH]; intros a name v Hnodup Hsome; cbn in *; [discriminate|].
  inversion Hnodup as [|? ? Hnotin Hrest]; subst.
  destruct (String.eqb_spec k name) as [->|Hk].
  - injection Hsome as ->.
    assert (Hb : own_header b name = None).
    { clear -Hnotin. induction b as [|[k' v'] b IH]; cbn in *; [reflexivity|].
      destruct (String.eqb_spec k' name) as [->|]; [exfalso; auto|].
      apply IH. intros H. apply Hnotin. right. exact H. }
    fold (header_spread (header_set a name v) b).
    rewrite (own_header_spread b _ _ Hb), own_header_set, String.eqb_refl.
    reflexivity.
  - apply IH; assumption.
Qed.

(** X4: when [options.headers] is a plain object of strings, the object of
    headers that [request] hands to [fetch] holds under each key the value
    the caller supplied under that very key, and otherwise the value
    [request] puts there itself ([Authorization], [Content-Type]).  Keys are
    compared by their spelling: a caller who supplies no key spelled
    [Authorization], only [authorization] say, leaves the bearer token of
    [request] under [Authorization]. *)
Theorem caller_keys_replace_same_spelling :
  forall (c : Client) (token endpoint : string) (options : RequestInit)
         (supplied : HeaderList),
    headers options = Some supplied ->
    NoDup (map fst supplied) ->
    (forall name,
        own_header (req_headers (api_request c token endpoint options)) name
        = match own_header supplied name with
          | Some v => Some v
          | None => own_header (auth_headers token) name
          end)
    /\ (own_header supplied "Authorization" = None ->
        own_header (req_headers (api_request c token endpoint options)) "Authorization"
        = Some ("Bearer " ++ token)).
Proof.
  intros c token endpoint options supplied Hsupplied Hnodup.
  assert (Hall : forall name,
             own_header (req_headers (api_request c token endpoint options)) name
             = match own_header supplied name with
               | Some v => Some v
               | None => own_header (auth_headers token) name
               end).
  { intros name.
    unfold api_request, mkRequest, request_init. cbn [req_headers headers].
    rewrite Hsupplied.
    destruct (own_header supplied name) as [v|] eqn:E.
    - apply own_header_spread_own; assumption.
    - apply own_header_spread. exact E. }
  split; [exact Hall|].
  intros Hnone. rewrite Hall, Hnone. reflexivity.
Qed.

(** A caller that supplies a content type and a lower-case [authorization]. *)
Lemma caller_keys_replace_same_spelling_witness :
  own_header
    (req_headers
       (api_request (client (boot tenant)) "tok1" "/x"
          {| method := None; body := None;
             headers := Some [("Content-Type", "text/plain");
                              ("authorization", "Basic x")] |}))
    "Authorization"
  = Some "Bearer tok1".
Proof.
  apply (proj2 (caller_keys_replace_same_spelling (client (boot tenant)) "tok1" "/x"
                  {| method := None; body := None;
                     headers := Some [("Content-Type", "text/plain");
                                      ("authorization", "Basic x")] |}
                  [("Content-Type", "text/plain"); ("authorization", "Basic x")]
                  eq_refl
                  ltac:(repeat constructor; cbn; intuition discriminate))).
  reflexivity.
Defined.

(* ===================================================================== *)
(** ** More about the token manager *)
(* ===================================================================== *)

Lemma token_request_with_token (c : Client) (data : OAuth2TokenResponse) (now : Z) :
  token_request (with_token c data now) = token_request c.
Proof. reflexivity. Qed.

(** X5: a non-empty token obtained by an exchange is served from the cache
    by the next [getAccessToken], without any call, as long as the clock then
    reads less than the time of the exchange plus expires_in * 1000 minus
    60000. *)
Theorem exchanged_token_is_reused :
  forall (w : World) (st : Machine) (response : TokenReply)
         (data : OAuth2TokenResponse),
    tokenEndpoint w (length (sent st)) (token_request (client st)) = Some response ->
    ok (token_status response) = true ->
    token_json response = Some data ->
    access_token data <> "" ->
    clock w (S (clockReads st))
    < clock w (clockReads st) + expires_in data * 1000 - 60000 ->
    getAccessToken w (snd (exchange w st))
    = (Resolved (access_token data), tick (snd (exchange w st))).
Proof.
  intros w st response data Hreply Hok Hdata Hne Hlt.
  rewrite exchange_run. cbv zeta. rewrite Hreply, Hok, Hdata. cbn [snd].
  rewrite getAccessToken_run. cbn [client accessToken with_token clockReads tokenExpiry].
  rewrite (truthy_string_true _ Hne).
  apply Z.ltb_lt in Hlt. rewrite Hlt. reflexivity.
Qed.

(** A token of 300 seconds, asked for again at once. *)
Lemma exchanged_token_is_reused_witness :
  fst (getAccessToken quiet_world (snd (exchange quiet_world (boot tenant))))
  = Resolved "tok2".
Proof.
  rewrite (exchanged_token_is_reused quiet_world (boot tenant)
             (token_reply "tok2" 300)
             {| access_token := "tok2"; token_type := "bearer"; expires_in := 300 |}
             eq_refl eq_refl eq_refl).
  - reflexivity.
  - discriminate.
  - vm_compute. reflexivity.
Defined.

(** X6: a token that lives 60 seconds or less is never served from the
    cache: if the clock does not run backwards, the [getAccessToken] that
    follows its exchange calls the token endpoint again. *)
Theorem short_lived_token_is_never_reused :
  forall (w : World) (st : Machine) (response : TokenReply)
         (data : OAuth2TokenResponse),
    tokenEndpoint w (length (sent st)) (token_request (client st)) = Some response ->
    ok (token_status response) = true ->
    token_json response = Some data ->
    expires_in data <= 60 ->
    clock w (clockReads st) <= clock w (S (clockReads st)) ->
    sent (snd (getAccessToken w (snd (exchange w st))))
    = (sent st ++ [token_request (client st); token_request (client st)])%list.
Proof.
  intros w st response data Hreply Hok Hdata Hshort Hclock.
  rewrite exchange_run. cbv zeta. rewrite Hreply, Hok, Hdata. cbn [snd].
  rewrite getAccessToken_run. cbn [client accessToken with_token clockReads tokenExpiry].
  replace (clock w (S (clockReads st))
           <? clock w (clockReads st) + expires_in data * 1000 - 60000)
    with false by (symmetry; apply Z.ltb_ge; lia).
  destruct (Js.truthy_string (access_token data));
    rewrite exchange_sent; cbn [sent client tick];
    rewrite token_request_with_token, <- app_assoc; reflexivity.
Qed.

(** The one-second token of the end-to-end scenario. *)
Lemma short_lived_token_is_never_reused_witness :
  length (sent (snd (getAccessToken hasty_world (snd (exchange hasty_world (boot tenant))))))
  = 2%nat.
Proof.
  rewrite (short_lived_token_is_never_reused hasty_world (boot tenant)
             (token_reply "tok1" 1)
             {| access_token := "tok1"; token_type := "bearer"; expires_in := 1 |}
             eq_refl eq_refl eq_refl).
  - reflexivity.
  - vm_compute. discriminate.
  - vm_compute. discriminate.
Defined.

(* ===================================================================== *)
(** ** More about the typed operations *)
(* ===================================================================== *)

(** X7: [testConnection] never rejects: whatever the token endpoint and the
    API do, it resolves with a report.  The report says connected, with the
    message of success, exactly when the token was obtained and the call of
    [/devices/queries/devices/v1?limit=1] resolved, the API having answered
    that call with a status in 200..299.  Otherwise it says not connected,
    and the error that was caught is the one [getAccessToken] or that call
    rejected with; when that error is one of the client's own, the report
    carries its message. *)
Theorem testConnection_never_rejects :
  forall (w : World) (st : Machine),
    exists report st',
      testConnection w st = (Resolved report, st')
      /\ (connected report = true ->
          conn_message report = "Successfully connected to CrowdStrike Falcon API"
          /\ exists token st1 v,
               getAccessToken w st = (Resolved token, st1)
               /\ request "/devices/queries/devices/v1?limit=1" no_options w st1
                  = (Resolved v, st')
               /\ exists token' st2 response,
                    getAccessToken w st1 = (Resolved token', st2)
                    /\ api w (length (sent st2))
                         (api_request (client st1) token'
                            "/devices/queries/devices/v1?limit=1" no_options)
                       = Some response
                    /\ ok (status response) = true)
      /\ (connected report = false ->
          exists e,
            (getAccessToken w st = (Rejected e, st')
             \/ exists token st1,
                  getAccessToken w st = (Resolved token, st1)
                  /\ request "/devices/queries/devices/v1?limit=1" no_options w st1
                     = (Rejected e, st'))
            /\ (forall m, e = AuthenticationError m -> conn_message report = m)
            /\ (forall m seconds, e = RateLimitError m seconds -> conn_message report = m)
            /\ (forall m code,
                e = CrowdStrikeApiError (Js.JStr m) code -> conn_message report = m)).
Proof.
  intros w st. unfold testConnection, try_catch, bind.
  assert (Hmessage : forall e,
    (forall m, e = AuthenticationError m -> message_of e = m)
    /\ (forall m seconds, e = RateLimitError m seconds -> message_of e = m)
    /\ (forall m code, e = CrowdStrikeApiError (Js.JStr m) code -> message_of e = m)).
  { intros e. split; [|split]; intros; subst e; reflexivity. }
  destruct (getAccessToken w st) as [[token|e] st1].
  - destruct (request "/devices/queries/devices/v1?limit=1" no_options w st1)
      as [[v|e] st2] eqn:Hrun.
    + do 2 eexists. split; [reflexivity|]. split; [|discriminate].
      intros _. split; [reflexivity|].
      exists token, st1, v. split; [reflexivity|]. split; [exact Hrun|].
      destruct (request_resolved _ _ _ _ _ _ Hrun)
        as [token' [st1' [response [Htoken' [Hreply [Hok _]]]]]].
      exists token', st1', response.
      split; [exact Htoken'|split; [exact Hreply|exact Hok]].
    + do 2 eexists. split; [reflexivity|]. split; [discriminate|].
      intros _. exists e. split; [|apply Hmessage].
      right. exists token, st1. split; [reflexivity|exact Hrun].
  - do 2 eexists. split; [reflexivity|]. split; [discriminate|].
    intros _. exists e. split; [|apply Hmessage].
    left. reflexivity.
Qed.

(** A token endpoint that refuses the credentials: the report carries the
    message of the AuthenticationError. *)
Lemma testConnection_never_rejects_witness :
  fst (testConnection locked_world (boot tenant))
  = Resolved {| connected := false;
                conn_message := "OAuth2 authentication failed: 401 Unauthorized" |}.
Proof.
  destruct (testConnection_never_rejects locked_world (boot tenant))
    as [report [st' [Hrun [_ Hfailed]]]].
  rewrite Hrun. cbn [fst].
  assert (Hreport : report
                    = {| connected := false;
                         conn_message := "OAuth2 authentication failed: 401 Unauthorized" |}).
  { vm_compute in Hrun. injection Hrun as <- _. reflexivity. }
  rewrite Hreport. reflexivity.
Defined.

Lemma sends_ret {A : Type} (a : A) : sends_at_most 0 (ret a).
Proof. intros w st. exists []. split; [symmetry; apply app_nil_r|apply Nat.le_refl]. Qed.

Lemma sends_throw {A : Type} (e : Error) : sends_at_most 0 (@throw A e).
Proof. intros w st. exists []. split; [symmetry; apply app_nil_r|apply Nat.le_refl]. Qed.

Lemma sends_weaken {A : Type} (n n' : nat) (m : Async A) :
  (n <= n')%nat -> sends_at_most n m -> sends_at_most n' m.
Proof.
  intros Hle Hm w st. destruct (Hm w st) as [more [Hsent Hlen]].
  exists more. split; [exact Hsent|lia].
Qed.

Lemma sends_bind {A B : Type} (a b : nat) (m : Async A) (k : A -> Async B) :
  sends_at_most a m -> (forall x, sends_at_most b (k x)) ->
  sends_at_most (a + b) (bind m k).
Proof.
  intros Hm Hk w st. unfold bind. destruct (Hm w st) as [more [Hsent Hlen]].
  destruct (m w st) as [[x|e] st1]; cbn [snd] in *.
  - destruct (Hk x w st1) as [more' [Hsent' Hlen']].
    exists (more ++ more')%list. rewrite Hsent', Hsent, app_assoc.
    split; [reflexivity|]. rewrite length_app. lia.
  - exists more. split; [exact Hsent|lia].
Qed.

Lemma sends_try_catch {A : Type} (a b : nat) (m : Async A) (handler : Error -> Async A) :
  sends_at_most a m -> (forall e, sends_at_most b (handler e)) ->
  sends_at_most (a + b) (try_catch m handler).
Proof.
  intros Hm Hh w st. unfold try_catch. destruct (Hm w st) as [more [Hsent Hlen]].
  destruct (m w st) as [[x|e] st1]; cbn [snd] in *.
  - exists more. split; [exact Hsent|lia].
  - destruct (Hh e w st1) as [more' [Hsent' Hlen']].
    exists (more ++ more')%list. rewrite Hsent', Hsent, app_assoc.
    split; [reflexivity|]. rewrite length_app. lia.
Qed.

Lemma sends_exchange : sends_at_most 1 exchange.
Proof.
  intros w st. exists [token_request (client st)].
  split; [apply exchange_sent|apply Nat.le_refl].
Qed.

Lemma sends_getAccessToken : sends_at_most 1 getAccessToken.
Proof.
  intros w st. rewrite getAccessToken_run.
  destruct (accessToken (client st)) as [token|]; [|apply sends_exchange].
  destruct (Js.truthy_string token); [|apply sends_exchange].
  destruct (_ <? _).
  - exists []. split; [symmetry; apply app_nil_r|cbn; lia].
  - destruct (sends_exchange w (tick st)) as [more H]. exists more. exact H.
Qed.

Lemma sends_request (endpoint : string) (options : RequestInit) :
  sends_at_most 2 (request endpoint options).
Proof.
  intros w st. destruct (sends_getAccessToken w st) as [more [Hsent Hlen]].
  destruct (getAccessToken w st) as [[token|e] st1] eqn:Htoken; cbn [snd] in Hsent.
  - rewrite (request_sent _ _ _ _ _ _ Htoken), Hsent, <- app_assoc.
    eexists. split; [reflexivity|]. rewrite length_app. cbn. lia.
  - rewrite (request_unauthenticated _ _ _ _ _ _ Htoken). cbn [snd].
    exists more. split; [exact Hsent|lia].
Qed.

Lemma sends_lift {A : Type} (c : Js.Completion A) : sends_at_most 0 (lift c).
Proof. destruct c; [apply sends_ret|apply sends_throw]. Qed.

Lemma sends_then {A B : Type} (m : Async A) (k : A -> Async B) :
  sends_at_most 2 m -> (forall x, sends_at_most 0 (k x)) ->
  sends_at_most 2 (bind m k).
Proof. intros Hm Hk. exact (sends_bind 2 0 m k Hm Hk). Qed.

Lemma sends_resources_or_empty (v : Js.JsValue) : sends_at_most 0 (resources_or_empty v).
Proof.
  unfold resources_or_empty.
  apply (sends_bind 0 0); [apply sends_lift|intros; apply sends_ret].
Qed.

Lemma sends_first_resource (v : Js.JsValue) : sends_at_most 0 (first_resource v).
Proof.
  unfold first_resource.
  apply (sends_bind 0 0); [apply sends_lift|intros; apply sends_lift].
Qed.

Lemma sends_query (path : string) (q : Js.URLSearchParams) :
  sends_at_most 2 (query path q).
Proof.
  unfold query.
  apply sends_then; [apply sends_request|intros; apply sends_resources_or_empty].
Qed.

Lemma get_by_ids_call (g : Getter) (ids : list string) :
  ids <> [] ->
  exists endpoint options,
    get_by_ids g ids
    = (response <- request endpoint options ;; resources_or_empty response).
Proof.
  intros Hne. destruct ids as [|id ids]; [contradiction|].
  destruct g; do 2 eexists; reflexivity.
Qed.

Lemma sends_get_by_ids (g : Getter) (ids : list string) :
  sends_at_most 2 (get_by_ids g ids).
Proof.
  destruct ids as [|id ids].
  - apply (sends_weaken 0); [lia|]. destruct g; apply sends_ret.
  - destruct (get_by_ids_call g (id :: ids)) as [endpoint [options ->]];
      [discriminate|].
    apply sends_then; [apply sends_request|intros; apply sends_resources_or_empty].
Qed.

Lemma sends_perform_value {A : Type} (m : Async A) (wrap : A -> Result) :
  sends_at_most 2 m -> sends_at_most 2 (x <- m ;; ret (wrap x)).
Proof. intros Hm. apply sends_then; [exact Hm|intros; apply sends_ret]. Qed.

(** X8: no operation of the client retries or loops: each adds at most two
    calls to those already sent (a token exchange and one call to the API),
    [testConnection] at most three, and none removes a recorded call. *)
Theorem operations_send_at_most_two_calls :
  forall (op : Operation) (w : World) (st : Machine),
    exists more,
      sent (snd (perform op w st)) = (sent st ++ more)%list
      /\ (length more <= call_budget op)%nat.
Proof.
  intros op. change (sends_at_most (call_budget op) (perform op)).
  destruct op; cbn [perform call_budget].
  - apply (sends_bind 3 0); [|intros; apply sends_ret].
    unfold testConnection.
    apply (sends_try_catch 3 0); [|intros; apply sends_ret].
    apply (sends_bind 1 2); [apply sends_getAccessToken|intros _].
    apply sends_then; [apply sends_request|intros; apply sends_ret].
  - apply sends_perform_value.
    destruct (query_family_call f params) as [path [q ->]]. apply sends_query.
  - apply sends_perform_value. apply sends_query.
  - apply sends_perform_value. apply sends_get_by_ids.
  - apply sends_perform_value.
    destruct (mutate_call m) as [ack [_ ->]].
    apply sends_then; [apply sends_request|intros; apply sends_ret].
  - apply sends_perform_value.
    destruct (single_call s) as [endpoint [options ->]].
    apply sends_then; [apply sends_request|intros; apply sends_first_resource].
Qed.

(** [request] in a world whose API answers 204 to every call. *)
Lemma request_no_content (w : World) (st st1 : Machine) (endpoint token : string)
  (options : RequestInit) (response : Response) :
  getAccessToken w st = (Resolved token, st1) ->
  (forall n r, api w n r = Some response) ->
  status response = 204 ->
  request endpoint options w st
  = (Resolved Js.JUndefined,
     record_call st1 (api_request (client st) token endpoint options)).
Proof.
  intros Htoken Hreply Hstatus.
  rewrite (request_answered _ _ _ _ _ _ response Htoken (Hreply _ _)).
  unfold handle_response. rewrite Hstatus. reflexivity.
Qed.

(** X9: a query or a get-by-ids operation answered with a JSON envelope
    resolves with the [resources] of the envelope when that is truthy and
    with the empty array otherwise; in particular an envelope without
    [resources], or with [null] there, gives the empty array. *)
Theorem missing_resources_give_empty_array :
  forall (w : World) (st st1 : Machine) (token : string) (response : Response)
         (fields : Js.JsObject),
    getAccessToken w st = (Resolved token, st1) ->
    (forall n r, api w n r = Some response) ->
    ok (status response) = true ->
    status response <> 204 ->
    Js.JSON_parse (resp_body response) = Some (Js.JObj fields) ->
    let resources := match Js.own fields "resources" with
                     | Some r => r
                     | None => Js.JUndefined
                     end in
    (forall (g : Getter) (ids : list string),
        ids <> [] ->
        fst (get_by_ids g ids w st) = Resolved (Js.or_else resources (Js.JArr [])))
    /\ (forall (f : Family) (params : option QueryParams),
        fst (query_family f params w st) = Resolved (Js.or_else resources (Js.JArr [])))
    /\ (forall (flt : string) (params : option QueryParams),
        fst (queryVulnerabilities flt params w st)
        = Resolved (Js.or_else resources (Js.JArr [])))
    /\ (Js.own fields "resources" = None \/ Js.own fields "resources" = Some Js.JNull ->
        Js.or_else resources (Js.JArr []) = Js.JArr []).
Proof.
  intros w st st1 token response fields Htoken Hreply Hok H204 Hparse resources.
  assert (Hrun : forall endpoint options,
             fst ((r <- request endpoint options ;; resources_or_empty r) w st)
             = Resolved (Js.or_else resources (Js.JArr []))).
  { intros endpoint options. unfold bind.
    rewrite (request_ok _ _ _ _ _ _ _ _ Htoken Hreply Hok H204 Hparse).
    unfold resources_or_empty, bind, lift. cbn [Js.get]. subst resources.
    destruct (Js.own fields "resources"); reflexivity. }
  split; [|split; [|split]].
  - intros g ids Hne. destruct (get_by_ids_call g ids Hne) as [e [o ->]]. apply Hrun.
  - intros f params. destruct (query_family_call f params) as [path [q ->]]. apply Hrun.
  - intros flt params. apply Hrun.
  - subst resources. intros [H|H]; rewrite H; reflexivity.
Qed.

(** A host query against an envelope that has only [meta]. *)
Lemma missing_resources_give_empty_array_witness :
  fst (query_family FHosts None bare_world (boot tenant)) = Resolved (Js.JArr []).
Proof.
  destruct (missing_resources_give_empty_array bare_world (boot tenant)
              (snd (getAccessToken bare_world (boot tenant))) "tok1"
              (reply 200 [] (dq "{'meta':{}}")) [("meta", Js.JObj [])]
              eq_refl (fun _ _ => eq_refl) eq_refl)
    as [_ [Hquery _]].
  - discriminate.
  - vm_compute. reflexivity.
  - rewrite (Hquery FHosts None). reflexivity.
Defined.

(** X10: answered 204, a mutation resolves with its acknowledgement, while
    a query, a get-by-ids with identifiers and an operation that returns the
    first resource reject with a TypeError, for reading [resources] of
    [undefined]. *)
Theorem no_content_suits_only_mutations :
  forall (w : World) (st st1 : Machine) (token : string) (response : Response),
    getAccessToken w st = (Resolved token, st1) ->
    (forall n r, api w n r = Some response) ->
    status response = 204 ->
    (forall m : Mutation,
        exists ack, fst (mutate m w st) = Resolved ack /\ success ack = true)
    /\ (forall (g : Getter) (ids : list string),
        ids <> [] -> fst (get_by_ids g ids w st) = Rejected TypeError)
    /\ (forall (f : Family) (params : option QueryParams),
        fst (query_family f params w st) = Rejected TypeError)
    /\ (forall (flt : string) (params : option QueryParams),
        fst (queryVulnerabilities flt params w st) = Rejected TypeError)
    /\ (forall s : Single, fst (single s w st) = Rejected TypeError).
Proof.
  intros w st st1 token response Htoken Hreply Hstatus.
  assert (Hrun : forall endpoint options,
             fst ((r <- request endpoint options ;; resources_or_empty r) w st)
             = Rejected TypeError).
  { intros endpoint options. unfold bind.
    rewrite (request_no_content _ _ _ _ _ _ _ Htoken Hreply Hstatus). reflexivity. }
  split; [|split; [|split; [|split]]].
  - intros m. destruct (mutate_call m) as [ack [Hsuccess ->]].
    exists ack. split; [|exact Hsuccess]. unfold bind.
    rewrite (request_no_content _ _ _ _ _ _ _ Htoken Hreply Hstatus). reflexivity.
  - intros g ids Hne. destruct (get_by_ids_call g ids Hne) as [e [o ->]]. apply Hrun.
  - intros f params. destruct (query_family_call f params) as [path [q ->]]. apply Hrun.
  - intros flt params. apply Hrun.
  - intros s. destruct (single_call s) as [e [o ->]]. unfold bind.
    rewrite (request_no_content _ _ _ _ _ _ _ Htoken Hreply Hstatus). reflexivity.
Qed.

(** A session opened against an API that answers 204. *)
Lemma no_content_suits_only_mutations_witness :
  fst (single (InitRTRSession "d1" false) silent_world (boot tenant))
  = Rejected TypeError.
Proof.
  destruct (no_content_suits_only_mutations silent_world (boot tenant)
              (snd (getAccessToken silent_world (boot tenant))) "tok1"
              (reply 204 [] "") eq_refl (fun _ _ => eq_refl) eq_refl)
    as [_ [_ [_ [_ Hsingle]]]].
  apply Hsingle.
Defined.

(** X11: an operation that returns the first resource resolves with the
    first element of a non-empty [resources] array, and rejects with a
    TypeError when the envelope has no [resources] or has [null] there. *)
Theorem first_resource_of_envelope :
  forall (s : Single) (w : World) (st st1 : Machine) (token : string)
         (response : Response) (fields : Js.JsObject),
    getAccessToken w st = (Resolved token, st1) ->
    (forall n r, api w n r = Some response) ->
    ok (status response) = true ->
    status response <> 204 ->
    Js.JSON_parse (resp_body response) = Some (Js.JObj fields) ->
    (forall x rest,
        Js.own fields "resources" = Some (Js.JArr (x :: rest)) ->
        fst (single s w st) = Resolved x)
    /\ (Js.own fields "resources" = None \/ Js.own fields "resources" = Some Js.JNull ->
        fst (single s w st) = Rejected TypeError).
Proof.
  intros s w st st1 token response fields Htoken Hreply Hok H204 Hparse.
  destruct (single_call s) as [e [o ->]]. unfold bind.
  rewrite (request_ok _ _ _ _ _ _ _ _ Htoken Hreply Hok H204 Hparse).
  unfold first_resource, bind, lift. cbn [Js.get].
  split.
  - intros x rest H. rewrite H. reflexivity.
  - intros [H|H]; rewrite H; reflexivity.
Qed.

(** An indicator created against an envelope that has only [meta]. *)
Lemma first_resource_of_envelope_witness :
  fst (single (CreateIOC []) bare_world (boot tenant)) = Rejected TypeError.
Proof.
  destruct (first_resource_of_envelope (CreateIOC []) bare_world (boot tenant)
              (snd (getAccessToken bare_world (boot tenant))) "tok1"
              (reply 200 [] (dq "{'meta':{}}")) [("meta", Js.JObj [])]
              eq_refl (fun _ _ => eq_refl) eq_refl)
    as [_ Hnone].
  - discriminate.
  - vm_compute. reflexivity.
  - apply Hnone. left. reflexivity.
Defined.

(* ===================================================================== *)
(** ** Query strings and encodings *)
(* ===================================================================== *)

Lemma query_builders (params : option QueryParams) :
  offset_query params
  = (pair_if (nonempty (field params filter)) "filter" (or_empty (field params filter))
     ++ pair_if (nonzero (field params limit)) "limit" (number_text (field params limit))
     ++ pair_if (nonzero (field params offset)) "offset"
          (number_text (field params offset))
     ++ pair_if (nonempty (field params sort)) "sort" (or_empty (field params sort)))%list
  /\ (forall flt,
      vulnerability_query flt params
      = (("filter", flt)
         :: pair_if (nonzero (field params limit)) "limit"
              (number_text (field params limit))
         ++ pair_if (nonempty (field params after)) "after"
              (or_empty (field params after))
         ++ pair_if (nonempty (field params sort)) "sort"
              (or_empty (field params sort)))%list)
  /\ set_string (offset_query params) "after" (field params after)
     = (offset_query params
        ++ pair_if (nonempty (field params after)) "after"
             (or_empty (field params after)))%list.
Proof.
  unfold offset_query, vulnerability_query, set_number, set_string, field,
    nonempty, nonzero.
  destruct params as [[f l o s a]|]; cbn [filter limit offset sort after].
  - destruct f as [f|]; [destruct (Js.truthy_string f)|];
      (destruct l as [l|]; [destruct (l =? 0)|]);
      (destruct o as [o|]; [destruct (o =? 0)|]);
      (destruct s as [s|]; [destruct (Js.truthy_string s)|]);
      (destruct a as [a|]; [destruct (Js.truthy_string a)|]);
      cbn; (split; [reflexivity|split; [intros flt; reflexivity|reflexivity]]).
  - cbn. split; [reflexivity|split; [intros flt; reflexivity|reflexivity]].
Qed.

(** X12: once the token is there, each of the nine query operations sends
    one call, to its own path, whose query string holds, in this order and
    each at most once, [filter], [limit], [offset] and [sort], then [after]
    for [queryIOCs] alone; a parameter that is missing, an empty string or
    the number 0 is left out.  [queryVulnerabilities] sends its filter first,
    whatever it is, followed by [limit], [after] and [sort] under the same
    rule. *)
Theorem query_string_parameters :
  forall (w : World) (st st1 : Machine) (token : string)
         (params : option QueryParams),
    getAccessToken w st = (Resolved token, st1) ->
    let limitPair :=
      pair_if (nonzero (field params limit)) "limit" (number_text (field params limit)) in
    let sortPair :=
      pair_if (nonempty (field params sort)) "sort" (or_empty (field params sort)) in
    let afterPair :=
      pair_if (nonempty (field params after)) "after" (or_empty (field params after)) in
    let paged :=
      (pair_if (nonempty (field params filter)) "filter" (or_empty (field params filter))
       ++ limitPair
       ++ pair_if (nonzero (field params offset)) "offset"
            (number_text (field params offset))
       ++ sortPair)%list in
    (forall f : Family,
        sent (snd (query_family f params w st))
        = (sent st1
           ++ [api_request (client st) token
                 (family_path f ++ "?"
                  ++ Js.params_toString
                       (paged ++ match f with FIOCs => afterPair | _ => [] end)%list)
                 no_options])%list)
    /\ (forall flt : string,
        sent (snd (queryVulnerabilities flt params w st))
        = (sent st1
           ++ [api_request (client st) token
                 ("/spotlight/queries/vulnerabilities/v1?"
                  ++ Js.params_toString
                       (("filter", flt) :: limitPair ++ afterPair ++ sortPair)%list)
                 no_options])%list).
Proof.
  intros w st st1 token params Htoken limitPair sortPair afterPair paged.
  destruct (query_builders params) as [Hpaged [Hvulnerability Hafter]].
  fold limitPair sortPair afterPair in Hpaged, Hvulnerability, Hafter.
  fold paged in Hpaged.
  split.
  - intros f.
    destruct f; cbn [query_family family_path];
      try (rewrite app_nil_r; rewrite <- Hpaged; apply query_sent; exact Htoken).
    unfold queryIOCs. rewrite <- Hpaged, <- Hafter.
    apply query_sent. exact Htoken.
  - intros flt. rewrite <- Hvulnerability. apply query_sent. exact Htoken.
Qed.

(** [queryAlerts] with a limit of 0, an offset and a sort, on a cached token. *)
Lemma query_string_parameters_witness :
  sent (snd (queryAlerts
               (Some {| filter := None; limit := Some 0; offset := Some 20;
                        sort := Some "created_timestamp.desc"; after := Some "c" |})
               quiet_world (holding (Some "t") 100000)))
  = [api_request (client (holding (Some "t") 100000)) "t"
       "/alerts/queries/alerts/v1?offset=20&sort=created_timestamp.desc" no_options].
Proof.
  exact (proj1 (query_string_parameters quiet_world (holding (Some "t") 100000)
                  (tick (holding (Some "t") 100000)) "t"
                  (Some {| filter := None; limit := Some 0; offset := Some 20;
                           sort := Some "created_timestamp.desc"; after := Some "c" |})
                  eq_refl) FAlerts).
Defined.

Lemma ids_query_from (ids : list string) :
  forall acc : Js.URLSearchParams,
    fold_left (fun q id => Js.params_append q "ids" id) ids acc
    = (acc ++ map (fun id => ("ids", id)) ids)%list.
Proof.
  induction ids as [|id ids IH]; intros acc; cbn.
  - symmetry. apply app_nil_r.
  - rewrite IH. unfold Js.params_append. rewrite <- app_assoc. reflexivity.
Qed.

(** X13: the query string built from a list of identifiers has one [ids]
    pair for each identifier, in the order given and with repetitions kept;
    it is the identifiers, each form-encoded after [ids=], joined by [&]. *)
Theorem ids_query_pairs :
  forall (ids : list string),
    ids_query ids = map (fun id => ("ids", id)) ids
    /\ Js.params_toString (ids_query ids)
       = Js.join "&" (map (fun id => "ids=" ++ Js.form_encode id) ids).
Proof.
  intros ids.
  assert (H : ids_query ids = map (fun id => ("ids", id)) ids)
    by (unfold ids_query; rewrite ids_query_from; reflexivity).
  split; [exact H|].
  unfold Js.params_toString. rewrite H, map_map. reflexivity.
Qed.

Lemma list_ascii_app (a b : string) :
  list_ascii_of_string (a ++ b)
  = (list_ascii_of_string a ++ list_ascii_of_string b)%list.
Proof. induction a as [|c a IH]; cbn; [reflexivity|rewrite IH; reflexivity]. Qed.

Lemma encoded_piece_safe (c : ascii) :
  forallb uri_safe
    (list_ascii_of_string
       (if Js.is_alpha c || Js.is_digit c || Js.in_chars c "-_.!~*'()"
        then String c "" else Js.percent c)) = true.
Proof. destruct c as [[] [] [] [] [] [] [] []]; vm_compute; reflexivity. Qed.

Lemma encodeURIComponent_safe (s : string) :
  forallb uri_safe (list_ascii_of_string (Js.encodeURIComponent s)) = true.
Proof.
  induction s as [|c s IH]; [reflexivity|].
  cbn [Js.encodeURIComponent]. rewrite list_ascii_app, forallb_app, IH.
  rewrite encoded_piece_safe. reflexivity.
Qed.

(** X14: the credentials cannot break out of their fields of the token
    request: its body is [client_id=], the encoded id, [&client_secret=] and
    the encoded secret, and an encoded text holds only letters, digits and
    [-_.!~*'()%], so neither [&] nor [=].  The same holds of the session id
    in the URL of [deleteRTRSession]. *)
Theorem credentials_are_encoded :
  forall (c : Client) (sessionId : string),
    (exists id secret,
        body (token_request_init c)
        = Some ("client_id=" ++ id ++ "&client_secret=" ++ secret)
        /\ forallb uri_safe (list_ascii_of_string id) = true
        /\ forallb uri_safe (list_ascii_of_string secret) = true)
    /\ (exists session,
          fst (mutation_call (DeleteRTRSession sessionId))
          = "/real-time-response/entities/sessions/v1?session_id=" ++ session
          /\ forallb uri_safe (list_ascii_of_string session) = true)
    /\ uri_safe "&" = false /\ uri_safe "=" = false /\ uri_safe " " = false.
Proof.
  intros c sessionId. split; [|split].
  - exists (Js.encodeURIComponent (clientId (credentials c))),
           (Js.encodeURIComponent (clientSecret (credentials c))).
    split; [reflexivity|split; apply encodeURIComponent_safe].
  - exists (Js.encodeURIComponent sessionId).
    split; [reflexivity|apply encodeURIComponent_safe].
  - repeat split; reflexivity.
Qed.

(* ===================================================================== *)
(** ** Credentials, environment and routing *)
(* ===================================================================== *)

Lemma validate_parse (h : HeaderList) :
  validateCredentials (parseTenantCredentials h) = None
  <-> nonempty (headers_get h "X-CrowdStrike-Client-ID") = true
      /\ nonempty (headers_get h "X-CrowdStrike-Client-Secret") = true.
Proof.
  unfold validateCredentials, parseTenantCredentials, nonempty, or_empty.
  cbn [clientId clientSecret].
  destruct (headers_get h "X-CrowdStrike-Client-ID") as [id|];
    destruct (headers_get h "X-CrowdStrike-Client-Secret") as [secret|];
    cbn; try destruct (Js.truthy_string id); try destruct (Js.truthy_string secret);
    cbn; split; intros H; try discriminate; try (destruct H; discriminate);
    try reflexivity; try (split; reflexivity).
Qed.

(** X15: the credentials read from the headers of a request pass
    [validateCredentials] exactly when both the client id header and the
    client secret header are present and not empty; the base URL of the
    client made from them is the base URL header when it is present and not
    empty, and the default otherwise. *)
Theorem credentials_from_headers :
  forall (h : HeaderList),
    (validateCredentials (parseTenantCredentials h) = None
     <-> nonempty (headers_get h "X-CrowdStrike-Client-ID") = true
         /\ nonempty (headers_get h "X-CrowdStrike-Client-Secret") = true)
    /\ (validateCredentials (parseTenantCredentials h) <> None ->
        validateCredentials (parseTenantCredentials h) = Some missing_credentials)
    /\ baseUrl (createCrowdStrikeClient (parseTenantCredentials h))
       = (if nonempty (headers_get h "X-CrowdStrike-Base-URL")
          then or_empty (headers_get h "X-CrowdStrike-Base-URL")
          else DEFAULT_BASE_URL).
Proof.
  intros h. split; [apply validate_parse|split].
  - unfold validateCredentials. destruct (_ || _); [reflexivity|contradiction].
  - unfold createCrowdStrikeClient, parseTenantCredentials, nonempty, or_empty.
    cbn [baseUrl cred_baseUrl].
    destruct (headers_get h "X-CrowdStrike-Base-URL") as [u|]; [|reflexivity].
    destruct (Js.truthy_string u) eqn:E; [rewrite E|]; reflexivity.
Qed.

(** X17: the Worker answers [/health] whatever the method and the headers;
    it hands a request to the MCP handler only for a POST to [/mcp] whose
    two credential headers are present and not empty, on a client made for
    that request, which holds these credentials and no token; a POST to
    [/mcp] without them is answered 401; any other method on [/mcp] gets the
    description of the server, as does any other path but [/sse]. *)
Theorem worker_routing :
  forall (request : WorkerRequest),
    (pathname request = "/health" -> worker_fetch request = Health)
    /\ (forall c,
        worker_fetch request = Mcp c ->
        pathname request = "/mcp" /\ http_method request = "POST"
        /\ c = createCrowdStrikeClient (parseTenantCredentials (request_headers request))
        /\ clientId (credentials c) <> "" /\ clientSecret (credentials c) <> ""
        /\ accessToken c = None)
    /\ (pathname request = "/mcp" -> http_method request = "POST" ->
        validateCredentials (parseTenantCredentials (request_headers request)) <> None ->
        worker_fetch request = Unauthorized missing_credentials)
    /\ (pathname request = "/mcp" -> http_method request <> "POST" ->
        worker_fetch request = ServerInfo)
    /\ (pathname request <> "/health" -> pathname request <> "/mcp" ->
        pathname request <> "/sse" -> worker_fetch request = ServerInfo).
Proof.
  intros request. unfold worker_fetch.
  split; [|split; [|split; [|split]]].
  - intros ->. reflexivity.
  - intros c.
    destruct (String.eqb_spec (pathname request) "/health"); [discriminate|].
    destruct (String.eqb_spec (pathname request) "/mcp") as [Hpath|];
      [|cbn; destruct (String.eqb (pathname request) "/sse"); discriminate].
    destruct (String.eqb_spec (http_method request) "POST") as [Hmethod|];
      [|cbn; destruct (String.eqb (pathname request) "/sse"); discriminate].
    cbn [andb].
    destruct (validateCredentials _) as [message|] eqn:Hvalid; [discriminate|].
    intros H. injection H as <-.
    unfold validateCredentials in Hvalid.
    destruct (Js.truthy_string (clientId _)) eqn:Hid; [|discriminate].
    destruct (Js.truthy_string (clientSecret _)) eqn:Hsecret; [|discriminate].
    repeat split; try assumption.
    + cbn [createCrowdStrikeClient credentials]. intros Hempty.
      rewrite Hempty in Hid. discriminate.
    + cbn [createCrowdStrikeClient credentials]. intros Hempty.
      rewrite Hempty in Hsecret. discriminate.
  - intros -> -> Hinvalid. cbn.
    destruct (validateCredentials _) as [message|] eqn:Hvalid; [|contradiction].
    unfold validateCredentials in Hvalid.
    destruct (_ || _); [|discriminate]. injection Hvalid as <-. reflexivity.
  - intros -> Hmethod. cbn.
    destruct (String.eqb_spec (http_method request) "POST"); [contradiction|].
    reflexivity.
  - intros Hhealth Hmcp Hsse.
    destruct (String.eqb_spec (pathname request) "/health"); [contradiction|].
    destruct (String.eqb_spec (pathname request) "/mcp"); [contradiction|].
    destruct (String.eqb_spec (pathname request) "/sse"); [contradiction|].
    reflexivity.
Qed.

(** A POST to [/mcp] that carries only the client id. *)
Lemma worker_routing_witness :
  worker_fetch {| pathname := "/mcp"; http_method := "POST";
                  request_headers := [("x-crowdstrike-client-id", "a")] |}
  = Unauthorized missing_credentials.
Proof.
  apply (proj1 (proj2 (proj2 (worker_routing
           {| pathname := "/mcp"; http_method := "POST";
              request_headers := [("x-crowdstrike-client-id", "a")] |})))).
  - reflexivity.
  - reflexivity.
  - vm_compute. discriminate.
Defined.

(* --------------------------------------------------------------------- *)
(** *** Reading back a number written in decimal *)

Lemma decimal_value_pos (d : Decimal.uint) :
  forall p, decimal_value d (Z.pos p) = Z.pos (Pos.of_uint_acc d p).
Proof.
  induction d as [|d IH|d IH|d IH|d IH|d IH|d IH|d IH|d IH|d IH|d IH]; intros p;
    cbn [decimal_value Pos.of_uint_acc]; [reflexivity|..];
    rewrite <- IH; f_equal; lia.
Qed.

Lemma decimal_value_of_uint (d : Decimal.uint) :
  decimal_value d 0 = Z.of_N (Pos.of_uint d).
Proof.
  induction d as [|d IH|d IH|d IH|d IH|d IH|d IH|d IH|d IH|d IH|d IH];
    cbn [decimal_value Pos.of_uint]; [reflexivity|exact IH|..];
    cbn [Z.of_N]; rewrite <- decimal_value_pos; reflexivity.
Qed.

Lemma leading_digits_step (c : ascii) (r : string) (acc : option Z) :
  Js.is_digit c = true ->
  Js.leading_digits (String c r) acc
  = Js.leading_digits r
      (Some (10 * match acc with Some a => a | None => 0 end + Js.digit_value c)).
Proof. intros H. cbn [Js.leading_digits]. rewrite H. reflexivity. Qed.

Lemma leading_digits_numeral (d : Decimal.uint) :
  forall acc,
    Js.leading_digits (NilEmpty.string_of_uint d) (Some acc)
    = Some (decimal_value d acc).
Proof.
  induction d as [|d IH|d IH|d IH|d IH|d IH|d IH|d IH|d IH|d IH|d IH]; intros acc;
    cbn [NilEmpty.string_of_uint decimal_value]; [reflexivity|..];
    rewrite leading_digits_step by reflexivity; rewrite IH; reflexivity.
Qed.

Lemma leading_digits_of_numeral (d : Decimal.uint) :
  d <> Decimal.Nil ->
  Js.leading_digits (NilEmpty.string_of_uint d) None = Some (decimal_value d 0).
Proof.
  intros H.
  destruct d as [|d|d|d|d|d|d|d|d|d|d]; [contradiction|..];
    cbn [NilEmpty.string_of_uint decimal_value];
    rewrite leading_digits_step by reflexivity; rewrite leading_digits_numeral;
    reflexivity.
Qed.

Lemma skip_space_plain (c : ascii) (r : string) :
  Js.is_space c = false -> Js.code c < 128 ->
  Js.skip_space (String c r) = String c r.
Proof.
  intros Hspace Hlow. unfold Js.skip_space.
  cbn [String.length Js.skip_space_fuel]. rewrite Hspace.
  assert (H194 : (Js.code c =? 194) = false) by (apply Z.eqb_neq; lia).
  assert (H225 : (Js.code c =? 225) = false) by (apply Z.eqb_neq; lia).
  assert (H226 : (Js.code c =? 226) = false) by (apply Z.eqb_neq; lia).
  assert (H227 : (Js.code c =? 227) = false) by (apply Z.eqb_neq; lia).
  assert (H239 : (Js.code c =? 239) = false) by (apply Z.eqb_neq; lia).
  unfold Js.wide_space.
  destruct r as [|b [|c' r']]; [reflexivity|rewrite H194; reflexivity|].
  cbv zeta. rewrite H194, H225, H226, H227, H239. reflexivity.
Qed.

Lemma numeral_head (d : Decimal.uint) :
  d <> Decimal.Nil ->
  exists c r,
    NilEmpty.string_of_uint d = String c r /\ Js.is_digit c = true.
Proof.
  intros H.
  destruct d as [|d|d|d|d|d|d|d|d|d|d]; [contradiction|..];
    cbn [NilEmpty.string_of_uint]; eexists; eexists; split; reflexivity.
Qed.

Lemma parseInt10_digits (c : ascii) (r : string) :
  Js.is_digit c = true ->
  Js.parseInt10 (String c r)
  = match Js.leading_digits (String c r) None with
    | Some n => Js.Num n
    | None => Js.NaN
    end.
Proof.
  intros H. unfold Js.parseInt10.
  assert (Hcode : 48 <= Js.code c <= 57).
  { unfold Js.is_digit in H. apply andb_true_iff in H. destruct H as [H1 H2].
    apply Z.leb_le in H1. apply Z.leb_le in H2. lia. }
  rewrite skip_space_plain.
  - cbv zeta.
    destruct (ascii_dec c "-") as [->|Hminus];
      [change (Js.code "-") with 45 in Hcode; lia|].
    destruct (ascii_dec c "+") as [->|Hplus];
      [change (Js.code "+") with 43 in Hcode; lia|].
    destruct c as [[] [] [] [] [] [] [] []]; try reflexivity;
      solve [contradiction Hminus; reflexivity
            |contradiction Hplus; reflexivity].
  - unfold Js.is_space. cbv zeta.
    destruct (Js.code c =? 32) eqn:E32; [apply Z.eqb_eq in E32; lia|].
    destruct (Js.code c <=? 13) eqn:E13; [apply Z.leb_le in E13; lia|].
    rewrite andb_false_r. reflexivity.
  - lia.
Qed.

Lemma parseInt10_numeral (d : Decimal.uint) :
  d <> Decimal.Nil ->
  Js.parseInt10 (NilEmpty.string_of_uint d) = Js.Num (Z.of_N (Pos.of_uint d))
  /\ Js.parseInt10 (String "-" (NilEmpty.string_of_uint d))
     = Js.Num (- Z.of_N (Pos.of_uint d)).
Proof.
  intros H. split.
  - destruct (numeral_head d H) as (c & r & Heq & Hdigit).
    rewrite Heq, (parseInt10_digits c r Hdigit), <- Heq.
    rewrite (leading_digits_of_numeral d H), decimal_value_of_uint. reflexivity.
  - unfold Js.parseInt10. rewrite skip_space_plain; [|reflexivity|vm_compute; reflexivity].
    cbv zeta iota beta.
    rewrite (leading_digits_of_numeral d H), decimal_value_of_uint. reflexivity.
Qed.

Lemma parseInt10_string_of_Z (n : Z) :
  Js.parseInt10 (Js.string_of_Z n) = Js.Num n.
Proof.
  unfold Js.string_of_Z.
  destruct n as [|p|p]; [reflexivity|..]; cbn [Z.to_int NilZero.string_of_int];
    pose proof (DecimalPos.Unsigned.to_uint_nonnil p) as Hnil;
    unfold NilZero.string_of_uint;
    destruct (Pos.to_uint p) as [|d|d|d|d|d|d|d|d|d|d] eqn:E; try contradiction;
    rewrite <- E in *;
    destruct (parseInt10_numeral (Pos.to_uint p) Hnil) as [Hpos Hneg];
    rewrite DecimalPos.Unsigned.of_to in Hpos, Hneg;
    first [exact Hpos | exact Hneg].
Qed.

(** X16: a variable that holds an integer written in decimal is read back
    as that integer, whatever the default; a variable with no leading digit
    and a key that names a binding give the default.  The integer is taken
    within the safe range of the numbers of the language. *)
Theorem getEnvNumber_reads_decimal :
  forall (env : Env) (key : EnvKey) (value : string) (n defaultValue : Z),
    env_string env key = Some value ->
    Z.abs n <= 9007199254740991 ->
    (value = Js.string_of_Z n -> getEnvNumber env key defaultValue = n)
    /\ (Js.parseInt10 value = Js.NaN -> getEnvNumber env key defaultValue = defaultValue)
    /\ (forall binding,
        env_string env binding = None ->
        getEnvNumber env binding defaultValue = defaultValue).
Proof.
  intros env key value n defaultValue Hvalue Hsafe. split; [|split].
  - intros ->. unfold getEnvNumber. rewrite Hvalue, parseInt10_string_of_Z.
    reflexivity.
  - intros Hnan. unfold getEnvNumber. rewrite Hvalue, Hnan. reflexivity.
  - intros binding Hnone. unfold getEnvNumber. rewrite Hnone. reflexivity.
Qed.

(** The page size 250 written as [250] is read as 250, not the default 100. *)
Lemma getEnvNumber_reads_decimal_witness :
  getDefaultPageSize
    {| CHARACTER_LIMIT := ""; DEFAULT_PAGE_SIZE := "250"; MAX_PAGE_SIZE := "" |}
  = 250.
Proof.
  apply (proj1 (getEnvNumber_reads_decimal
                  {| CHARACTER_LIMIT := ""; DEFAULT_PAGE_SIZE := "250";
                     MAX_PAGE_SIZE := "" |}
                  Key_DEFAULT_PAGE_SIZE "250" 250 100 eq_refl
                  ltac:(vm_compute; discriminate))).
  reflexivity.
Defined.

(** Both credential headers given, and a base URL of the tenant's region. *)
Lemma credentials_from_headers_witness :
  validateCredentials
    (parseTenantCredentials
       [("x-crowdstrike-client-id", "a"); ("x-crowdstrike-client-secret", "b");
        ("x-crowdstrike-base-url", "https://api.eu-1.crowdstrike.com")]) = None.
Proof.
  apply (proj1 (credentials_from_headers
                  [("x-crowdstrike-client-id", "a"); ("x-crowdstrike-client-secret", "b");
                   ("x-crowdstrike-base-url", "https://api.eu-1.crowdstrike.com")])).
  split; reflexivity.
Defined.

(* ===================================================================== *)
(** ** The tools *)
(* ===================================================================== *)

Lemma try_catch_state {A B : Type} (m : Async A) (wrap : A -> B)
  (handle : Error -> B) (w : World) (st : Machine) :
  snd (try_catch (x <- m ;; ret (wrap x)) (fun e => ret (handle e)) w st)
  = snd (m w st).
Proof.
  unfold try_catch, bind, ret.
  destruct (m w st) as [[x|e] st1]; reflexivity.
Qed.

Lemma length_of_truthy (v : Js.JsValue) :
  Js.truthy v = true -> exists n, Js.get v "length" = Js.Normal n.
Proof.
  destruct v as [| |b|m e|s|items|fields]; intros H; try discriminate H;
    cbn; try (eexists; reflexivity).
  destruct (Js.own fields "length"); eexists; reflexivity.
Qed.

Lemma query_resolves_truthy (path : string) (q : Js.URLSearchParams) (w : World)
  (st st' : Machine) (v : Js.JsValue) :
  query path q w st = (Resolved v, st') -> Js.truthy v = true.
Proof.
  unfold query, resources_or_empty, bind, lift, ret, throw.
  destruct (request _ _ w st) as [[response|e] st1]; [|discriminate].
  destruct (Js.get response "resources") as [r|]; [|discriminate].
  intros H. injection H as <- _. unfold Js.or_else.
  destruct (Js.truthy r) eqn:E; [exact E|reflexivity].
Qed.

(** X18: the handler of a tool turns the outcome of the client into the
    result of the tool, in the state the client left: when the client
    rejects with an error, that very error goes to [formatError]; when it
    resolves, its value goes to [formatResponse] (for the vulnerability
    query with the [length] of the value as [count], which can always be
    read).  The connection test always gives the report of
    [testConnection]: its own handler of errors is never reached. *)
Theorem tools_report_the_outcome_of_the_client :
  forall (args : Js.JsObject) (w : World) (st : Machine),
    (forall q,
        parse_arguments args = Some q ->
        let run :=
          queryVulnerabilities (arg_filter q)
            (Some {| filter := None; limit := Some (arg_limit q); offset := None;
                     sort := arg_sort q; after := arg_after q |}) w st in
        (forall e st',
            run = (Rejected e, st') ->
            crowdstrike_query_vulnerabilities args w st = (Resolved (Error_ e), st'))
        /\ (forall ids st',
            run = (Resolved ids, st') ->
            exists n,
              Js.get ids "length" = Js.Normal n
              /\ crowdstrike_query_vulnerabilities args w st
                 = (Resolved (Response_ (Js.JObj [("ids", ids); ("count", n)])), st')))
    /\ (forall ids,
        parse_ids 1 400 args = Some ids ->
        (forall e st',
            getVulnerabilities ids w st = (Rejected e, st') ->
            crowdstrike_get_vulnerabilities args w st = (Resolved (Error_ e), st'))
        /\ (forall v st',
            getVulnerabilities ids w st = (Resolved v, st') ->
            crowdstrike_get_vulnerabilities args w st = (Resolved (Response_ v), st')))
    /\ (forall ids,
        parse_ids 1 100 args = Some ids ->
        (forall e st',
            containHost ids w st = (Rejected e, st') ->
            crowdstrike_contain_host args w st = (Resolved (Error_ e), st'))
        /\ (forall a st',
            containHost ids w st = (Resolved a, st') ->
            crowdstrike_contain_host args w st
            = (Resolved (Response_ (ack_value a)), st')))
    /\ (exists report st',
          testConnection w st = (Resolved report, st')
          /\ crowdstrike_test_connection w st
             = (Resolved (Response_ (connection_value report)), st')).
Proof.
  intros args w st. split; [|split; [|split]].
  - intros q Hq run. unfold crowdstrike_query_vulnerabilities. rewrite Hq.
    fold run. unfold try_catch, bind, ret, lift. split.
    + intros e st' Hrun. fold run. rewrite Hrun. reflexivity.
    + intros ids st' Hrun.
      destruct (length_of_truthy ids
                  (query_resolves_truthy _ _ _ _ _ _ Hrun)) as [n Hn].
      exists n. split; [exact Hn|]. fold run. rewrite Hrun, Hn. reflexivity.
  - intros ids Hids. unfold crowdstrike_get_vulnerabilities. rewrite Hids.
    unfold try_catch, bind, ret.
    split; [intros e st' Hrun|intros v st' Hrun]; rewrite Hrun; reflexivity.
  - intros ids Hids. unfold crowdstrike_contain_host. rewrite Hids.
    unfold try_catch, bind, ret.
    split; [intros e st' Hrun|intros a st' Hrun]; rewrite Hrun; reflexivity.
  - unfold crowdstrike_test_connection, testConnection, try_catch, bind, ret.
    destruct (getAccessToken w st) as [[token|e] st1];
      [|do 2 eexists; split; reflexivity].
    destruct (request _ _ w st1) as [[v|e] st2]; do 2 eexists; split; reflexivity.
Qed.

(** The containment tool on a tenant whose credentials are refused. *)
Lemma tools_report_the_outcome_of_the_client_witness :
  crowdstrike_contain_host [("ids", Js.strings ["d1"])] locked_world (boot tenant)
  = (Resolved (Error_ (AuthenticationError
                         "OAuth2 authentication failed: 401 Unauthorized")),
     record_call (boot tenant) (token_request (client (boot tenant)))).
Proof.
  apply (proj1 (proj1 (proj2 (proj2 (tools_report_the_outcome_of_the_client
                                       [("ids", Js.strings ["d1"])]
                                       locked_world (boot tenant))))
                  ["d1"] eq_refl)).
  vm_compute. reflexivity.
Defined.

Lemma as_integer_range (args : Js.JsObject) (q : VulnerabilityQuery) :
  parse_arguments args = Some q ->
  1 <= arg_limit q <= 400
  /\ (Js.own args "limit" = None -> arg_limit q = 100)
  /\ Js.own args "filter" = Some (Js.JStr (arg_filter q)).
Proof.
  unfold parse_arguments. intros H.
  destruct (Js.own args "filter") as [[| |b|m e|f|items|fields]|]; try discriminate.
  cbv zeta in H.
  assert (Hlimit : exists n,
    match Js.own args "limit" with
    | None | Some Js.JUndefined => Some 100
    | Some (Js.JNum m e) =>
        match as_integer m e with
        | Some n => if (1 <=? n) && (n <=? 400) then Some n else None
        | None => None
        end
    | Some _ => None
    end = Some n /\ arg_limit q = n).
  { destruct (match Js.own args "limit" with None => _ | Some _ => _ end) as [n|];
      [|discriminate].
    exists n. split; [reflexivity|].
    destruct (optional_string args "after") as [a|]; [|discriminate].
    destruct (optional_string args "sort") as [s|]; [|discriminate].
    injection H as <-. reflexivity. }
  destruct Hlimit as [n [Hn Hq]].
  assert (Hf : arg_filter q = f).
  { rewrite Hn in H.
    destruct (optional_string args "after") as [a|]; [|discriminate].
    destruct (optional_string args "sort") as [s|]; [|discriminate].
    injection H as <-. reflexivity. }
  rewrite Hq, Hf. split; [|split; [|reflexivity]].
  - destruct (Js.own args "limit") as [[| |b|m e|f'|items|fields]|];
      try discriminate; try (injection Hn as <-; lia).
    destruct (as_integer m e) as [k|]; [|discriminate].
    destruct ((1 <=? k) && (k <=? 400)) eqn:Hrange; [|discriminate].
    injection Hn as <-.
    apply andb_true_iff in Hrange. destruct Hrange as [H1 H2].
    apply Z.leb_le in H1. apply Z.leb_le in H2. lia.
  - intros Hnone. rewrite Hnone in Hn. injection Hn as <-. reflexivity.
Qed.

(** X19: a call of [crowdstrike_query_vulnerabilities] that passes the
    schema always asks the API for a page of a stated size: the limit is
    between 1 and 400, it is 100 when the caller gave none, and the query
    string begins with the caller's filter followed by [limit], then
    [after] and [sort] when they are not empty.  Once the token is there the
    tool sends exactly that request; arguments the schema refuses send
    nothing. *)
Theorem vulnerability_tool_sends_limit :
  forall (args : Js.JsObject) (w : World) (st : Machine),
    (parse_arguments args = None ->
     crowdstrike_query_vulnerabilities args w st = (Resolved InvalidArguments, st))
    /\ (forall q,
        parse_arguments args = Some q ->
        let sentQuery :=
          (("filter", arg_filter q) :: ("limit", Js.string_of_Z (arg_limit q))
           :: pair_if (nonempty (arg_after q)) "after" (or_empty (arg_after q))
           ++ pair_if (nonempty (arg_sort q)) "sort" (or_empty (arg_sort q)))%list in
        1 <= arg_limit q <= 400
        /\ (Js.own args "limit" = None -> arg_limit q = 100)
        /\ Js.own args "filter" = Some (Js.JStr (arg_filter q))
        /\ (forall token st1,
            getAccessToken w st = (Resolved token, st1) ->
            sent (snd (crowdstrike_query_vulnerabilities args w st))
            = (sent st1
               ++ [api_request (client st) token
                     ("/spotlight/queries/vulnerabilities/v1?"
                      ++ Js.params_toString sentQuery) no_options])%list)).
Proof.
  intros args w st. split.
  - intros Hnone. unfold crowdstrike_query_vulnerabilities. rewrite Hnone. reflexivity.
  - intros q Hq sentQuery.
    destruct (as_integer_range args q Hq) as [Hrange [Hdefault Hfilter]].
    split; [exact Hrange|split; [exact Hdefault|split; [exact Hfilter|]]].
    intros token st1 Htoken.
    unfold crowdstrike_query_vulnerabilities. rewrite Hq.
    assert (Hquery :
      vulnerability_query (arg_filter q)
        (Some {| filter := None; limit := Some (arg_limit q); offset := None;
                 sort := arg_sort q; after := arg_after q |}) = sentQuery).
    { unfold vulnerability_query, set_number, set_string, field, sentQuery, nonempty,
        or_empty.
      cbn [limit after sort].
      destruct (arg_limit q =? 0) eqn:Hzero; [apply Z.eqb_eq in Hzero; lia|].
      destruct (arg_after q) as [a|]; [destruct (Js.truthy_string a)|];
        (destruct (arg_sort q) as [s|]; [destruct (Js.truthy_string s)|]);
        reflexivity. }
    assert (Hstate : forall (m : Async Js.JsValue),
      snd (try_catch
             (ids <- m ;; n <- lift (Js.get ids "length") ;;
              ret (Response_ (Js.JObj [("ids", ids); ("count", n)])))
             (fun error => ret (Error_ error)) w st)
      = snd (m w st)).
    { intros m. unfold try_catch, bind, ret, lift.
      destruct (m w st) as [[ids|e] st2]; [|reflexivity].
      destruct (Js.get ids "length"); reflexivity. }
    rewrite Hstate. unfold queryVulnerabilities. rewrite Hquery.
    apply query_sent. exact Htoken.
Qed.

(** A call with a filter, no limit and a cached token. *)
Lemma vulnerability_tool_sends_limit_witness :
  sent (snd (crowdstrike_query_vulnerabilities
               [("filter", Js.JStr "status:'open'")] quiet_world (holding (Some "t") 100000)))
  = [api_request (client (holding (Some "t") 100000)) "t"
       ("/spotlight/queries/vulnerabilities/v1?"
        ++ Js.params_toString [("filter", "status:'open'"); ("limit", "100")])
       no_options].
Proof.
  destruct (vulnerability_tool_sends_limit
              [("filter", Js.JStr "status:'open'")] quiet_world (holding (Some "t") 100000))
    as [_ H].
  destruct (H {| arg_filter := "status:'open'"; arg_limit := 100;
                 arg_after := None; arg_sort := None |} eq_refl)
    as [_ [_ [_ Hsent]]].
  exact (Hsent "t" (tick (holding (Some "t") 100000)) eq_refl).
Defined.

Lemma string_items_strings (items : list Js.JsValue) :
  forall ids, string_items items = Some ids -> items = map Js.JStr ids.
Proof.
  induction items as [|v items IH]; intros ids H; cbn in H.
  - injection H as <-. reflexivity.
  - destruct v as [| |b|m e|s|l|fields]; try discriminate.
    destruct (string_items items) as [l|]; [|discriminate].
    injection H as <-. cbn. rewrite (IH l eq_refl). reflexivity.
Qed.

Lemma parse_ids_range (lo hi : nat) (args : Js.JsObject) (ids : list string) :
  parse_ids lo hi args = Some ids ->
  Js.own args "ids" = Some (Js.strings ids)
  /\ (lo <= length ids <= hi)%nat.
Proof.
  unfold parse_ids. intros H.
  destruct (Js.own args "ids") as [[| |b|m e|s|items|fields]|]; try discriminate.
  destruct (string_items items) as [l|] eqn:Hitems; [|discriminate].
  destruct ((lo <=? length l)%nat && (length l <=? hi)%nat) eqn:Hrange; [|discriminate].
  injection H as <-.
  apply andb_true_iff in Hrange. destruct Hrange as [H1 H2].
  apply Nat.leb_le in H1. apply Nat.leb_le in H2.
  split; [|lia]. unfold Js.strings. rewrite (string_items_strings items l Hitems).
  reflexivity.
Qed.

(** X20: the tools that take identifiers never pass an empty list to the
    client.  Arguments the schema accepts are an array of 1 to 100 strings
    for [crowdstrike_contain_host] and of 1 to 400 for
    [crowdstrike_get_vulnerabilities]; otherwise the call is refused and
    sends nothing.  Once the token is there, the containment tool posts
    exactly the accepted identifiers, and the lookup puts each of them in
    the query string. *)
Theorem id_tools_never_send_an_empty_list :
  forall (args : Js.JsObject) (w : World) (st : Machine),
    (parse_ids 1 100 args = None ->
     crowdstrike_contain_host args w st = (Resolved InvalidArguments, st))
    /\ (parse_ids 1 400 args = None ->
        crowdstrike_get_vulnerabilities args w st = (Resolved InvalidArguments, st))
    /\ (Js.own args "ids" = Some (Js.JArr []) ->
        parse_ids 1 100 args = None /\ parse_ids 1 400 args = None)
    /\ (forall ids token st1,
        parse_ids 1 100 args = Some ids ->
        getAccessToken w st = (Resolved token, st1) ->
        ids <> [] /\ (length ids <= 100)%nat
        /\ Js.own args "ids" = Some (Js.strings ids)
        /\ sent (snd (crowdstrike_contain_host args w st))
           = (sent st1
              ++ [api_request (client st) token
                    "/devices/entities/devices-actions/v2?action_name=contain"
                    (post [("ids", Js.strings ids)])])%list)
    /\ (forall ids token st1,
        parse_ids 1 400 args = Some ids ->
        getAccessToken w st = (Resolved token, st1) ->
        ids <> [] /\ (length ids <= 400)%nat
        /\ Js.own args "ids" = Some (Js.strings ids)
        /\ sent (snd (crowdstrike_get_vulnerabilities args w st))
           = (sent st1
              ++ [api_request (client st) token
                    ("/spotlight/entities/vulnerabilities/v2?"
                     ++ Js.params_toString (map (fun id => ("ids", id)) ids))
                    no_options])%list).
Proof.
  intros args w st. split; [|split; [|split; [|split]]].
  - intros Hnone. unfold crowdstrike_contain_host. rewrite Hnone. reflexivity.
  - intros Hnone. unfold crowdstrike_get_vulnerabilities. rewrite Hnone. reflexivity.
  - intros Hempty. unfold parse_ids. rewrite Hempty. split; reflexivity.
  - intros ids token st1 Hids Htoken.
    destruct (parse_ids_range 1 100 args ids Hids) as [Hown Hrange].
    split; [intros ->; cbn in Hrange; lia|].
    split; [lia|]. split; [exact Hown|].
    unfold crowdstrike_contain_host. rewrite Hids, try_catch_state.
    unfold containHost. rewrite then_ret_state.
    apply request_sent. exact Htoken.
  - intros ids token st1 Hids Htoken.
    destruct (parse_ids_range 1 400 args ids Hids) as [Hown Hrange].
    split; [intros ->; cbn in Hrange; lia|].
    split; [lia|]. split; [exact Hown|].
    unfold crowdstrike_get_vulnerabilities. rewrite Hids.
    change (fun vulnerabilities : Js.JsValue => ret (Response_ vulnerabilities))
      with (fun vulnerabilities : Js.JsValue => @ret ToolResult (Response_ vulnerabilities)).
    rewrite (try_catch_state (getVulnerabilities ids) Response_ Error_).
    unfold getVulnerabilities.
    destruct ids as [|id ids]; [cbn in Hrange; lia|].
    cbn [length Nat.eqb].
    replace (map (fun id0 : string => ("ids", id0)) (id :: ids))
      with (ids_query (id :: ids))
      by (unfold ids_query; rewrite ids_query_from; reflexivity).
    apply query_sent. exact Htoken.
Qed.

(** The containment tool called with an empty list, on a fresh client. *)
Lemma id_tools_never_send_an_empty_list_witness :
  crowdstrike_contain_host [("ids", Js.JArr [])] quiet_world (boot tenant)
  = (Resolved InvalidArguments, boot tenant).
Proof.
  apply (proj1 (id_tools_never_send_an_empty_list
                  [("ids", Js.JArr [])] quiet_world (boot tenant))).
  reflexivity.
Defined.

(* ===================================================================== *)
(** ** Values stay inside their parameter *)
(* ===================================================================== *)

Lemma form_piece_safe (c : ascii) :
  forallb form_safe
    (list_ascii_of_string
       (if Js.is_alpha c || Js.is_digit c || Js.in_chars c "*-._" then String c ""
        else if Ascii.eqb c " " then "+" else Js.percent c)) = true.
Proof. destruct c as [[] [] [] [] [] [] [] []]; vm_compute; reflexivity. Qed.

Lemma form_encode_safe (s : string) :
  forallb form_safe (list_ascii_of_string (Js.form_encode s)) = true.
Proof.
  induction s as [|c s IH]; [reflexivity|].
  cbn [Js.form_encode]. rewrite list_ascii_app, forallb_app, IH.
  rewrite form_piece_safe. reflexivity.
Qed.

Lemma form_safe_separators (c : ascii) :
  form_safe c = true -> Ascii.eqb "&" c = false /\ Ascii.eqb "=" c = false.
Proof.
  destruct c as [[] [] [] [] [] [] [] []]; intros H; try discriminate H;
    split; reflexivity.
Qed.

Lemma no_separator_in_safe (l : list ascii) :
  forallb form_safe l = true ->
  List.filter (Ascii.eqb "&") l = [] /\ List.filter (Ascii.eqb "=") l = [].
Proof.
  induction l as [|c l IH]; intros H; [split; reflexivity|].
  cbn in H. apply andb_true_iff in H. destruct H as [Hc Hl].
  destruct (form_safe_separators c Hc) as [Hamp Heq].
  destruct (IH Hl) as [IHamp IHeq].
  cbn [List.filter]. rewrite Hamp, Heq. split; assumption.
Qed.

Lemma pair_separators (kv : string * string) :
  List.filter (Ascii.eqb "&")
    (list_ascii_of_string (Js.form_encode (fst kv) ++ "=" ++ Js.form_encode (snd kv)))
  = []
  /\ List.filter (Ascii.eqb "=")
       (list_ascii_of_string (Js.form_encode (fst kv) ++ "=" ++ Js.form_encode (snd kv)))
     = ["="%char].
Proof.
  rewrite !list_ascii_app, !filter_app.
  destruct (no_separator_in_safe _ (form_encode_safe (fst kv))) as [-> ->].
  destruct (no_separator_in_safe _ (form_encode_safe (snd kv))) as [-> ->].
  split; reflexivity.
Qed.

(** X21: no value can add a parameter to a query string: whatever the names
    and the values of the pairs, the text of the query string has one [=]
    for each pair and one [&] between two pairs, the serializer having
    encoded every other [&] and [=]. *)
Theorem query_string_separators :
  forall (q : Js.URLSearchParams),
    length (List.filter (Ascii.eqb "=") (list_ascii_of_string (Js.params_toString q)))
    = length q
    /\ length (List.filter (Ascii.eqb "&") (list_ascii_of_string (Js.params_toString q)))
       = pred (length q).
Proof.
  intros q. unfold Js.params_toString.
  induction q as [|kv q IH]; [split; reflexivity|].
  destruct (pair_separators kv) as [Hamp Heq].
  destruct q as [|kv' q].
  - cbn [map Js.join length pred]. rewrite Hamp, Heq. split; reflexivity.
  - destruct IH as [IHeq IHamp].
    change (Js.join "&" (map (fun kv0 => Js.form_encode (fst kv0) ++ "="
                                         ++ Js.form_encode (snd kv0)) (kv :: kv' :: q)))
      with ((Js.form_encode (fst kv) ++ "=" ++ Js.form_encode (snd kv)) ++ "&"
            ++ Js.join "&" (map (fun kv0 => Js.form_encode (fst kv0) ++ "="
                                            ++ Js.form_encode (snd kv0)) (kv' :: q))).
    rewrite (list_ascii_app (Js.form_encode (fst kv) ++ "=" ++ Js.form_encode (snd kv))).
    rewrite (list_ascii_app "&").
    rewrite !filter_app, !length_app, Hamp, Heq, IHeq, IHamp.
    cbn. split; reflexivity.
Qed.

(* ===================================================================== *)
(** ** Without a token *)
(* ===================================================================== *)

Lemma exchange_rejected (w : World) (st st1 : Machine) (e : Error) :
  exchange w st = (Rejected e, st1) ->
  st1 = record_call st (token_request (client st)).
Proof.
  rewrite exchange_run. cbv zeta.
  destruct (tokenEndpoint w _ _) as [response|].
  - destruct (ok (token_status response)).
    + destruct (token_json response) as [data|]; intros H; [discriminate|].
      injection H as _ <-. reflexivity.
    + intros H. injection H as _ <-. reflexivity.
  - intros H. injection H as _ <-. reflexivity.
Qed.

Lemma getAccessToken_rejected (w : World) (st st1 : Machine) (e : Error) :
  getAccessToken w st = (Rejected e, st1) ->
  client st1 = client st
  /\ sent st1 = (sent st ++ [token_request (client st)])%list.
Proof.
  rewrite getAccessToken_run.
  destruct (accessToken (client st)) as [token|].
  - destruct (Js.truthy_string token).
    + destruct (_ <? _); [discriminate|].
      intros H. apply exchange_rejected in H. subst st1. split; reflexivity.
    + intros H. apply exchange_rejected in H. subst st1. split; reflexivity.
  - intros H. apply exchange_rejected in H. subst st1. split; reflexivity.
Qed.

Lemma bind_rejected {A B : Type} (m : Async A) (k : A -> Async B) (w : World)
  (st st1 : Machine) (e : Error) :
  m w st = (Rejected e, st1) -> bind m k w st = (Rejected e, st1).
Proof. intros H. unfold bind. rewrite H. reflexivity. Qed.

(** X22: when the token cannot be obtained, nothing reaches the API: the
    only call made is the one to the token endpoint, the client is left as
    it was (a stale token stays cached), and every mutation, every query and
    every operation that returns the first resource rejects with the error
    of the token manager. *)
Theorem without_token_nothing_reaches_the_api :
  forall (w : World) (st st1 : Machine) (e : Error),
    getAccessToken w st = (Rejected e, st1) ->
    client st1 = client st
    /\ sent st1 = (sent st ++ [token_request (client st)])%list
    /\ (forall endpoint options, request endpoint options w st = (Rejected e, st1))
    /\ (forall m : Mutation, mutate m w st = (Rejected e, st1))
    /\ (forall (f : Family) params, query_family f params w st = (Rejected e, st1))
    /\ (forall s : Single, single s w st = (Rejected e, st1)).
Proof.
  intros w st st1 e Htoken.
  destruct (getAccessToken_rejected w st st1 e Htoken) as [Hclient Hsent].
  split; [exact Hclient|split; [exact Hsent|]].
  assert (Hrequest : forall endpoint options,
             request endpoint options w st = (Rejected e, st1))
    by (intros; apply request_unauthenticated; exact Htoken).
  split; [exact Hrequest|split; [|split]].
  - intros m. destruct (mutate_call m) as [ack [_ ->]].
    apply bind_rejected, Hrequest.
  - intros f params. destruct (query_family_call f params) as [path [q ->]].
    unfold query. apply bind_rejected, Hrequest.
  - intros s. destruct (single_call s) as [endpoint [options ->]].
    apply bind_rejected, Hrequest.
Qed.

(** A token endpoint that refuses the credentials, on a fresh client. *)
Lemma without_token_nothing_reaches_the_api_witness :
  containHost ["d1"] locked_world (boot tenant)
  = (Rejected (AuthenticationError "OAuth2 authentication failed: 401 Unauthorized"),
     record_call (boot tenant) (token_request (client (boot tenant)))).
Proof.
  apply (proj1 (proj2 (proj2 (proj2
           (without_token_nothing_reaches_the_api locked_world (boot tenant)
              (record_call (boot tenant) (token_request (client (boot tenant))))
              (AuthenticationError "OAuth2 authentication failed: 401 Unauthorized")
              ltac:(vm_compute; reflexivity)))))
           (ContainHost ["d1"])).
Defined.
